(** * Champollion: a SearxNG search client

    Shallow embedding of the Go packages [pkg/env] and
    [internal/search/searxng], together with the fragments of the Go
    standard library ([strings], [path], [net/url], [encoding/json],
    [net/http]) that [Client.Search] calls.

    Go strings are byte sequences: they are embedded as [string], whose
    characters are the 8-bit values of [ascii].  A Go [int] is embedded
    as [Z]; no arithmetic is performed on it by this program.  A Go
    [map] is a [gmap].  A slice that the program only reads is a
    [list]; a slice that [encoding/json] fills is a [json.slice], which
    tells [nil] from empty and keeps the backing array.  A pointer that
    may be nil is an [option].  Calls that may fail return a value of a
    sum type, [inl] for the result and [inr] for the error, except
    [Client.Search] itself, which returns Go's pair of a nillable
    pointer and a nillable error.  Calls to the network are threaded
    through [http.IO], which records them in order.

    The standard library is embedded as it stands in Go 1.20 to 1.22;
    where a function of it is specialised to the way this program calls
    it, its comment says so. *)

From Stdlib Require Import ZArith Ascii String DecimalString DecimalZ DecimalPos
  List Bool Lia.
From stdpp Require Import gmap strings list sorting.

Set Warnings "-register-all,-abstract-large-number,-clear-no-such-hyp".

Local Open Scope Z_scope.

(** ** Bytes and the [strings] package *)

Module strings.

Definition byte_of (c : ascii) : N := N_of_ascii c.

Definition byte_eqb (a b : ascii) : bool := Ascii.eqb a b.

(** [lo <= c <= hi] on bytes. *)
Definition in_range (lo hi c : ascii) : bool :=
  (byte_of lo <=? byte_of c)%N && (byte_of c <=? byte_of hi)%N.

Definition is_lower (c : ascii) : bool := in_range "a" "z" c.
Definition is_upper (c : ascii) : bool := in_range "A" "Z" c.
Definition is_digit (c : ascii) : bool := in_range "0" "9" c.
Definition is_alnum (c : ascii) : bool :=
  is_lower c || is_upper c || is_digit c.

Definition one_of (cs : string) (c : ascii) : bool :=
  existsb (byte_eqb c) (list_ascii_of_string cs).

(** [strings.Join(elems, sep)]. *)
Fixpoint Join (elems : list string) (sep : string) : string :=
  match elems with
  | [] => EmptyString
  | [e] => e
  | e :: rest => e +:+ sep +:+ Join rest sep
  end.

Definition HasPrefix (s prefix : string) : bool := String.prefix prefix s.

Definition HasSuffix (s suffix : string) : bool :=
  String.prefix (String.rev suffix) (String.rev s).

(** [strings.IndexByte]-style cut: the text before and after the first
    occurrence of the byte [c]; [None] when [c] does not occur. *)
Fixpoint cut_byte (c : ascii) (s : string) : option (string * string) :=
  match s with
  | EmptyString => None
  | String a s' =>
      if byte_eqb a c then Some (EmptyString, s')
      else match cut_byte c s' with
           | Some (before, after) => Some (String a before, after)
           | None => None
           end
  end.

(** [strings.Cut(s, sep)] for a one-byte separator: without the
    separator the whole of [s] comes back as the first component. *)
Definition Cut (s : string) (c : ascii) : string * string * bool :=
  match cut_byte c s with
  | Some (before, after) => (before, after, true)
  | None => (s, EmptyString, false)
  end.

(** Cut at the last occurrence of the byte [c] ([strings.LastIndex]). *)
Fixpoint rcut_byte (c : ascii) (s : string) : option (string * string) :=
  match s with
  | EmptyString => None
  | String a s' =>
      match rcut_byte c s' with
      | Some (before, after) => Some (String a before, after)
      | None => if byte_eqb a c then Some (EmptyString, s') else None
      end
  end.

Definition ContainsByte (s : string) (c : ascii) : bool :=
  match cut_byte c s with Some _ => true | None => false end.

(** [strings.Count(s, sep)] for a one-byte separator. *)
Fixpoint Count (s : string) (c : ascii) : nat :=
  match s with
  | EmptyString => O
  | String a s' => (if byte_eqb a c then 1 else 0)%nat + Count s' c
  end.

(** Cut at the first occurrence of a (non-empty) separator string;
    the second component starts with the separator ([s[:i]], [s[i:]]
    for [i = strings.Index(s, sep)]). *)
Fixpoint cut_at (sep : string) (s : string) : option (string * string) :=
  if String.prefix sep s then Some (EmptyString, s)
  else match s with
       | EmptyString => None
       | String a s' =>
           match cut_at sep s' with
           | Some (before, after) => Some (String a before, after)
           | None => None
           end
       end.

(** The slices [s[:n]] and [s[n:]]. *)
Fixpoint take (n : nat) (s : string) : string :=
  match n, s with
  | S n', String a s' => String a (take n' s')
  | _, _ => EmptyString
  end.

Fixpoint drop (n : nat) (s : string) : string :=
  match n, s with
  | S n', String _ s' => drop n' s'
  | _, _ => s
  end.

Definition is_empty (s : string) : bool :=
  match s with EmptyString => true | _ => false end.

Definition to_lower_byte (c : ascii) : ascii :=
  if is_upper c then ascii_of_N (byte_of c + 32) else c.

(** [strings.ToLower] on the ASCII range, which is all a URL scheme
    can contain. *)
Fixpoint ToLower (s : string) : string :=
  match s with
  | EmptyString => EmptyString
  | String a s' => String (to_lower_byte a) (ToLower s')
  end.

Fixpoint all_bytes (p : ascii -> bool) (s : string) : bool :=
  match s with
  | EmptyString => true
  | String a s' => p a && all_bytes p s'
  end.

(** Byte-wise lexicographic order, Go's [<] on strings; [<=] is
    [String.le]. *)
Definition lt (a b : string) : Prop := String.ltb a b = true.

End strings.

(** ** [fmt.Sprintf("%d", n)] *)

Module fmt.

Definition Sprintf_d (n : Z) : string :=
  NilZero.string_of_int (Z.to_int n).

End fmt.

(** ** Package [pkg/env] *)

Module env.

(** The process environment that [os.LookupEnv] reads. *)
Abbreviation environ := (gmap string string).

Definition LookupEnv (e : environ) (key : string) : string * bool :=
  match e !! key with
  | Some value => (value, true)
  | None => (EmptyString, false)
  end.

Definition GetVar (e : environ) (key fallback : string) : string :=
  let '(value, ok) := LookupEnv e key in
  if ok then value else fallback.

End env.

(** ** Package [path] *)

Module path.
Import strings.

(** The buffer of [Clean] is kept reversed, so that appending is a
    cons; [dotdot] is the index below which [..] may not backtrack. *)
Fixpoint backtrack (out : list ascii) (dotdot : nat) : list ascii :=
  match out with
  | [] => []
  | c :: out' =>
      if (dotdot <? length out')%nat && negb (byte_eqb c "/")
      then backtrack out' dotdot
      else out'
  end.

Definition at_elem_end (s : string) : bool :=
  match s with
  | EmptyString => true
  | String c _ => byte_eqb c "/"
  end.

(** The loop of [Clean].  [in_elem] holds while the bytes of a real
    path element are being copied. *)
Fixpoint clean_loop (rooted in_elem : bool) (out : list ascii)
    (dotdot : nat) (s : string) : list ascii :=
  match s with
  | EmptyString => out
  | String c s' =>
      if byte_eqb c "/" then clean_loop rooted false out dotdot s'
      else if in_elem then clean_loop rooted true (c :: out) dotdot s'
      else if byte_eqb c "." && at_elem_end s' then
        clean_loop rooted false out dotdot s'
      else
        let real :=
          let out1 :=
            if (rooted && negb (length out =? 1)%nat)
               || (negb rooted && negb (length out =? 0)%nat)
            then "/"%char :: out else out in
          clean_loop rooted true (c :: out1) dotdot s' in
        match s' with
        | String c2 s'' =>
            if byte_eqb c "." && byte_eqb c2 "." && at_elem_end s'' then
              if (dotdot <? length out)%nat then
                clean_loop rooted false (backtrack out dotdot) dotdot s''
              else if negb rooted then
                let out1 :=
                  if (0 <? length out)%nat then "/"%char :: out else out in
                let out2 := "."%char :: "."%char :: out1 in
                clean_loop rooted false out2 (length out2) s''
              else clean_loop rooted false out dotdot s''
            else real
        | EmptyString => real
        end
  end.

Definition Clean (p : string) : string :=
  match p with
  | EmptyString => "."
  | String c _ =>
      let rooted := byte_eqb c "/" in
      let out :=
        if rooted then clean_loop true false ["/"%char] 1 (drop 1 p)
        else clean_loop false false [] 0 p in
      match out with
      | [] => "."
      | _ => string_of_list_ascii (rev out)
      end
  end.

Fixpoint join_loop (buf : string) (elem : list string) : string :=
  match elem with
  | [] => buf
  | e :: elem' =>
      if negb (is_empty buf) || negb (is_empty e) then
        join_loop ((if negb (is_empty buf) then buf +:+ "/" else buf) +:+ e)
                  elem'
      else join_loop buf elem'
  end.

Definition Join (elem : list string) : string :=
  if forallb is_empty elem then EmptyString
  else Clean (join_loop EmptyString elem).

End path.

(** ** Package [net/url] *)

Module url.
Import strings.

Inductive encoding : Set :=
| encodePath | encodePathSegment | encodeHost | encodeZone
| encodeUserPassword | encodeQueryComponent | encodeFragment.

Definition encoding_eqb (a b : encoding) : bool :=
  match a, b with
  | encodePath, encodePath | encodePathSegment, encodePathSegment
  | encodeHost, encodeHost | encodeZone, encodeZone
  | encodeUserPassword, encodeUserPassword
  | encodeQueryComponent, encodeQueryComponent
  | encodeFragment, encodeFragment => true
  | _, _ => false
  end.

(** The causes of a parse failure; [Parse] wraps them in [Error]. *)
Inductive ParseError : Set :=
| InvalidControlCharacter
| MissingProtocolScheme
| FirstPathSegmentColon
| EscapeError (s : string)
| InvalidHostError (s : string)
| MissingBracket
| InvalidPort (s : string)
| InvalidUserinfo.

Record Error : Set := mkError { Op : string; URL_ : string; Err : ParseError }.

Record Userinfo : Set := mkUserinfo
  { username : string; password : string; passwordSet : bool }.

Record URL : Set := mkURL
  { Scheme : string;
    Opaque : string;
    User : option Userinfo;
    Host : string;
    Path : string;
    RawPath : string;
    OmitHost : bool;
    ForceQuery : bool;
    RawQuery : string;
    Fragment : string;
    RawFragment : string }.

Definition empty_URL : URL :=
  mkURL "" "" None "" "" "" false false "" "" "".

Definition DQUOTE : ascii := "034".

Definition ishex (c : ascii) : bool :=
  is_digit c || in_range "a" "f" c || in_range "A" "F" c.

Definition unhex (c : ascii) : N :=
  if is_digit c then byte_of c - byte_of "0"
  else if in_range "a" "f" c then byte_of c - byte_of "a" + 10
  else if in_range "A" "F" c then byte_of c - byte_of "A" + 10
  else 0.

Definition upperhex (n : N) : ascii :=
  match String.get (N.to_nat n) "0123456789ABCDEF" with
  | Some c => c
  | None => "0"
  end.

(** [shouldEscape(c, mode)]: whether the byte must be written as
    [%XX] in the given part of a URL. *)
Definition shouldEscape (c : ascii) (mode : encoding) : bool :=
  if is_alnum c then false
  else if (encoding_eqb mode encodeHost || encoding_eqb mode encodeZone)
          && (one_of "!$&'()*+,;=:[]<>" c || byte_eqb c DQUOTE)
  then false
  else if one_of "-_.~" c then false
  else if one_of "$&+,/:;=?@" c then
    match mode with
    | encodePath => byte_eqb c "?"
    | encodePathSegment => one_of "/;,?" c
    | encodeUserPassword => one_of "@/?:" c
    | encodeQueryComponent => true
    | encodeFragment => false
    | encodeHost | encodeZone => true
    end
  else if encoding_eqb mode encodeFragment && one_of "!()*" c then false
  else true.

Fixpoint escape (s : string) (mode : encoding) : string :=
  match s with
  | EmptyString => EmptyString
  | String c s' =>
      if byte_eqb c " " && encoding_eqb mode encodeQueryComponent then
        String "+" (escape s' mode)
      else if shouldEscape c mode then
        String "%"
          (String (upperhex (N.shiftr (byte_of c) 4))
             (String (upperhex (N.land (byte_of c) 15)) (escape s' mode)))
      else String c (escape s' mode)
  end.

Definition QueryEscape (s : string) : string :=
  escape s encodeQueryComponent.

(** [unescape(s, mode)].  Go validates in a first pass and rewrites in
    a second; the first ill-formed byte decides the error, so one pass
    from the left gives the same result. *)
Fixpoint unescape (s : string) (mode : encoding) : string + ParseError :=
  match s with
  | EmptyString => inl EmptyString
  | String c rest =>
      if byte_eqb c "%" then
        match rest with
        | String h1 (String h2 rest') =>
            if ishex h1 && ishex h2 then
              let v := ascii_of_N (N.lor (N.shiftl (unhex h1) 4) (unhex h2)) in
              let is25 := byte_eqb h1 "2" && byte_eqb h2 "5" in
              if encoding_eqb mode encodeHost && (unhex h1 <? 8)%N
                 && negb is25
              then inr (EscapeError (take 3 s))
              else if encoding_eqb mode encodeZone && negb is25
                      && negb (byte_eqb v " ") && shouldEscape v encodeHost
              then inr (EscapeError (take 3 s))
              else match unescape rest' mode with
                   | inl t => inl (String v t)
                   | inr e => inr e
                   end
            else inr (EscapeError (take 3 s))
        | _ => inr (EscapeError (take 3 s))
        end
      else if byte_eqb c "+" then
        match unescape rest mode with
        | inl t =>
            inl (String (if encoding_eqb mode encodeQueryComponent
                         then " "%char else "+"%char) t)
        | inr e => inr e
        end
      else if (encoding_eqb mode encodeHost || encoding_eqb mode encodeZone)
              && (byte_of c <? 128)%N && shouldEscape c encodeHost
      then inr (InvalidHostError (String c EmptyString))
      else match unescape rest mode with
           | inl t => inl (String c t)
           | inr e => inr e
           end
  end.

Definition stringContainsCTLByte (s : string) : bool :=
  negb (all_bytes
          (fun b => negb ((byte_of b <? byte_of " ")%N
                          || (byte_of b =? 127)%N)) s).

Inductive scheme_scan : Set :=
| NoScheme | SchemeEnds (i : nat) | SchemeMissing.

Fixpoint scan_scheme (i : nat) (s : string) : scheme_scan :=
  match s with
  | EmptyString => NoScheme
  | String c s' =>
      if is_lower c || is_upper c then scan_scheme (S i) s'
      else if is_digit c || one_of "+-." c then
        if (i =? 0)%nat then NoScheme else scan_scheme (S i) s'
      else if byte_eqb c ":" then
        if (i =? 0)%nat then SchemeMissing else SchemeEnds i
      else NoScheme
  end.

(** [getScheme(rawURL)]: the scheme and what follows its colon. *)
Definition getScheme (rawURL : string) : (string * string) + ParseError :=
  match scan_scheme 0 rawURL with
  | NoScheme => inl (EmptyString, rawURL)
  | SchemeEnds i => inl (take i rawURL, drop (S i) rawURL)
  | SchemeMissing => inr MissingProtocolScheme
  end.

Definition validOptionalPort (port : string) : bool :=
  match port with
  | EmptyString => true
  | String c digits => byte_eqb c ":" && all_bytes is_digit digits
  end.

Definition validUserinfo (s : string) : bool :=
  all_bytes (fun r => is_alnum r || one_of "-._:~!$&'()*+,;=%@" r) s.

Definition parseHost (host : string) : string + ParseError :=
  let plain := unescape host encodeHost in
  if HasPrefix host "[" then
    match rcut_byte "]" host with
    | None => inr MissingBracket
    | Some (before, colonPort) =>
        if negb (validOptionalPort colonPort) then
          inr (InvalidPort colonPort)
        else
          match cut_at "%25" before with
          | Some (h1, zone) =>
              match unescape h1 encodeHost with
              | inr e => inr e
              | inl host1 =>
                  match unescape zone encodeZone with
                  | inr e => inr e
                  | inl host2 =>
                      match unescape (String "]" colonPort) encodeHost with
                      | inr e => inr e
                      | inl host3 => inl (host1 +:+ host2 +:+ host3)
                      end
                  end
              end
          | None => plain
          end
    end
  else
    match rcut_byte ":" host with
    | Some (_, port) =>
        if negb (validOptionalPort (String ":" port)) then
          inr (InvalidPort (String ":" port))
        else plain
    | None => plain
    end.

Definition parseAuthority (authority : string)
  : (option Userinfo * string) + ParseError :=
  match rcut_byte "@" authority with
  | None =>
      match parseHost authority with
      | inr e => inr e
      | inl host => inl (None, host)
      end
  | Some (userinfo, hostpart) =>
      match parseHost hostpart with
      | inr e => inr e
      | inl host =>
          if negb (validUserinfo userinfo) then inr InvalidUserinfo
          else if negb (ContainsByte userinfo ":") then
            match unescape userinfo encodeUserPassword with
            | inr e => inr e
            | inl u => inl (Some (mkUserinfo u "" false), host)
            end
          else
            let '(username, password, _) := Cut userinfo ":" in
            match unescape username encodeUserPassword with
            | inr e => inr e
            | inl u =>
                match unescape password encodeUserPassword with
                | inr e => inr e
                | inl p => inl (Some (mkUserinfo u p true), host)
                end
            end
      end
  end.

(** [u.setPath(p)]: [Path] is the decoded form, and [RawPath] is kept
    only when [p] is not the default encoding of [Path]. *)
Definition setPath (u : URL) (p : string) : URL + ParseError :=
  match unescape p encodePath with
  | inr e => inr e
  | inl path =>
      let raw :=
        if String.eqb p (escape path encodePath) then EmptyString else p in
      inl (mkURL (Scheme u) (Opaque u) (User u) (Host u) path raw
             (OmitHost u) (ForceQuery u) (RawQuery u) (Fragment u)
             (RawFragment u))
  end.

Definition setFragment (u : URL) (f : string) : URL + ParseError :=
  match unescape f encodeFragment with
  | inr e => inr e
  | inl frag =>
      let raw :=
        if String.eqb f (escape frag encodeFragment) then EmptyString
        else f in
      inl (mkURL (Scheme u) (Opaque u) (User u) (Host u) (Path u)
             (RawPath u) (OmitHost u) (ForceQuery u) (RawQuery u) frag raw)
  end.

Definition with_authority (u : URL) (user : option Userinfo)
    (host : string) : URL :=
  mkURL (Scheme u) (Opaque u) user host (Path u) (RawPath u) (OmitHost u)
    (ForceQuery u) (RawQuery u) (Fragment u) (RawFragment u).

Definition with_RawQuery (u : URL) (q : string) : URL :=
  mkURL (Scheme u) (Opaque u) (User u) (Host u) (Path u) (RawPath u)
    (OmitHost u) (ForceQuery u) q (Fragment u) (RawFragment u).

Definition with_Host (u : URL) (h : string) : URL :=
  with_authority u (User u) h.

(** [parse(rawURL, viaRequest)] with [viaRequest = false], the only
    way [Parse] calls it. *)
Definition parse (rawURL : string) : URL + ParseError :=
  if stringContainsCTLByte rawURL then inr InvalidControlCharacter
  else if String.eqb rawURL "*" then
    inl (mkURL "" "" None "" "*" "" false false "" "" "")
  else
    match getScheme rawURL with
    | inr e => inr e
    | inl (scheme0, rest0) =>
        let scheme := ToLower scheme0 in
        let '(rest, rawQuery, forceQuery) :=
          if HasSuffix rest0 "?" && (Count rest0 "?" =? 1)%nat then
            (take (String.length rest0 - 1) rest0, EmptyString, true)
          else
            let '(before, after, _) := Cut rest0 "?" in
            (before, after, false) in
        let u0 := mkURL scheme "" None "" "" "" false forceQuery rawQuery
                    "" "" in
        if negb (HasPrefix rest "/") && negb (is_empty scheme) then
          (* rootless paths are opaque *)
          inl (mkURL scheme rest None "" "" "" false forceQuery rawQuery
                 "" "")
        else if negb (HasPrefix rest "/")
                && ContainsByte (fst (fst (Cut rest "/"))) ":"
        then inr FirstPathSegmentColon
        else if (negb (is_empty scheme) || negb (HasPrefix rest "///"))
                && HasPrefix rest "//"
        then
          let after := drop 2 rest in
          let '(authority, rest') :=
            match cut_byte "/" after with
            | Some (a, r) => (a, String "/" r)
            | None => (after, EmptyString)
            end in
          match parseAuthority authority with
          | inr e => inr e
          | inl (user, host) => setPath (with_authority u0 user host) rest'
          end
        else if negb (is_empty scheme) && HasPrefix rest "/" then
          setPath (mkURL scheme "" None "" "" "" true forceQuery rawQuery
                     "" "") rest
        else setPath u0 rest
    end.

(** [url.Parse(rawURL)]. *)
Definition Parse (rawURL : string) : URL + Error :=
  let '(u, frag, _) := Cut rawURL "#" in
  match parse u with
  | inr e => inr (mkError "parse" u e)
  | inl url =>
      if is_empty frag then inl url
      else match setFragment url frag with
           | inr e => inr (mkError "parse" rawURL e)
           | inl url' => inl url'
           end
  end.

Definition validEncoded (s : string) (mode : encoding) : bool :=
  all_bytes (fun c => one_of "!$&'()*+,;=:@[]%" c
                      || negb (shouldEscape c mode)) s.

Definition EscapedPath (u : URL) : string :=
  let default :=
    if String.eqb (Path u) "*" then "*" else escape (Path u) encodePath in
  if negb (is_empty (RawPath u)) && validEncoded (RawPath u) encodePath then
    match unescape (RawPath u) encodePath with
    | inl p => if String.eqb p (Path u) then RawPath u else default
    | inr _ => default
    end
  else default.

Definition EscapedFragment (u : URL) : string :=
  let default := escape (Fragment u) encodeFragment in
  if negb (is_empty (RawFragment u))
     && validEncoded (RawFragment u) encodeFragment then
    match unescape (RawFragment u) encodeFragment with
    | inl f => if String.eqb f (Fragment u) then RawFragment u else default
    | inr _ => default
    end
  else default.

Definition Userinfo_String (u : Userinfo) : string :=
  escape (username u) encodeUserPassword
  +:+ (if passwordSet u
       then ":" +:+ escape (password u) encodeUserPassword
       else EmptyString).

Definition has_user (u : URL) : bool :=
  match User u with Some _ => true | None => false end.

(** [u.String()]: the URL reassembled from its parts. *)
Definition String_ (u : URL) : string :=
  let buf0 :=
    if negb (is_empty (Scheme u)) then Scheme u +:+ ":" else EmptyString in
  let buf1 :=
    if negb (is_empty (Opaque u)) then buf0 +:+ Opaque u
    else
      let buf_auth :=
        if negb (is_empty (Scheme u)) || negb (is_empty (Host u))
           || has_user u
        then
          if OmitHost u && is_empty (Host u) && negb (has_user u) then buf0
          else
            buf0
            +:+ (if negb (is_empty (Host u)) || negb (is_empty (Path u))
                    || has_user u
                 then "//" else EmptyString)
            +:+ match User u with
                | Some ui => Userinfo_String ui +:+ "@"
                | None => EmptyString
                end
            +:+ (if negb (is_empty (Host u))
                 then escape (Host u) encodeHost else EmptyString)
        else buf0 in
      let path := EscapedPath u in
      let buf_slash :=
        if negb (is_empty path) && negb (HasPrefix path "/")
           && negb (is_empty (Host u))
        then buf_auth +:+ "/" else buf_auth in
      let buf_dot :=
        if is_empty buf_slash
           && ContainsByte (fst (fst (Cut path "/"))) ":"
        then "./" else buf_slash in
      buf_dot +:+ path in
  let buf2 :=
    if ForceQuery u || negb (is_empty (RawQuery u))
    then buf1 +:+ "?" +:+ RawQuery u else buf1 in
  if negb (is_empty (Fragment u))
  then buf2 +:+ "#" +:+ EscapedFragment u else buf2.

(** [u.JoinPath(elem...)], as of Go 1.20: the escaped path of [u] is
    put before the elements, after a slash when [u] is relative.  The
    error of [setPath] is discarded by the Go code, which then keeps
    the path of the copy. *)
Definition JoinPath (u : URL) (elem : list string) : URL :=
  let first := EscapedPath u in
  let rooted := HasPrefix first "/" in
  let elem := (if rooted then first else "/" +:+ first) :: elem in
  let p := if rooted then path.Join elem else drop 1 (path.Join elem) in
  let p :=
    if HasSuffix (List.last elem EmptyString) "/" && negb (HasSuffix p "/")
    then p +:+ "/" else p in
  match setPath u p with
  | inl u' => u'
  | inr _ => u
  end.

(** [url.Values]: a map from a key to its list of values. *)
Abbreviation Values := (gmap string (list string)).

(** [v.Set(key, value)] replaces whatever values [key] had. *)
Definition Set_ (v : Values) (key value : string) : Values :=
  <[key := [value]]> v.

(** The keys of [v] in ascending byte order ([slices.Sort]). *)
Definition sorted_keys (v : Values) : list string :=
  merge_sort String.le (map fst (map_to_list v)).

Definition write_param (keyEscaped : string) (buf value : string)
  : string :=
  (if (0 <? String.length buf)%nat then buf +:+ "&" else buf)
  +:+ keyEscaped +:+ "=" +:+ QueryEscape value.

(** [v.Encode()]: the pairs [key=value], escaped, sorted by key and
    separated by [&]. *)
Definition Encode (v : Values) : string :=
  fold_left
    (fun buf k =>
       fold_left (write_param (QueryEscape k)) (default [] (v !! k)) buf)
    (sorted_keys v) EmptyString.

End url.

(** ** Packages [unicode/utf8] and [unicode/utf16] *)

Module utf8.
Import strings.

Definition byte (n : N) : ascii := ascii_of_N n.

(** U+FFFD, the replacement character, in UTF-8. *)
Definition RuneError : string :=
  String (byte 239) (String (byte 191) (String (byte 189) EmptyString)).

Definition in_N (lo hi n : N) : bool := (lo <=? n)%N && (n <=? hi)%N.

Definition is_cont (n : N) : bool := in_N 128 191 n.

(** How many continuation bytes follow the leading byte [b0] in the
    well-formed sequence that starts the input, or [0] when the input
    does not start with a well-formed multi-byte sequence
    ([DecodeRune] then returns the replacement rune with width 1).
    Over-long forms, surrogates and values above U+10FFFF are not
    well-formed. *)
Definition continuation_count (b0 : N) (next : list N) : nat :=
  match next with
  | b1 :: more =>
      if in_N 194 223 b0 then (if is_cont b1 then 1 else 0)%nat
      else
        match more with
        | b2 :: more' =>
            if in_N 224 239 b0 then
              let lo := if (b0 =? 224)%N then 160%N else 128%N in
              let hi := if (b0 =? 237)%N then 159%N else 191%N in
              (if in_N lo hi b1 && is_cont b2 then 2 else 0)%nat
            else
              match more' with
              | b3 :: _ =>
                  if in_N 240 244 b0 then
                    let lo := if (b0 =? 240)%N then 144%N else 128%N in
                    let hi := if (b0 =? 244)%N then 143%N else 191%N in
                    (if in_N lo hi b1 && is_cont b2 && is_cont b3
                     then 3 else 0)%nat
                  else O
              | [] => O
              end
        | [] => O
        end
  | [] => O
  end.

(** [utf8.AppendRune]: the UTF-8 form of the rune [r]. *)
Definition EncodeRune (r : N) : string :=
  if (r <? 128)%N then String (byte r) EmptyString
  else if (r <? 2048)%N then
    String (byte (N.lor 192 (N.shiftr r 6)))
      (String (byte (N.lor 128 (N.land r 63))) EmptyString)
  else if in_N 55296 57343 r || (1114111 <? r)%N then RuneError
  else if (r <? 65536)%N then
    String (byte (N.lor 224 (N.shiftr r 12)))
      (String (byte (N.lor 128 (N.land (N.shiftr r 6) 63)))
         (String (byte (N.lor 128 (N.land r 63))) EmptyString))
  else
    String (byte (N.lor 240 (N.shiftr r 18)))
      (String (byte (N.lor 128 (N.land (N.shiftr r 12) 63)))
         (String (byte (N.lor 128 (N.land (N.shiftr r 6) 63)))
            (String (byte (N.lor 128 (N.land r 63))) EmptyString))).

End utf8.

Module utf16.

Definition IsSurrogate (r : N) : bool := utf8.in_N 55296 57343 r.

(** [utf16.DecodeRune(r1, r2)]: the rune of a surrogate pair, or
    [None] where Go returns the replacement character. *)
Definition DecodeRune (r1 r2 : N) : option N :=
  if utf8.in_N 55296 56319 r1 && utf8.in_N 56320 57343 r2
  then Some (N.lor (N.shiftl (r1 - 55296) 10) (r2 - 56320) + 65536)%N
  else None.

End utf16.

(** ** Package [encoding/json]: reading a JSON text *)

Module json.
Import strings.

(** A JSON text, once read.  A string holds its unquoted bytes; a
    number keeps its literal; the members of an object are kept in
    the order of the text, duplicates included. *)
Inductive value : Type :=
| Null
| Bool (b : bool)
| Number (literal : string)
| Str (s : string)
| Array (elems : list value)
| Object (members : list (string * value)).

Inductive Error : Set :=
| SyntaxError
| UnmarshalTypeError (Value : string) (Type_ : string).

Definition DQUOTE : ascii := "034".
Definition BACKSLASH : ascii := "092".

Definition isSpace (c : ascii) : bool :=
  byte_eqb c " " || byte_eqb c "009" || byte_eqb c "013"
  || byte_eqb c "010".

(** *** Unquoting a string literal ([unquoteBytes]) *)

(** The content of a literal is first cut into units: a byte (written
    as it is, or through a one-letter escape) or the 16-bit value of a
    [\uXXXX] escape. *)
Inductive unit_ : Set :=
| Lit (c : ascii)
| U16 (r : N).

Definition escaped_byte (e : ascii) : ascii :=
  if byte_eqb e "b" then "008"%char
  else if byte_eqb e "f" then "012"%char
  else if byte_eqb e "n" then "010"%char
  else if byte_eqb e "r" then "013"%char
  else if byte_eqb e "t" then "009"%char
  else e.

Definition hex4 (h1 h2 h3 h4 : ascii) : N :=
  (url.unhex h1 * 4096 + url.unhex h2 * 256 + url.unhex h3 * 16
   + url.unhex h4)%N.

Fixpoint units (s : string) : list unit_ :=
  match s with
  | EmptyString => []
  | String c s1 =>
      if byte_eqb c BACKSLASH then
        match s1 with
        | String e s2 =>
            if byte_eqb e "u" then
              match s2 with
              | String h1 (String h2 (String h3 (String h4 s3))) =>
                  U16 (hex4 h1 h2 h3 h4) :: units s3
              | _ => []
              end
            else Lit (escaped_byte e) :: units s2
        | EmptyString => []
        end
      else Lit c :: units s1
  end.

(** The bytes written as they are at the head of the units. *)
Fixpoint raw_prefix (n : nat) (us : list unit_) : list N :=
  match n, us with
  | S n', Lit c :: us' => byte_of c :: raw_prefix n' us'
  | _, _ => []
  end.

(** The units written out as UTF-8.  A lone or ill-paired surrogate
    escape and every byte that does not start a well-formed UTF-8
    sequence become U+FFFD; [copy] counts the continuation bytes of a
    sequence already accepted. *)
Fixpoint assemble (copy : nat) (us : list unit_) : string :=
  match us with
  | [] => EmptyString
  | Lit c :: rest =>
      match copy with
      | S k => String c (assemble k rest)
      | O =>
          if (byte_of c <? 128)%N then String c (assemble O rest)
          else
            match utf8.continuation_count (byte_of c) (raw_prefix 3 rest)
            with
            | O => utf8.RuneError +:+ assemble O rest
            | n => String c (assemble n rest)
            end
      end
  | U16 rr :: rest =>
      if utf16.IsSurrogate rr then
        match rest with
        | U16 rr1 :: rest' =>
            match utf16.DecodeRune rr rr1 with
            | Some dec => utf8.EncodeRune dec +:+ assemble O rest'
            | None => utf8.RuneError +:+ assemble O rest
            end
        | _ => utf8.RuneError +:+ assemble O rest
        end
      else utf8.EncodeRune rr +:+ assemble O rest
  end.

(** [unquoteBytes], applied to what stands between the quotes. *)
Definition unquote (content : string) : string :=
  assemble O (units content).

(** *** The scanner *)

(** What the scanner is in the middle of ([parseState], with the
    values read so far, latest first). *)
Inductive frame : Type :=
| parseObjectKey (members : list (string * value))
| parseObjectValue (members : list (string * value)) (key : string)
| parseArrayValue (elems : list value).

Inductive number_state : Set :=
| stateNeg | state1 | state0 | stateDot | stateDot0
| stateE | stateESign | stateE0.

(** The step function of the scanner.  A state that reads a token
    carries the bytes of the token, latest first. *)
Inductive step_state : Type :=
| stateBeginValueOrEmpty
| stateBeginValue
| stateBeginStringOrEmpty
| stateBeginString
| stateEndValue (v : value)
| stateEndTop (v : value)
| stateInString (content : list ascii)
| stateInStringEsc (content : list ascii)
| stateInStringEscU (digits : nat) (content : list ascii)
| stateNumber (n : number_state) (literal : list ascii)
| stateLiteral (rest : string) (v : value).

Record scanner : Type := mkScanner
  { step : step_state; parseState : list frame }.

Definition maxNestingDepth : nat := 10000.

Definition text (rev_bytes : list ascii) : string :=
  string_of_list_ascii (rev rev_bytes).

(** A value is complete: at the top level the scanner has reached
    [stateEndTop], inside a container it waits for what follows. *)
Definition endValue (stack : list frame) (v : value) : scanner :=
  match stack with
  | [] => mkScanner (stateEndTop v) []
  | _ => mkScanner (stateEndValue v) stack
  end.

Definition pushParseState (stack : list frame) (f : frame)
    (next : step_state) : option scanner :=
  if (length (f :: stack) <=? maxNestingDepth)%nat
  then Some (mkScanner next (f :: stack))
  else None.

(** [stateEndValue(s, c)]: the byte after a value. *)
Definition after_value (stack : list frame) (v : value) (c : ascii)
  : option scanner :=
  match stack with
  | [] => if isSpace c then Some (mkScanner (stateEndTop v) []) else None
  | top :: below =>
      if isSpace c then Some (mkScanner (stateEndValue v) stack)
      else
        match top with
        | parseObjectKey ms =>
            match v with
            | Str key =>
                if byte_eqb c ":" then
                  Some (mkScanner stateBeginValue
                          (parseObjectValue ms key :: below))
                else None
            | _ => None
            end
        | parseObjectValue ms key =>
            if byte_eqb c "," then
              Some (mkScanner stateBeginString
                      (parseObjectKey ((key, v) :: ms) :: below))
            else if byte_eqb c "}" then
              Some (endValue below (Object (rev ((key, v) :: ms))))
            else None
        | parseArrayValue vs =>
            if byte_eqb c "," then
              Some (mkScanner stateBeginValue
                      (parseArrayValue (v :: vs) :: below))
            else if byte_eqb c "]" then
              Some (endValue below (Array (rev (v :: vs))))
            else None
        end
  end.

Definition begin_value (stack : list frame) (c : ascii) : option scanner :=
  if isSpace c then Some (mkScanner stateBeginValue stack)
  else if byte_eqb c "{" then
    pushParseState stack (parseObjectKey []) stateBeginStringOrEmpty
  else if byte_eqb c "[" then
    pushParseState stack (parseArrayValue []) stateBeginValueOrEmpty
  else if byte_eqb c DQUOTE then Some (mkScanner (stateInString []) stack)
  else if byte_eqb c "-" then
    Some (mkScanner (stateNumber stateNeg [c]) stack)
  else if byte_eqb c "0" then
    Some (mkScanner (stateNumber state0 [c]) stack)
  else if byte_eqb c "t" then
    Some (mkScanner (stateLiteral "rue" (Bool true)) stack)
  else if byte_eqb c "f" then
    Some (mkScanner (stateLiteral "alse" (Bool false)) stack)
  else if byte_eqb c "n" then
    Some (mkScanner (stateLiteral "ull" Null) stack)
  else if in_range "1" "9" c then
    Some (mkScanner (stateNumber state1 [c]) stack)
  else None.

Definition begin_string (stack : list frame) (c : ascii) : option scanner :=
  if isSpace c then Some (mkScanner stateBeginString stack)
  else if byte_eqb c DQUOTE then Some (mkScanner (stateInString []) stack)
  else None.

(** The number states: [Some (inl n')] to go on in state [n'],
    [Some (inr tt)] when the byte ends the number, [None] on an
    error. *)
Definition number_step (n : number_state) (c : ascii)
  : option (number_state + unit) :=
  let is_e := byte_eqb c "e" || byte_eqb c "E" in
  match n with
  | stateNeg =>
      if byte_eqb c "0" then Some (inl state0)
      else if in_range "1" "9" c then Some (inl state1)
      else None
  | state1 =>
      if is_digit c then Some (inl state1)
      else if byte_eqb c "." then Some (inl stateDot)
      else if is_e then Some (inl stateE)
      else Some (inr tt)
  | state0 =>
      if byte_eqb c "." then Some (inl stateDot)
      else if is_e then Some (inl stateE)
      else Some (inr tt)
  | stateDot => if is_digit c then Some (inl stateDot0) else None
  | stateDot0 =>
      if is_digit c then Some (inl stateDot0)
      else if is_e then Some (inl stateE)
      else Some (inr tt)
  | stateE =>
      if byte_eqb c "+" || byte_eqb c "-" then Some (inl stateESign)
      else if is_digit c then Some (inl stateE0)
      else None
  | stateESign => if is_digit c then Some (inl stateE0) else None
  | stateE0 =>
      if is_digit c then Some (inl stateE0) else Some (inr tt)
  end.

(** One byte of input; [None] is the scanner's error state. *)
Definition scan_byte (s : scanner) (c : ascii) : option scanner :=
  let stack := parseState s in
  match step s with
  | stateBeginValueOrEmpty =>
      if isSpace c then Some s
      else if byte_eqb c "]" then
        match stack with
        | parseArrayValue vs :: below =>
            Some (endValue below (Array (rev vs)))
        | _ => None
        end
      else begin_value stack c
  | stateBeginValue => begin_value stack c
  | stateBeginStringOrEmpty =>
      if isSpace c then Some s
      else if byte_eqb c "}" then
        match stack with
        | parseObjectKey ms :: below =>
            Some (endValue below (Object (rev ms)))
        | _ => None
        end
      else begin_string stack c
  | stateBeginString => begin_string stack c
  | stateEndValue v => after_value stack v c
  | stateEndTop v => if isSpace c then Some s else None
  | stateInString content =>
      if byte_eqb c DQUOTE then
        Some (endValue stack (Str (unquote (text content))))
      else if byte_eqb c BACKSLASH then
        Some (mkScanner (stateInStringEsc (c :: content)) stack)
      else if (byte_of c <? 32)%N then None
      else Some (mkScanner (stateInString (c :: content)) stack)
  | stateInStringEsc content =>
      if one_of "bfnrt/" c || byte_eqb c BACKSLASH || byte_eqb c DQUOTE
      then Some (mkScanner (stateInString (c :: content)) stack)
      else if byte_eqb c "u" then
        Some (mkScanner (stateInStringEscU 0 (c :: content)) stack)
      else None
  | stateInStringEscU digits content =>
      if url.ishex c then
        if (digits =? 3)%nat
        then Some (mkScanner (stateInString (c :: content)) stack)
        else Some (mkScanner (stateInStringEscU (S digits) (c :: content))
                     stack)
      else None
  | stateNumber n literal =>
      match number_step n c with
      | Some (inl n') => Some (mkScanner (stateNumber n' (c :: literal)) stack)
      | Some (inr _) => after_value stack (Number (text literal)) c
      | None => None
      end
  | stateLiteral rest v =>
      match rest with
      | String c' rest' =>
          if byte_eqb c c' then
            match rest' with
            | EmptyString => Some (endValue stack v)
            | _ => Some (mkScanner (stateLiteral rest' v) stack)
            end
          else None
      | EmptyString => None
      end
  end.

Fixpoint scan (s : scanner) (data : string) : option scanner :=
  match data with
  | EmptyString => Some s
  | String c data' =>
      match scan_byte s c with
      | Some s' => scan s' data'
      | None => None
      end
  end.

(** [s.eof()]: the end of the input is given to the step function
    as one more space. *)
Definition eof (s : scanner) : option value :=
  match scan_byte s " " with
  | Some (mkScanner (stateEndTop v) _) => Some v
  | _ => None
  end.

(** The value that a well-formed JSON text denotes ([checkValid]
    accepts the text exactly when this is [Some]). *)
Definition parse (data : string) : option value :=
  match scan (mkScanner stateBeginValue []) data with
  | Some s => eof s
  | None => None
  end.

(** *** Storing a value into a Go variable *)

(** [d.savedError]: the first error met is the one reported. *)
Definition saveError (saved : option Error) (e : Error) : option Error :=
  match saved with
  | None => Some e
  | Some _ => saved
  end.

Definition kind_name (v : value) : string :=
  match v with
  | Null => "null"
  | Bool _ => "bool"
  | Number _ => "number"
  | Str _ => "string"
  | Array _ => "array"
  | Object _ => "object"
  end.

(** A decoder updates the variable it is given and threads the saved
    error: decoding goes on after a type error. *)
Definition decoder (T : Type) : Type :=
  T -> value -> option Error -> T * option Error.

(** Into a [string]: a JSON string is stored, [null] leaves the
    variable as it is, anything else is a type error. *)
Definition decode_string : decoder string :=
  fun dst v saved =>
    match v with
    | Str s => (s, saved)
    | Null => (dst, saved)
    | _ => (dst, saveError saved (UnmarshalTypeError (kind_name v) "string"))
    end.

(** A slice: [nil], or its elements followed by what the rest of
    its backing array still holds.  Capacity that has never been
    written is not represented: reading it gives the zero value, as
    does reading past the end of [spare]. *)
Inductive slice (A : Type) : Type :=
| nil_slice
| mkSlice (elems spare : list A).
Arguments nil_slice {A}.
Arguments mkSlice {A} elems spare.

Definition elems_of {A} (s : slice A) : list A :=
  match s with nil_slice => [] | mkSlice elems _ => elems end.

Definition is_nil {A} (s : slice A) : bool :=
  match s with nil_slice => true | mkSlice _ _ => false end.

Definition backing {A} (s : slice A) : list A :=
  match s with nil_slice => [] | mkSlice elems spare => elems ++ spare end.

(** The loop of [d.array]: element [i] of the text is decoded into
    slot [i] of the backing array, which holds the zero value unless
    an earlier decoding wrote to it. *)
Fixpoint decode_elems {A} (dec : decoder A) (zero : A) (old : list A)
    (vs : list value) (saved : option Error) : list A * option Error :=
  match vs with
  | [] => ([], saved)
  | v :: vs' =>
      let '(x, saved1) := dec (hd zero old) v saved in
      let '(xs, saved2) := decode_elems dec zero (tl old) vs' saved1 in
      (x :: xs, saved2)
  end.

Definition decode_slice {A} (dec : decoder A) (zero : A) (type : string)
  : decoder (slice A) :=
  fun dst v saved =>
    match v with
    | Null => (nil_slice, saved)
    | Array [] => (mkSlice [] [], saved)
    | Array vs =>
        let '(xs, saved') := decode_elems dec zero (backing dst) vs saved in
        (mkSlice xs (skipn (length vs) (backing dst)), saved')
    | _ => (dst, saveError saved (UnmarshalTypeError (kind_name v) type))
    end.

(** A pointer: [null] sets it to [nil]; for anything else a [nil]
    pointer is first made to point to a new zero value. *)
Definition decode_ptr {A} (dec : decoder A) (zero : A)
  : decoder (option A) :=
  fun dst v saved =>
    match v with
    | Null => (None, saved)
    | _ => let '(x, saved') := dec (default zero dst) v saved in
           (Some x, saved')
    end.

(** [foldName] on the runes whose fold can be an ASCII letter: the
    letters themselves, U+017F (long s) and U+212A (Kelvin sign).
    Every other rune folds to a rune outside ASCII and is copied. *)
Fixpoint foldName (s : string) : string :=
  match s with
  | EmptyString => EmptyString
  | String c s1 =>
      let other :=
        String (if is_lower c then ascii_of_N (byte_of c - 32) else c)
               (foldName s1) in
      match s1 with
      | String c1 s2 =>
          if (byte_of c =? 197)%N && (byte_of c1 =? 191)%N
          then String "S" (foldName s2)
          else
            match s2 with
            | String c2 s3 =>
                if (byte_of c =? 226)%N && (byte_of c1 =? 132)%N
                   && (byte_of c2 =? 170)%N
                then String "K" (foldName s3)
                else other
            | EmptyString => other
            end
      | EmptyString => other
      end
  end.

(** The field that a key names: the field of that exact name, or
    else the first whose name is the same up to case folding. *)
Definition find_field {F} (fields : list (string * F)) (key : string)
  : option F :=
  match List.find (fun f => String.eqb (fst f) key) fields with
  | Some f => Some (snd f)
  | None =>
      match List.find (fun f => String.eqb (foldName (fst f)) (foldName key))
              fields with
      | Some f => Some (snd f)
      | None => None
      end
  end.

Definition decode_member {T} (fields : list (string * decoder T))
    (acc : T * option Error) (m : string * value) : T * option Error :=
  match find_field fields (fst m) with
  | Some f => f (fst acc) (snd m) (snd acc)
  | None => acc
  end.

(** Into a struct: the members of an object are stored one after
    the other, each into the field its key names; a key that names
    no field is skipped; [null] leaves the struct as it is. *)
Definition decode_struct {T} (fields : list (string * decoder T))
    (type : string) : decoder T :=
  fun dst v saved =>
    match v with
    | Object members => fold_left (decode_member fields) members (dst, saved)
    | Null => (dst, saved)
    | _ => (dst, saveError saved (UnmarshalTypeError (kind_name v) type))
    end.

(** The decoder of a field, from the decoder of its type. *)
Definition field {T A} (get : T -> A) (set : T -> A -> T)
    (dec : decoder A) : decoder T :=
  fun dst v saved =>
    let '(x, saved') := dec (get dst) v saved in (set dst x, saved').

(** [json.Unmarshal(data, &dst)]: nothing is stored unless the whole
    text is well-formed. *)
Definition Unmarshal {T} (dec : decoder T) (data : string) (dst : T)
  : T * option Error :=
  match parse data with
  | None => (dst, Some SyntaxError)
  | Some v => dec dst v None
  end.

End json.

(** ** Go's [error] values, as far as this program produces them *)

Inductive error : Set :=
| ErrInvalidBaseURL (cause : url.Error)
    (* fmt.Errorf("invalid base URL: %w", err) *)
| ErrURL (e : url.Error)
| ErrInvalidMethod (method : string)
| ErrTransport (msg : string)
| ErrRead (msg : string)
| ErrJSON (e : json.Error).

(** ** Packages [net/http] and [io] *)

Module http.
Import strings.

Definition MethodGet : string := "GET".

Record Request : Set := mkRequest
  { Method : string; URL : url.URL; Host : string }.

(** A response body is a stream; what matters of it is what
    [io.ReadAll] gets out of it: the bytes read, and the error that
    ended the reading when it was not the end of the stream. *)
Record Body : Set := mkBody
  { data : string; read_error : option string }.

Record Response : Set := mkResponse
  { StatusCode : Z; Status : string; Body_ : Body }.

(** What the network answers to a request sent with
    [http.DefaultClient.Do]: a response, or a transport error. *)
Definition RoundTripper : Type := Request -> Response + string.

(** The calls that leave the process, in the order they are made. *)
Inductive event : Set :=
| EvDo (req : Request)
| EvReadAll
| EvClose.

(** Computations that call the network: the events so far go in,
    the result and the events go out. *)
Definition IO (A : Type) : Type := list event -> A * list event.

Definition ret {A} (x : A) : IO A := fun log => (x, log).

Definition bind {A B} (m : IO A) (k : A -> IO B) : IO B :=
  fun log => let '(x, log') := m log in k x log'.

Definition run {A} (m : IO A) : A * list event := m [].

Definition isToken (c : ascii) : bool :=
  is_alnum c || one_of "!#$%&'*+-.^_`|~" c.

Definition validMethod (method : string) : bool :=
  negb (is_empty method) && all_bytes isToken method.

Definition hasPort (s : string) : bool :=
  match rcut_byte ":" s with
  | Some (_, after) => negb (ContainsByte after "]")
  | None => false
  end.

Definition removeEmptyPort (host : string) : string :=
  if hasPort host && HasSuffix host ":"
  then take (String.length host - 1) host
  else host.

(** [http.NewRequest(method, url, nil)]. *)
Definition NewRequest (method url_ : string) : Request + error :=
  let method := if is_empty method then "GET" else method in
  if negb (validMethod method) then inr (ErrInvalidMethod method)
  else
    match url.Parse url_ with
    | inr err => inr (ErrURL err)
    | inl u =>
        let host := removeEmptyPort (url.Host u) in
        inl (mkRequest method (url.with_Host u host) host)
    end.

(** [http.DefaultClient.Do(req)]. *)
Definition Do (net : RoundTripper) (req : Request)
  : IO (Response + error) :=
  fun log =>
    (match net req with
     | inl resp => inl resp
     | inr msg => inr (ErrTransport msg)
     end, log ++ [EvDo req]).

(** [resp.Body.Close()]. *)
Definition Close (b : Body) : IO unit := fun log => (tt, log ++ [EvClose]).

End http.

Module io.

(** [io.ReadAll(r)]: the bytes read and the error, if any. *)
Definition ReadAll (b : http.Body) : http.IO (string * option error) :=
  fun log =>
    ((http.data b,
      match http.read_error b with
      | Some msg => Some (ErrRead msg)
      | None => None
      end), log ++ [http.EvReadAll]).

End io.

Notation "'let*' x ':=' m 'in' k" := (http.bind m (fun x => k))
  (at level 10, x name, m at level 100, k at level 200, only parsing).

(** ** Package [internal/search/searxng] *)

Module searxng.
Import json.

(** [Client] represents a SearXNG API client. *)
Record Client : Set := mkClient { baseURL : string }.

Definition NewClient (baseURL : string) : Client := mkClient baseURL.

Record SearchOptions : Set := mkSearchOptions
  { Categories : list string;
    Engines : list string;
    Language : string;
    PageNo : Z }.

Record SearchResult : Set := mkSearchResult
  { Title : string;
    URL : string;
    ImgSrc : string;
    ThumbnailSrc : string;
    Thumbnail : string;
    Content : string;
    Author : string;
    IframeSrc : string }.

(** [Results] is a slice of pointers: an element is [None] for [nil]. *)
Record SearchResponse : Type := mkSearchResponse
  { Results : slice (option SearchResult);
    Suggestions : slice string }.

Definition zero_SearchResult : SearchResult :=
  mkSearchResult "" "" "" "" "" "" "" "".

(** [var searchResp SearchResponse]. *)
Definition zero_SearchResponse : SearchResponse :=
  mkSearchResponse nil_slice nil_slice.

(** The fields of [SearchResult], under the names of their [json]
    tags, in the order of declaration. *)
Definition SearchResult_fields : list (string * decoder SearchResult) :=
  [ ("title", field Title
       (fun r x => mkSearchResult x (URL r) (ImgSrc r) (ThumbnailSrc r)
                     (Thumbnail r) (Content r) (Author r) (IframeSrc r))
       decode_string);
    ("url", field URL
       (fun r x => mkSearchResult (Title r) x (ImgSrc r) (ThumbnailSrc r)
                     (Thumbnail r) (Content r) (Author r) (IframeSrc r))
       decode_string);
    ("img_src", field ImgSrc
       (fun r x => mkSearchResult (Title r) (URL r) x (ThumbnailSrc r)
                     (Thumbnail r) (Content r) (Author r) (IframeSrc r))
       decode_string);
    ("thumbnail_src", field ThumbnailSrc
       (fun r x => mkSearchResult (Title r) (URL r) (ImgSrc r) x
                     (Thumbnail r) (Content r) (Author r) (IframeSrc r))
       decode_string);
    ("thumbnail", field Thumbnail
       (fun r x => mkSearchResult (Title r) (URL r) (ImgSrc r)
                     (ThumbnailSrc r) x (Content r) (Author r) (IframeSrc r))
       decode_string);
    ("content", field Content
       (fun r x => mkSearchResult (Title r) (URL r) (ImgSrc r)
                     (ThumbnailSrc r) (Thumbnail r) x (Author r)
                     (IframeSrc r))
       decode_string);
    ("author", field Author
       (fun r x => mkSearchResult (Title r) (URL r) (ImgSrc r)
                     (ThumbnailSrc r) (Thumbnail r) (Content r) x
                     (IframeSrc r))
       decode_string);
    ("iframe_src", field IframeSrc
       (fun r x => mkSearchResult (Title r) (URL r) (ImgSrc r)
                     (ThumbnailSrc r) (Thumbnail r) (Content r) (Author r) x)
       decode_string) ].

Definition decode_SearchResult : decoder SearchResult :=
  decode_struct SearchResult_fields "searxng.SearchResult".

Definition decode_Results : decoder (slice (option SearchResult)) :=
  decode_slice (decode_ptr decode_SearchResult zero_SearchResult) None
    "[]*searxng.SearchResult".

Definition decode_Suggestions : decoder (slice string) :=
  decode_slice decode_string EmptyString "[]string".

Definition SearchResponse_fields
  : list (string * decoder SearchResponse) :=
  [ ("results", field Results
       (fun r x => mkSearchResponse x (Suggestions r)) decode_Results);
    ("suggestions", field Suggestions
       (fun r x => mkSearchResponse (Results r) x) decode_Suggestions) ].

Definition decode_SearchResponse : decoder SearchResponse :=
  decode_struct SearchResponse_fields "searxng.SearchResponse".

(** The query parameters of a search (the [params] of [Search]). *)
Definition search_params (query : string) (opts : option SearchOptions)
  : url.Values :=
  let params : url.Values := ∅ in
  let params := url.Set_ params "format" "json" in
  let params := url.Set_ params "q" query in
  match opts with
  | None => params
  | Some opts =>
      let params :=
        if (0 <? length (Categories opts))%nat
        then url.Set_ params "categories"
               (strings.Join (Categories opts) ",")
        else params in
      let params :=
        if (0 <? length (Engines opts))%nat
        then url.Set_ params "engines" (strings.Join (Engines opts) ",")
        else params in
      let params :=
        if negb (String.eqb (Language opts) "")
        then url.Set_ params "language" (Language opts)
        else params in
      if 0 <? PageNo opts
      then url.Set_ params "pageno" (fmt.Sprintf_d (PageNo opts))
      else params
  end.

(** The URL of a search (the [searchURL] of [Search]). *)
Definition search_URL (base : url.URL) (query : string)
    (opts : option SearchOptions) : url.URL :=
  let searchURL := url.JoinPath base ["search"] in
  url.with_RawQuery searchURL (url.Encode (search_params query opts)).

(** [Search] performs a search query against the SearXNG instance.
    It returns Go's pair: the response pointer, [None] for [nil], and
    the error, [None] for [nil]. *)
Definition Search (net : http.RoundTripper) (c : Client) (query : string)
    (opts : option SearchOptions)
  : http.IO (option SearchResponse * option error) :=
  match url.Parse (baseURL c) with
  | inr err => http.ret (None, Some (ErrInvalidBaseURL err))
  | inl base =>
      let searchURL := search_URL base query opts in
      match http.NewRequest http.MethodGet (url.String_ searchURL) with
      | inr err => http.ret (None, Some err)
      | inl req =>
          let* resp := http.Do net req in
          match resp with
          | inr err => http.ret (None, Some err)
          | inl resp =>
              (* defer resp.Body.Close() *)
              let* result :=
                (let* read := io.ReadAll (http.Body_ resp) in
                 match read with
                 | (_, Some err) => http.ret (None, Some err)
                 | (body, None) =>
                     match Unmarshal decode_SearchResponse body
                             zero_SearchResponse with
                     | (_, Some err) => http.ret (None, Some (ErrJSON err))
                     | (searchResp, None) =>
                         http.ret (Some searchResp, None)
                     end
                 end) in
              let* closed := http.Close (http.Body_ resp) in
              http.ret result
          end
      end
  end.

End searxng.

(** ** The program [main] *)

Module main.

(** [main] resolves the base URL, builds a client and searches for
    [golang] without options; what it prints is the result. *)
Definition main (e : env.environ) (net : http.RoundTripper)
  : http.IO (option searxng.SearchResponse * option error) :=
  let searxngURL := env.GetVar e "SEARXNG_URL" "http://localhost:8080" in
  let client := searxng.NewClient searxngURL in
  searxng.Search net client "golang" None.

End main.

(** * Specification vocabulary

    The definitions below are not part of the program: they name what
    the statements about it talk about. *)

Module spec.
Import searxng.

(** The request that [Search] builds before it calls the network,
    or the error that stops it before. *)
Definition request (c : Client) (query : string)
    (opts : option SearchOptions) : http.Request + error :=
  match url.Parse (baseURL c) with
  | inr err => inr (ErrInvalidBaseURL err)
  | inl base =>
      http.NewRequest http.MethodGet
        (url.String_ (search_URL base query opts))
  end.

(** What [Search] returns once a response has arrived, as a function
    of the body of the response alone. *)
Definition body_outcome (b : http.Body)
  : option SearchResponse * option error :=
  match http.read_error b with
  | Some msg => (None, Some (ErrRead msg))
  | None =>
      match json.Unmarshal decode_SearchResponse (http.data b)
              zero_SearchResponse with
      | (_, Some err) => (None, Some (ErrJSON err))
      | (searchResp, None) => (Some searchResp, None)
      end
  end.

(** A network that answers like [net], except that the status of
    every response is replaced by the one [f] chooses. *)
Definition restatus (f : http.Request → http.Response → Z * string)
    (net : http.RoundTripper) : http.RoundTripper :=
  fun req =>
    match net req with
    | inl resp =>
        inl (http.mkResponse (fst (f req resp)) (snd (f req resp))
               (http.Body_ resp))
    | inr msg => inr msg
    end.

(** A network that answers every request with one response. *)
Definition always (resp : http.Response) : http.RoundTripper :=
  fun _ => inl resp.

Definition ok_body (data : string) : http.Body := http.mkBody data None.

(** JSON texts are written with ['] for the double quote. *)
Fixpoint dq (s : string) : string :=
  match s with
  | EmptyString => EmptyString
  | String c s' =>
      String (if strings.byte_eqb c "'" then json.DQUOTE else c) (dq s')
  end.

Definition bad_URL_error : url.Error :=
  url.mkError "parse" "://bad" url.MissingProtocolScheme.

Definition sample_response (status : Z) (body : string) : http.Response :=
  http.mkResponse status "" (ok_body body).

(** *** Response bodies *)

(** The key of a member names the field [field]: it is the name of
    the field up to case folding. *)
Definition names (field key : string) : bool :=
  String.eqb (json.foldName field) (json.foldName key).

(** What a decoder stores does not depend on the error saved so
    far. *)
Definition stores_alike {T} (dec : json.decoder T) : Prop :=
  ∀ dst v saved saved', fst (dec dst v saved) = fst (dec dst v saved').

Definition names_results (m : string * json.value) : bool :=
  names "results" (fst m).

Definition names_suggestions (m : string * json.value) : bool :=
  names "suggestions" (fst m).

(** An element of the [results] array, decoded on its own. *)
Definition result_of (v : json.value) : option SearchResult :=
  fst (json.decode_ptr decode_SearchResult zero_SearchResult None v None).

(** An element of the [suggestions] array, decoded on its own. *)
Definition suggestion_of (v : json.value) : string :=
  fst (json.decode_string EmptyString v None).

Definition sample_body : string :=
  dq "{'results':[{'title':'Go','url':'https://go.dev'}],'suggestions':['golang tutorial']}".

Definition sample_result : SearchResult :=
  mkSearchResult "Go" "https://go.dev" "" "" "" "" "" "".

(** *** Query strings *)

(** [strings.Contains(s, substr)]. *)
Fixpoint Contains (s substr : string) : bool :=
  String.prefix substr s
  || match s with
     | EmptyString => false
     | String _ s' => Contains s' substr
     end.

(** The pieces of [s] between the occurrences of the byte [c]
    ([strings.Split]). *)
Fixpoint split_byte (c : ascii) (s : string) : list string :=
  match s with
  | EmptyString => [EmptyString]
  | String a s' =>
      if strings.byte_eqb a c then EmptyString :: split_byte c s'
      else match split_byte c s' with
           | piece :: pieces => String a piece :: pieces
           | [] => [String a EmptyString]
           end
  end.

(** The [key=value] pairs that a query string is made of, in the
    order of the string, still escaped. *)
Definition query_pairs (q : string) : list (string * string) :=
  if strings.is_empty q then []
  else map (fun piece => fst (strings.Cut piece "=")) (split_byte "&" q).

Definition query_keys (q : string) : list string :=
  map fst (query_pairs q).

(** [s] has no occurrence of the byte [c]. *)
Definition free_of (c : ascii) (s : string) : Prop :=
  strings.all_bytes (fun a => negb (strings.byte_eqb a c)) s = true.

Definition optional (present : bool) (key value : string)
  : list (string * string) :=
  if present then [(key, value)] else [].

(** The parameters that the specification asks for, by ascending
    key. *)
Definition expected_params (query : string) (opts : option SearchOptions)
  : list (string * string) :=
  match opts with
  | None => [("format", "json"); ("q", query)]
  | Some o =>
      optional (negb (bool_decide (Categories o = []))) "categories"
        (strings.Join (Categories o) ",")
      ++ optional (negb (bool_decide (Engines o = []))) "engines"
           (strings.Join (Engines o) ",")
      ++ [("format", "json")]
      ++ optional (negb (bool_decide (Language o = EmptyString)))
           "language" (Language o)
      ++ optional (bool_decide (0 < PageNo o)) "pageno"
           (fmt.Sprintf_d (PageNo o))
      ++ [("q", query)]
  end.

(** The bytes of an encoded query string. *)
Definition query_byte (c : ascii) : bool :=
  strings.is_alnum c || strings.one_of "-_.~%+&=" c.

(** One parameter as [Encode] writes it. *)
Definition param_text (p : string * string) : string :=
  url.QueryEscape (fst p) +:+ "=" +:+ url.QueryEscape (snd p).

(** The loop body of [Encode], on the text of a parameter. *)
Definition write_text (buf text : string) : string :=
  (if (0 <? String.length buf)%nat then buf +:+ "&" else buf) +:+ text.

(** The parameters of a map of values, by ascending key. *)
Definition params_of (v : url.Values) : list (string * string) :=
  flat_map (fun k => map (pair k) (default [] (v !! k))) (url.sorted_keys v).

End spec.

(** ** JSON texts

    The text that a service writes for a value, to state what reading
    it gives. *)

Module jsontext.
Import json strings searxng.

(** The bytes that a JSON text may carry as they are in a string
    literal and that are ASCII: from the space to the tilde. *)
Definition printable (c : ascii) : bool :=
  (32 <=? byte_of c)%N && (byte_of c <=? 126)%N.

(** A string literal for [s]: the quote and the backslash are
    escaped. *)
Fixpoint quote_content (s : string) : string :=
  match s with
  | EmptyString => EmptyString
  | String c s' =>
      if byte_eqb c DQUOTE || byte_eqb c BACKSLASH
      then String BACKSLASH (String c (quote_content s'))
      else String c (quote_content s')
  end.

Definition quote (s : string) : string :=
  String DQUOTE (quote_content s +:+ String DQUOTE EmptyString).

(** The compact JSON text of a value. *)
Fixpoint render (v : value) : string :=
  match v with
  | Null => "null"
  | Bool true => "true"
  | Bool false => "false"
  | Number literal => literal
  | Str s => quote s
  | Array elems =>
      "[" +:+ (fix render_elems (vs : list value) : string :=
                 match vs with
                 | [] => EmptyString
                 | [v] => render v
                 | v :: vs' => render v +:+ "," +:+ render_elems vs'
                 end) elems +:+ "]"
  | Object members =>
      "{" +:+ (fix render_members (ms : list (string * value)) : string :=
                 match ms with
                 | [] => EmptyString
                 | [m] => quote (fst m) +:+ ":" +:+ render (snd m)
                 | m :: ms' =>
                     quote (fst m) +:+ ":" +:+ render (snd m) +:+ ","
                     +:+ render_members ms'
                 end) members +:+ "}"
  end.

Fixpoint render_elems (vs : list value) : string :=
  match vs with
  | [] => EmptyString
  | [v] => render v
  | v :: vs' => render v +:+ "," +:+ render_elems vs'
  end.

Fixpoint render_members (ms : list (string * value)) : string :=
  match ms with
  | [] => EmptyString
  | [m] => quote (fst m) +:+ ":" +:+ render (snd m)
  | m :: ms' =>
      quote (fst m) +:+ ":" +:+ render (snd m) +:+ "," +:+ render_members ms'
  end.

(** How deep the containers of a value nest. *)
Fixpoint depth (v : value) : nat :=
  match v with
  | Array elems => S (foldr (fun v d => Nat.max (depth v) d) O elems)
  | Object members =>
      S (foldr (fun m d => Nat.max (depth (snd m)) d) O members)
  | _ => O
  end.

(** The values whose text is [render v]: no number, and only
    printable ASCII in the strings and in the keys. *)
Fixpoint plain (v : value) : bool :=
  match v with
  | Null | Bool _ => true
  | Number _ => false
  | Str s => all_bytes printable s
  | Array elems => forallb plain elems
  | Object members =>
      forallb (fun m => all_bytes printable (fst m) && plain (snd m)) members
  end.

(** The states in which the scanner waits for a value, and for a
    string. *)
Definition value_start (s0 : step_state) : Prop :=
  s0 = stateBeginValue ∨ s0 = stateBeginValueOrEmpty.

Definition string_start (s0 : step_state) : Prop :=
  s0 = stateBeginString ∨ s0 = stateBeginStringOrEmpty ∨ value_start s0.

(** The text of a value takes the scanner from the start of a value
    to its end, with the value read. *)
Definition scans (v : value) : Prop :=
  plain v = true →
  ∀ stack rest s0,
    value_start s0 →
    (length stack + depth v ≤ maxNestingDepth)%nat →
    scan (mkScanner s0 stack) (render v +:+ rest)
    = scan (endValue stack v) rest.

(** A result as a JSON value: [null] for a nil pointer, else an
    object with the eight fields under their names. *)
Definition result_value (r : option SearchResult) : value :=
  match r with
  | None => Null
  | Some r =>
      Object [("title", Str (Title r)); ("url", Str (URL r));
              ("img_src", Str (ImgSrc r));
              ("thumbnail_src", Str (ThumbnailSrc r));
              ("thumbnail", Str (Thumbnail r));
              ("content", Str (Content r)); ("author", Str (Author r));
              ("iframe_src", Str (IframeSrc r))]
  end.

(** The response of the service as a JSON value, and its text. *)
Definition response_value (results : list (option SearchResult))
    (suggestions : list string) : value :=
  Object [("results", Array (map result_value results));
          ("suggestions", Array (map Str suggestions))].

Definition response_text (results : list (option SearchResult))
    (suggestions : list string) : string :=
  render (response_value results suggestions).

Definition plain_result (r : option SearchResult) : bool :=
  match r with
  | None => true
  | Some r =>
      forallb (all_bytes printable)
        [Title r; URL r; ImgSrc r; ThumbnailSrc r; Thumbnail r; Content r;
         Author r; IframeSrc r]
  end.

End jsontext.

(** ** The shape of a response

    Which JSON values can be stored into a [SearchResponse]. *)

Module shape.
Import json strings searxng.

(** *** The expected shape *)

(** A value that can be stored into a [string]. *)
Definition fits_string (v : value) : bool :=
  match v with Str _ | Null => true | _ => false end.

(** The key names one of the fields. *)
Definition names_any {F} (fields : list (string * F)) (key : string) : bool :=
  existsb (fun f => spec.names (fst f) key) fields.

(** A value that can be stored into a struct whose fields are all
    strings: [null], or an object in which every member that names a
    field holds a string or [null]. *)
Definition fits_strings {F} (fields : list (string * F)) (v : value) : bool :=
  match v with
  | Null => true
  | Object members =>
      forallb (fun m => negb (names_any fields (fst m)) || fits_string (snd m))
        members
  | _ => false
  end.

(** A value that can be stored into a slice: [null], or an array of
    values that can be stored into an element. *)
Definition fits_slice (fits : value → bool) (v : value) : bool :=
  match v with
  | Null => true
  | Array elems => forallb fits elems
  | _ => false
  end.

Definition fits_member (m : string * value) : bool :=
  (negb (spec.names_results m)
   || fits_slice (fits_strings SearchResult_fields) (snd m))
  && (negb (spec.names_suggestions m) || fits_slice fits_string (snd m)).

(** A value that can be stored into a [SearchResponse]. *)
Definition fits_response (v : value) : bool :=
  match v with
  | Null => true
  | Object members => forallb fits_member members
  | _ => false
  end.

(** A decoder reports an error exactly when an error was saved
    before or the value does not fit. *)
Definition decides {T} (dec : decoder T) (fits : value → bool) : Prop :=
  ∀ dst v saved,
    snd (dec dst v saved) = None ↔ saved = None ∧ fits v = true.

End shape.

(** ** Further vocabulary

    What the further properties of the program talk about. *)

Module behaviour.
Import json strings searxng.

(** [url.QueryUnescape(s)]: what a service reads out of an escaped
    key or value. *)
Definition QueryUnescape (s : string) : string + url.ParseError :=
  url.unescape s url.encodeQueryComponent.

(** A pair of a query string as the service reads it, and a parameter
    as it was meant. *)
Definition read_pair (p : string * string)
  : (string + url.ParseError) * (string + url.ParseError) :=
  (QueryUnescape (fst p), QueryUnescape (snd p)).

Definition meant (p : string * string)
  : (string + url.ParseError) * (string + url.ParseError) :=
  (inl (fst p), inl (snd p)).

(** The URL [u] with the path [p], in its default encoding. *)
Definition with_Path (u : url.URL) (p : string) : url.URL :=
  url.mkURL (url.Scheme u) (url.Opaque u) (url.User u) (url.Host u) p
    EmptyString (url.OmitHost u) (url.ForceQuery u) (url.RawQuery u)
    (url.Fragment u) (url.RawFragment u).

Definition is_Do (e : http.event) : bool :=
  match e with http.EvDo _ => true | _ => false end.

Definition is_ReadAll (e : http.event) : bool :=
  match e with http.EvReadAll => true | _ => false end.

Definition is_Close (e : http.event) : bool :=
  match e with http.EvClose => true | _ => false end.

(** What a member of an object leaves in a string field named
    [name] that held [old]. *)
Definition store (name : string) (old : string) (m : string * value)
  : string :=
  if spec.names name (fst m)
  then match snd m with Str s => s | _ => old end
  else old.

(** What the members of an object leave in it, one after the
    other. *)
Definition field_value (name : string) (members : list (string * value))
    (old : string) : string :=
  fold_left (store name) members old.


(** Two members with the same value under keys that are the same up
    to case folding. *)
Definition same_member (m m' : string * value) : Prop :=
  foldName (fst m) = foldName (fst m') ∧ snd m = snd m'.

Definition whitespace (s : string) : bool := all_bytes isSpace s.

(** The bytes that a JSON value can start with, blanks before it
    included. *)
Definition starts_value (c : ascii) : bool :=
  isSpace c || one_of "{[-tfn" c || byte_eqb c DQUOTE || is_digit c.

(** A network on which no request gets an answer. *)
Definition refuses (msg : string) : http.RoundTripper := fun _ => inr msg.

(** No literal that the scanner is in the middle of goes on with a
    blank: so it is in every state that scanning reaches. *)
Definition no_blank_literal (s : scanner) : Prop :=
  match step s with
  | stateLiteral rest _ => all_bytes (fun c => negb (isSpace c)) rest = true
  | _ => True
  end.

(** A value that leaves no element behind in the backing array of a
    slice: [null], or an array that holds [null] only. *)
Definition leaves_nothing (v : value) : bool :=
  match v with
  | Null => true
  | Array vs => forallb (fun v => match v with Null => true | _ => false end) vs
  | _ => false
  end.

End behaviour.


(** * Properties *)

(** ** The configuration resolver *)

Section GetVar.
Context (e : env.environ) (key fallback : string).

Lemma GetVar_lookup :
  env.GetVar e key fallback = default fallback (e !! key).
Proof.
  unfold env.GetVar, env.LookupEnv. by destruct (e !! key).
Qed.

(** C8: [GetVar] returns the value of the variable when the
    environment has it, the empty string included, and the fallback
    when it has not; it is a total function, so it cannot fail. *)
Theorem GetVar_set_or_fallback :
  env.GetVar e key fallback
  = match e !! key with Some value => value | None => fallback end
  ∧ (∀ value, env.GetVar (<[key := value]> e) key fallback = value)
  ∧ env.GetVar (<[key := EmptyString]> e) key fallback = EmptyString
  ∧ env.GetVar (delete key e) key fallback = fallback.
Proof.
  unfold env.GetVar, env.LookupEnv. split_and!.
  - by destruct (e !! key).
  - intros value. by rewrite lookup_insert_eq.
  - by rewrite lookup_insert_eq.
  - by rewrite lookup_delete_eq.
Qed.

End GetVar.

(** ** The query parameters *)

Section search_params.
Import searxng.
Context (query : string).

Lemma Sprintf_d_decimal (n : Z) :
  option_map Z.of_int (NilZero.int_of_string (fmt.Sprintf_d n)) = Some n.
Proof.
  unfold fmt.Sprintf_d. rewrite NilZero.isi.
  - simpl. by rewrite DecimalZ.of_to.
  - destruct n; simpl; try discriminate.
    intros [= H]. by destruct (DecimalPos.Unsigned.to_uint_nonnil p).
  - destruct n; simpl; try discriminate.
    intros [= H]. by destruct (DecimalPos.Unsigned.to_uint_nonnil p).
Qed.

Lemma search_params_nil :
  search_params query None = <["q" := [query]]> (<["format" := ["json"]]> ∅).
Proof. reflexivity. Qed.

Ltac params_cases o :=
  unfold search_params, url.Set_;
  destruct (Categories o) as [|? ?] eqn:?;
  destruct (Engines o) as [|? ?] eqn:?;
  destruct (Language o) as [|? ?] eqn:?;
  destruct (Z.ltb_spec 0 (PageNo o));
  cbn [length Nat.ltb Nat.leb String.eqb negb].

Ltac key_cases key Hv :=
  repeat match type of Hv with
    | <[?k := _]> _ !! key = _ =>
        destruct (decide (k = key)) as [<-|?];
        [set_solver | rewrite lookup_insert_ne in Hv by done]
    end;
  rewrite lookup_empty in Hv.

(** C1: the parameter set always has [format=json] and [q=<query>];
    with options it has [categories] and [engines] (the lists joined
    with commas, in their order) exactly when the list is not empty,
    [language] exactly when the string is not empty and [pageno], in
    decimal, exactly when the page number is above zero; it has no
    other key, and a parameter that is left out has no entry at all. *)
Theorem search_params_spec (opts : option SearchOptions) :
  let params := search_params query opts in
  params !! "format" = Some ["json"]
  ∧ params !! "q" = Some [query]
  ∧ (∀ key, is_Some (params !! key) →
       key ∈ ["categories"; "engines"; "format"; "language"; "pageno"; "q"])
  ∧ match opts with
    | None =>
        params !! "categories" = None ∧ params !! "engines" = None
        ∧ params !! "language" = None ∧ params !! "pageno" = None
    | Some o =>
        params !! "categories"
        = (if decide (Categories o = []) then None
           else Some [strings.Join (Categories o) ","])
        ∧ params !! "engines"
          = (if decide (Engines o = []) then None
             else Some [strings.Join (Engines o) ","])
        ∧ params !! "language"
          = (if decide (Language o = EmptyString) then None
             else Some [Language o])
        ∧ params !! "pageno"
          = (if decide (0 < PageNo o) then Some [fmt.Sprintf_d (PageNo o)]
             else None)
        ∧ (PageNo o ≤ 0 → params !! "pageno" = None)
        ∧ (PageNo o = 3 → params !! "pageno" = Some ["3"])
    end
  ∧ strings.Join ["a"; "b"; "c"] "," = "a,b,c"
  ∧ ∀ n, option_map Z.of_int (NilZero.int_of_string (fmt.Sprintf_d n))
         = Some n.
Proof.
  cbn zeta. destruct opts as [o|].
  - split_and!.
    + params_cases o; by simplify_map_eq.
    + params_cases o; by simplify_map_eq.
    + intros key. params_cases o; intros [v Hv]; by key_cases key Hv.
    + params_cases o; by simplify_map_eq.
    + params_cases o; by simplify_map_eq.
    + params_cases o; by simplify_map_eq.
    + params_cases o; case_decide; try lia; by simplify_map_eq.
    + intros Hle. params_cases o; try lia; by simplify_map_eq.
    + intros H3. params_cases o; try lia; rewrite H3; by simplify_map_eq.
    + reflexivity.
    + apply Sprintf_d_decimal.
  - rewrite search_params_nil. split_and!; try by simplify_map_eq.
    + intros key [v Hv]. by key_cases key Hv.
    + apply Sprintf_d_decimal.
Qed.

End search_params.

Lemma search_params_spec_witness :
  searxng.search_params "golang"
    (Some (searxng.mkSearchOptions ["a"; "b"] [] "" 3)) !! "pageno"
  = Some ["3"]
  ∧ searxng.search_params "golang"
      (Some (searxng.mkSearchOptions ["a"; "b"] [] "" 0)) !! "pageno"
    = None
  ∧ "q" ∈ ["categories"; "engines"; "format"; "language"; "pageno"; "q"].
Proof.
  assert (H3 := search_params_spec "golang"
                  (Some (searxng.mkSearchOptions ["a"; "b"] [] "" 3))).
  assert (H0 := search_params_spec "golang"
                  (Some (searxng.mkSearchOptions ["a"; "b"] [] "" 0))).
  cbn zeta beta iota in H3, H0.
  destruct H3 as (_ & Hq & Hkeys & (_ & _ & _ & _ & _ & Hthree) & _).
  destruct H0 as (_ & _ & _ & (_ & _ & _ & _ & Hzero & _) & _).
  split_and!.
  - apply Hthree. reflexivity.
  - apply Hzero. cbn. lia.
  - apply Hkeys. rewrite Hq. by eexists.
Defined.

(** ** The course of [Search] *)

Section Search.
Import searxng.
Context (net : http.RoundTripper) (c : Client) (query : string)
  (opts : option SearchOptions).

(** [Search] stops before the network when no request can be built;
    otherwise it sends exactly one request, and reads and closes the
    body when a response arrives. *)
Lemma Search_run :
  http.run (Search net c query opts)
  = match spec.request c query opts with
    | inr err => ((None, Some err), [])
    | inl req =>
        match net req with
        | inr msg => ((None, Some (ErrTransport msg)), [http.EvDo req])
        | inl resp =>
            (spec.body_outcome (http.Body_ resp),
             [http.EvDo req; http.EvReadAll; http.EvClose])
        end
    end.
Proof.
  unfold Search, spec.request, http.run.
  destruct (url.Parse (baseURL c)) as [base|err]; [|reflexivity].
  destruct (http.NewRequest _ _) as [req|err]; [|reflexivity].
  unfold http.bind, http.Do, http.ret, http.Close, io.ReadAll.
  destruct (net req) as [resp|msg]; [|reflexivity].
  unfold spec.body_outcome. cbn.
  destruct (http.read_error (http.Body_ resp)); [reflexivity|].
  by destruct (json.Unmarshal _ _ _) as [r [err|]].
Qed.

Lemma body_outcome_nil_or_ok (b : http.Body) :
  (∃ err, spec.body_outcome b = (None, Some err)
          ∧ ((∃ msg, err = ErrRead msg) ∨ (∃ e, err = ErrJSON e)))
  ∨ (∃ r, spec.body_outcome b = (Some r, None)).
Proof.
  unfold spec.body_outcome. destruct (http.read_error b) as [msg|].
  - left. eexists. split; [reflexivity|]. left. by eexists.
  - destruct (json.Unmarshal _ _ _) as [r [e|]].
    + left. eexists. split; [reflexivity|]. right. by eexists.
    + right. by eexists.
Qed.

Lemma Search_nil_or_ok :
  (∃ err, fst (http.run (Search net c query opts)) = (None, Some err))
  ∨ (∃ r, fst (http.run (Search net c query opts)) = (Some r, None)).
Proof.
  rewrite Search_run. destruct (spec.request c query opts) as [req|err].
  - destruct (net req) as [resp|msg]; cbn.
    + destruct (body_outcome_nil_or_ok (http.Body_ resp))
        as [(err & -> & _)|(r & ->)]; eauto.
    + eauto.
  - eauto.
Qed.

End Search.

(** ** Errors before and after the network *)

Section Search_errors.
Import searxng.

Lemma Parse_bad : url.Parse "://bad" = inr spec.bad_URL_error.
Proof. reflexivity. Qed.

Lemma Search_bad_base_URL net query opts :
  http.run (Search net (NewClient "://bad") query opts)
  = ((None, Some (ErrInvalidBaseURL spec.bad_URL_error)), []).
Proof. reflexivity. Qed.

Lemma parse_not_json : json.parse "not json" = None.
Proof. reflexivity. Qed.

End Search_errors.

(** C3: when the base URL of the client does not parse, [Search]
    returns at once the error that wraps the parse error, with no
    response; it makes no call to the network, whatever the query and
    the options, and no request is built. *)
Theorem Search_unparseable_base_URL (net : http.RoundTripper)
    (c : searxng.Client) (query : string)
    (opts : option searxng.SearchOptions) (err : url.Error) :
  url.Parse (searxng.baseURL c) = inr err →
  http.run (searxng.Search net c query opts)
  = ((None, Some (ErrInvalidBaseURL err)), [])
  ∧ spec.request c query opts = inr (ErrInvalidBaseURL err).
Proof.
  intros Hparse. rewrite Search_run. unfold spec.request.
  by rewrite Hparse.
Qed.

Lemma Search_unparseable_base_URL_witness :
  url.Parse "://bad" = inr spec.bad_URL_error
  ∧ http.run (searxng.Search (spec.always (spec.sample_response 200 "{}"))
                (searxng.NewClient "://bad") "golang" None)
    = ((None, Some (ErrInvalidBaseURL spec.bad_URL_error)), []).
Proof.
  split; [reflexivity|].
  apply (Search_unparseable_base_URL
           (spec.always (spec.sample_response 200 "{}"))
           (searxng.NewClient "://bad") "golang" None spec.bad_URL_error).
  reflexivity.
Defined.

(** C4: whenever [Search] returns an error, the response pointer it
    returns with it is nil, wherever the error comes from; a body that
    is not well-formed JSON, such as [not json], gives the decoding
    error and a nil response. *)
Theorem Search_error_nil_response (net : http.RoundTripper)
    (c : searxng.Client) (query : string)
    (opts : option searxng.SearchOptions) :
  let result := fst (http.run (searxng.Search net c query opts)) in
  (snd result ≠ None → fst result = None)
  ∧ (∀ req resp,
       spec.request c query opts = inl req →
       net req = inl resp →
       http.read_error (http.Body_ resp) = None →
       json.parse (http.data (http.Body_ resp)) = None →
       result = (None, Some (ErrJSON json.SyntaxError)))
  ∧ json.parse "not json" = None.
Proof.
  cbn zeta. split_and!.
  - destruct (Search_nil_or_ok net c query opts) as [[err ->]|[r ->]];
      [done|]. by intros [].
  - intros req resp Hreq Hnet Hread Hparse.
    rewrite Search_run, Hreq, Hnet. cbn.
    unfold spec.body_outcome, json.Unmarshal. by rewrite Hread, Hparse.
  - reflexivity.
Qed.

Lemma Search_error_nil_response_witness :
  let result :=
    fst (http.run
           (searxng.Search (spec.always (spec.sample_response 200 "not json"))
              (searxng.NewClient "http://localhost:8080") "golang" None)) in
  fst result = None ∧ result = (None, Some (ErrJSON json.SyntaxError)).
Proof.
  pose proof (Search_error_nil_response
                (spec.always (spec.sample_response 200 "not json"))
                (searxng.NewClient "http://localhost:8080") "golang" None)
    as (Hnil & Hdecode & _).
  split.
  - apply Hnil. vm_compute. discriminate.
  - eapply Hdecode; reflexivity.
Defined.

(** C2: the status of the response plays no part.  Replacing the
    status of every response by any other changes neither what
    [Search] returns nor what it does; once a response has arrived the
    result is a function of its body alone, and the only errors are
    the failure to read the body and the failure to decode it. *)
Theorem Search_status_not_inspected (net : http.RoundTripper)
    (c : searxng.Client) (query : string)
    (opts : option searxng.SearchOptions) :
  (∀ f, http.run (searxng.Search (spec.restatus f net) c query opts)
        = http.run (searxng.Search net c query opts))
  ∧ (∀ req resp,
       spec.request c query opts = inl req →
       net req = inl resp →
       http.run (searxng.Search net c query opts)
       = (spec.body_outcome (http.Body_ resp),
          [http.EvDo req; http.EvReadAll; http.EvClose]))
  ∧ (∀ body,
       (∃ r, spec.body_outcome body = (Some r, None))
       ∨ (∃ msg, http.read_error body = Some msg
                 ∧ spec.body_outcome body = (None, Some (ErrRead msg)))
       ∨ (∃ e, http.read_error body = None
               ∧ spec.body_outcome body = (None, Some (ErrJSON e)))).
Proof.
  split_and!.
  - intros f. rewrite !Search_run.
    destruct (spec.request c query opts) as [req|err]; [|done].
    unfold spec.restatus. by destruct (net req).
  - intros req resp Hreq Hnet. by rewrite Search_run, Hreq, Hnet.
  - intros body. unfold spec.body_outcome.
    destruct (http.read_error body) as [msg|]; [right; left; eauto|].
    destruct (json.Unmarshal _ _ _) as [r [e|]]; [right; right|left]; eauto.
Qed.

Lemma Search_status_not_inspected_witness :
  http.run (searxng.Search (spec.always (spec.sample_response 500 "{}"))
              (searxng.NewClient "http://localhost:8080") "golang" None)
  = (spec.body_outcome (spec.ok_body "{}"),
     [http.EvDo
        (http.mkRequest "GET"
           (url.mkURL "http" "" None "localhost:8080" "/search" "" false
              false "format=json&q=golang" "" "")
           "localhost:8080");
      http.EvReadAll; http.EvClose]).
Proof.
  pose proof (Search_status_not_inspected
                (spec.always (spec.sample_response 500 "{}"))
                (searxng.NewClient "http://localhost:8080") "golang" None)
    as (_ & Hbody & _).
  apply (Hbody _ (spec.sample_response 500 "{}")); reflexivity.
Defined.

(** ** Query strings *)

Section strings_facts.
Import strings.

Lemma append_nil_l (s : string) : EmptyString +:+ s = s.
Proof. reflexivity. Qed.

Lemma append_cons a (s t : string) : String a s +:+ t = String a (s +:+ t).
Proof. reflexivity. Qed.

Lemma append_nil_r (s : string) : s +:+ EmptyString = s.
Proof. induction s; rewrite ?append_cons, ?append_nil_l; congruence. Qed.

Lemma append_assoc (a b c : string) : (a +:+ b) +:+ c = a +:+ b +:+ c.
Proof. induction a; rewrite ?append_cons, ?append_nil_l; congruence. Qed.

Lemma length_append (a b : string) :
  String.length (a +:+ b) = (String.length a + String.length b)%nat.
Proof.
  induction a; rewrite ?append_cons, ?append_nil_l; cbn; congruence.
Qed.

Lemma all_bytes_append p (a b : string) :
  all_bytes p (a +:+ b) = all_bytes p a && all_bytes p b.
Proof.
  induction a; rewrite ?append_cons, ?append_nil_l; cbn; [done|].
  rewrite IHa. by rewrite andb_assoc.
Qed.

Lemma byte_eqb_refl (a : ascii) : byte_eqb a a = true.
Proof. apply Ascii.eqb_refl. Qed.

Lemma free_of_append c a b :
  spec.free_of c (a +:+ b) ↔ spec.free_of c a ∧ spec.free_of c b.
Proof.
  unfold spec.free_of. rewrite all_bytes_append. apply andb_true_iff.
Qed.

Lemma free_of_cons c a s :
  spec.free_of c (String a s) ↔ byte_eqb a c = false ∧ spec.free_of c s.
Proof.
  unfold spec.free_of. cbn. rewrite andb_true_iff, negb_true_iff. done.
Qed.

Lemma cut_byte_append c (k v : string) :
  spec.free_of c k → cut_byte c (k +:+ String c v) = Some (k, v).
Proof.
  induction k as [|a k IH]; rewrite ?append_cons, ?append_nil_l; cbn.
  - intros _. by rewrite byte_eqb_refl.
  - intros [Ha Hk]%free_of_cons. by rewrite Ha, (IH Hk).
Qed.

Lemma split_byte_free c (p : string) :
  spec.free_of c p → spec.split_byte c p = [p].
Proof.
  induction p as [|a p IH]; cbn; [done|].
  intros [Ha Hp]%free_of_cons. by rewrite Ha, (IH Hp).
Qed.

Lemma split_byte_append c (p rest : string) :
  spec.free_of c p →
  spec.split_byte c (p +:+ String c rest) = p :: spec.split_byte c rest.
Proof.
  induction p as [|a p IH]; rewrite ?append_cons, ?append_nil_l; cbn.
  - intros _. by rewrite byte_eqb_refl.
  - intros [Ha Hp]%free_of_cons. by rewrite Ha, (IH Hp).
Qed.

Lemma split_byte_Join c (pieces : list string) :
  pieces ≠ [] → Forall (spec.free_of c) pieces →
  spec.split_byte c (Join pieces (String c EmptyString)) = pieces.
Proof.
  induction pieces as [|p pieces IH]; [done|]. intros _ Hfree.
  apply Forall_cons in Hfree as [Hp Hrest].
  destruct pieces as [|p' pieces].
  - cbn. by apply split_byte_free.
  - cbn [Join]. rewrite append_cons, append_nil_l.
    rewrite split_byte_append by done. f_equal. by apply IH.
Qed.

Lemma Join_nonempty sep (pieces : list string) :
  pieces ≠ [] → Forall (fun p => p ≠ EmptyString) pieces →
  Join pieces sep ≠ EmptyString.
Proof.
  destruct pieces as [|p pieces]; [done|]. intros _ Hne.
  apply Forall_cons in Hne as [Hp _].
  destruct p as [|a p]; [done|]. by destruct pieces.
Qed.

End strings_facts.

Section Encode.
Import strings.

Lemma write_param_text k buf value :
  url.write_param (url.QueryEscape k) buf value
  = spec.write_text buf (spec.param_text (k, value)).
Proof. reflexivity. Qed.

Lemma fold_write_text (texts : list string) (buf : string) :
  Forall (fun t => t ≠ EmptyString) texts →
  fold_left spec.write_text texts buf
  = match texts with
    | [] => buf
    | _ => (if (0 <? String.length buf)%nat then buf +:+ "&" else buf)
           +:+ Join texts "&"
    end.
Proof.
  revert buf. induction texts as [|t texts IH]; [done|]. intros buf Hne.
  apply Forall_cons in Hne as [Ht Hne]. cbn [fold_left].
  rewrite IH by done. destruct texts as [|t' texts]; [done|].
  assert ((0 <? String.length (spec.write_text buf t))%nat = true) as ->.
  { apply Nat.ltb_lt. unfold spec.write_text. rewrite length_append.
    destruct t; [done|]. cbn. lia. }
  unfold spec.write_text. cbn [Join]. by rewrite !append_assoc.
Qed.

Lemma Encode_Join (v : url.Values) :
  url.Encode v = Join (map spec.param_text (spec.params_of v)) "&".
Proof.
  unfold url.Encode, spec.params_of.
  assert (Hfold : ∀ keys buf,
    fold_left (fun buf k =>
        fold_left (url.write_param (url.QueryEscape k))
          (default [] (v !! k)) buf) keys buf
    = fold_left spec.write_text
        (map spec.param_text
           (flat_map (fun k => map (pair k) (default [] (v !! k))) keys))
        buf).
  { induction keys as [|k keys IH]; [done|]. intros buf.
    cbn [fold_left flat_map].
    rewrite IH, map_app, fold_left_app. f_equal.
    generalize (default [] (v !! k)). intros vals. revert buf.
    induction vals as [|x vals IHv]; [done|]. intros buf. cbn.
    by rewrite IHv. }
  rewrite Hfold, fold_write_text.
  - by destruct (map _ _).
  - apply Forall_map, Forall_forall. intros [k x] _. unfold spec.param_text.
    cbn [fst snd].
    destruct (url.QueryEscape k); rewrite ?append_cons, ?append_nil_l; done.
Qed.

End Encode.

Section escape_facts.
Import strings.

Lemma QueryEscape_byte_free (c a : ascii) :
  byte_eqb c "&" || byte_eqb c "=" = true →
  spec.free_of c (url.QueryEscape (String a EmptyString)).
Proof.
  intros Hc. apply orb_true_iff in Hc as [->%Ascii.eqb_eq| ->%Ascii.eqb_eq];
    destruct a as [[] [] [] [] [] [] [] []]; reflexivity.
Qed.

Lemma escape_cons a s mode :
  url.escape (String a s) mode
  = url.escape (String a EmptyString) mode +:+ url.escape s mode.
Proof.
  cbn [url.escape].
  destruct (byte_eqb a " " && url.encoding_eqb mode url.encodeQueryComponent);
    [done|].
  by destruct (url.shouldEscape a mode).
Qed.

Lemma QueryEscape_free (c : ascii) (s : string) :
  byte_eqb c "&" || byte_eqb c "=" = true →
  spec.free_of c (url.QueryEscape s).
Proof.
  intros Hc. unfold url.QueryEscape. induction s as [|a s IH]; [done|].
  rewrite escape_cons. apply free_of_append. split; [|done].
  by apply QueryEscape_byte_free.
Qed.

Lemma QueryEscape_unreserved (s : string) :
  all_bytes (fun a => is_alnum a || one_of "-_.~" a) s = true →
  url.QueryEscape s = s.
Proof.
  unfold url.QueryEscape. induction s as [|a s IH]; [done|]. cbn.
  intros [Ha Hs]%andb_true_iff. rewrite (IH Hs).
  revert Ha. destruct a as [[] [] [] [] [] [] [] []]; try discriminate; done.
Qed.

Lemma is_empty_false (s : string) : s ≠ EmptyString → is_empty s = false.
Proof. by destruct s. Qed.

Lemma Cut_param_text (p : string * string) :
  fst (Cut (spec.param_text p) "=")
  = (url.QueryEscape (fst p), url.QueryEscape (snd p)).
Proof.
  unfold Cut, spec.param_text. rewrite append_cons, append_nil_l.
  rewrite cut_byte_append; [done|]. by apply QueryEscape_free.
Qed.

Lemma param_text_free_amp (p : string * string) :
  spec.free_of "&" (spec.param_text p).
Proof.
  unfold spec.param_text. rewrite !free_of_append.
  split_and!; [by apply QueryEscape_free|done|by apply QueryEscape_free].
Qed.

Lemma param_text_nonempty (p : string * string) :
  spec.param_text p ≠ EmptyString.
Proof.
  unfold spec.param_text.
  destruct (url.QueryEscape (fst p)); rewrite ?append_cons, ?append_nil_l;
    done.
Qed.

(** Reading back the query string that [Encode] writes gives the
    parameters of the map, escaped, by ascending key. *)
Lemma query_pairs_Encode (v : url.Values) :
  spec.query_pairs (url.Encode v)
  = map (fun p => (url.QueryEscape (fst p), url.QueryEscape (snd p)))
      (spec.params_of v).
Proof.
  rewrite Encode_Join. unfold spec.query_pairs.
  generalize (spec.params_of v). intros params.
  destruct (decide (params = [])) as [->|Hne]; [done|].
  rewrite is_empty_false.
  - rewrite split_byte_Join.
    + rewrite map_map. apply map_ext. intros p. apply Cut_param_text.
    + by destruct params.
    + apply Forall_map, Forall_forall. intros p _.
      apply param_text_free_amp.
  - apply Join_nonempty; [by destruct params|].
    apply Forall_map, Forall_forall. intros p _. apply param_text_nonempty.
Qed.

End escape_facts.

Section search_query.
Import searxng.
Context (query : string).

Lemma params_of_search_params (opts : option SearchOptions) :
  spec.params_of (search_params query opts)
  = spec.expected_params query opts.
Proof.
  destruct opts as [o|]; [|by vm_compute].
  unfold search_params, url.Set_, spec.expected_params.
  destruct (Categories o) as [|? ?];
  destruct (Engines o) as [|? ?];
  destruct (Language o) as [|? ?];
  destruct (Z.ltb_spec 0 (PageNo o));
  rewrite ?(bool_decide_true (0 < PageNo o)) by done;
  rewrite ?(bool_decide_false (0 < PageNo o)) by lia;
  cbn [length Nat.ltb Nat.leb String.eqb negb];
  generalize (fmt.Sprintf_d (PageNo o)); intros;
  vm_compute; reflexivity.
Qed.

End search_query.

(** ** The request URL *)

Section search_URL.
Import searxng.
Context (base : url.URL) (query : string).

Lemma RawQuery_search_URL (opts : option SearchOptions) :
  url.RawQuery (search_URL base query opts)
  = url.Encode (search_params query opts).
Proof. reflexivity. Qed.

Ltac expected_cases opts :=
  unfold spec.expected_params, spec.optional;
  destruct opts as [o|];
  [generalize (strings.Join (Categories o) ",")
     (strings.Join (Engines o) ",") (fmt.Sprintf_d (PageNo o));
   destruct (bool_decide (Categories o = []));
   destruct (bool_decide (Engines o = []));
   destruct (bool_decide (Language o = EmptyString));
   destruct (bool_decide (0 < PageNo o));
   generalize (Language o); intros ? ? ? ?|];
  cbn [negb app map fst snd].

Lemma expected_params_keys (opts : option SearchOptions) :
  map fst (spec.expected_params query opts)
  = filter
      (fun k => bool_decide (k ∈ map fst (spec.expected_params query opts)))
      ["categories"; "engines"; "format"; "language"; "pageno"; "q"].
Proof. expected_cases opts; vm_compute; reflexivity. Qed.

Lemma expected_params_sorted (opts : option SearchOptions) :
  StronglySorted strings.lt (map fst (spec.expected_params query opts)).
Proof.
  expected_cases opts;
    repeat (apply SSorted_cons;
            [|repeat (constructor; [exact eq_refl|]); constructor]);
    apply SSorted_nil.
Qed.

Lemma expected_params_format_q (opts : option SearchOptions) :
  ∃ before between,
    spec.expected_params query opts
    = before ++ ("format", "json") :: between ++ [("q", query)].
Proof.
  unfold spec.expected_params. destruct opts as [o|].
  - exists
      (spec.optional (negb (bool_decide (Categories o = []))) "categories"
         (strings.Join (Categories o) ",")
       ++ spec.optional (negb (bool_decide (Engines o = []))) "engines"
            (strings.Join (Engines o) ",")),
      (spec.optional (negb (bool_decide (Language o = EmptyString)))
         "language" (Language o)
       ++ spec.optional (bool_decide (0 < PageNo o)) "pageno"
            (fmt.Sprintf_d (PageNo o))).
    rewrite <- !app_assoc. reflexivity.
  - exists [], []. reflexivity.
Qed.

Lemma query_pairs_search_URL (opts : option SearchOptions) :
  spec.query_pairs (url.RawQuery (search_URL base query opts))
  = map (fun p => (fst p, url.QueryEscape (snd p)))
      (spec.expected_params query opts).
Proof.
  rewrite RawQuery_search_URL, query_pairs_Encode, params_of_search_params.
  expected_cases opts; reflexivity.
Qed.

Lemma query_keys_search_URL (opts : option SearchOptions) :
  spec.query_keys (url.RawQuery (search_URL base query opts))
  = map fst (spec.expected_params query opts).
Proof.
  unfold spec.query_keys. rewrite query_pairs_search_URL, map_map.
  by apply map_ext.
Qed.

End search_URL.

Section prefix_facts.
Import strings.

Lemma prefix_append (a b : string) : String.prefix a (a +:+ b) = true.
Proof.
  induction a as [|c a IH]; rewrite ?append_cons, ?append_nil_l.
  - by destruct b.
  - cbn. destruct (ascii_dec c c); [done|congruence].
Qed.

Lemma HasPrefix_Join (first : string) (rest : list string) (sep : string) :
  HasPrefix (Join (first :: rest) sep) first = true.
Proof.
  unfold HasPrefix. cbn [Join]. destruct rest.
  - rewrite <- (append_nil_r first) at 2. apply prefix_append.
  - apply prefix_append.
Qed.

Lemma Contains_prefix (s sub : string) :
  HasPrefix s sub = true → spec.Contains s sub = true.
Proof. unfold HasPrefix. destruct s; cbn; intros ->; done. Qed.

End prefix_facts.

Section String_query.
Import strings.

(** The text of a URL carries its query string after a question
    mark. *)
Lemma String_carries_RawQuery (u : url.URL) :
  url.RawQuery u ≠ EmptyString →
  ∃ before after,
    url.String_ u = before +:+ "?" +:+ url.RawQuery u +:+ after.
Proof.
  intros Hquery. unfold url.String_.
  rewrite (is_empty_false _ Hquery), orb_true_r. cbn [negb].
  match goal with
  | |- context [(?buf +:+ "?" +:+ url.RawQuery u)] => set (before := buf)
  end.
  destruct (negb (is_empty (url.Fragment u))).
  - exists before, ("#" +:+ url.EscapedFragment u).
    by rewrite !append_assoc.
  - exists before, EmptyString. by rewrite append_nil_r.
Qed.

Lemma Encode_search_params_nonempty query opts :
  url.Encode (searxng.search_params query opts) ≠ EmptyString.
Proof.
  rewrite Encode_Join, params_of_search_params.
  destruct (expected_params_format_q query opts) as (before & between & ->).
  apply Join_nonempty.
  - by destruct before.
  - apply Forall_map, Forall_forall. intros p _. apply param_text_nonempty.
Qed.

End String_query.

(** C9: in the query string of the request URL the parameters stand by
    ascending key, whatever the order in which [Search] set them:
    reading the string back gives the keys in strictly ascending
    byte order, a selection of categories, engines, format, language,
    pageno, q in that order, and [format=json] comes before
    [q=<query>], which comes last. *)
Theorem query_string_sorted_by_key (base : url.URL) (query : string)
    (opts : option searxng.SearchOptions) :
  let q := url.RawQuery (searxng.search_URL base query opts) in
  q = url.Encode (searxng.search_params query opts)
  ∧ StronglySorted strings.lt (spec.query_keys q)
  ∧ spec.query_keys q
    = filter (fun k => bool_decide (k ∈ spec.query_keys q))
        ["categories"; "engines"; "format"; "language"; "pageno"; "q"]
  ∧ (∃ before between,
       spec.query_pairs q
       = before ++ ("format", "json") :: between
         ++ [("q", url.QueryEscape query)])
  ∧ ∃ before after,
      url.String_ (searxng.search_URL base query opts)
      = before +:+ "?" +:+ q +:+ after.
Proof.
  cbn zeta. split_and!; [| | | |apply String_carries_RawQuery,
                                 Encode_search_params_nonempty].
  - reflexivity.
  - rewrite query_keys_search_URL. apply expected_params_sorted.
  - rewrite query_keys_search_URL. apply expected_params_keys.
  - rewrite query_pairs_search_URL.
    destruct (expected_params_format_q query opts) as (before & between & ->).
    eexists _, _. rewrite map_app. cbn [map]. rewrite map_app. reflexivity.
Qed.

Ltac not_a_key :=
  rewrite ?not_elem_of_cons; split_and?; try discriminate;
  apply not_elem_of_nil.

(** C6: with the categories [a] and [b] the query string has the
    parameter [categories=a%2Cb], the comma escaped, and starts with
    it; with an empty list of categories, and without options, the
    query string has no parameter of the key [categories]. *)
Theorem categories_in_query_string (base : url.URL) (query : string) :
  (∀ o, searxng.Categories o = ["a"; "b"] →
        let q := url.RawQuery (searxng.search_URL base query (Some o)) in
        strings.HasPrefix q "categories=a%2Cb" = true
        ∧ spec.Contains q "categories=a%2Cb" = true
        ∧ ("categories", "a%2Cb") ∈ spec.query_pairs q)
  ∧ (∀ o, searxng.Categories o = [] →
          "categories"
          ∉ spec.query_keys
              (url.RawQuery (searxng.search_URL base query (Some o))))
  ∧ "categories"
    ∉ spec.query_keys (url.RawQuery (searxng.search_URL base query None)).
Proof.
  split_and!.
  - intros o Hcat. cbn zeta.
    assert (Hparams : spec.expected_params query (Some o)
                      = ("categories", "a,b")
                        :: tl (spec.expected_params query (Some o))).
    { unfold spec.expected_params. by rewrite Hcat. }
    assert (strings.HasPrefix
              (url.RawQuery (searxng.search_URL base query (Some o)))
              "categories=a%2Cb" = true) as Hprefix.
    { rewrite RawQuery_search_URL, Encode_Join, params_of_search_params.
      rewrite Hparams. cbn [map]. apply (HasPrefix_Join "categories=a%2Cb"). }
    split_and!.
    + done.
    + by apply Contains_prefix.
    + rewrite query_pairs_search_URL, Hparams. apply list_elem_of_here.
  - intros o Hcat. rewrite query_keys_search_URL.
    unfold spec.expected_params, spec.optional. rewrite Hcat.
    change (bool_decide ([] = [])) with true. cbn [negb app].
    destruct (bool_decide (searxng.Engines o = []));
      destruct (bool_decide (searxng.Language o = EmptyString));
      destruct (bool_decide (0 < searxng.PageNo o));
      cbn [negb app map fst]; not_a_key.
  - rewrite query_keys_search_URL. cbn. not_a_key.
Qed.

Lemma categories_in_query_string_witness :
  strings.HasPrefix
    (url.RawQuery
       (searxng.search_URL url.empty_URL "golang"
          (Some (searxng.mkSearchOptions ["a"; "b"] [] "" 0))))
    "categories=a%2Cb" = true
  ∧ "categories"
    ∉ spec.query_keys
        (url.RawQuery
           (searxng.search_URL url.empty_URL "golang"
              (Some (searxng.mkSearchOptions [] ["x"] "en" 2)))).
Proof.
  pose proof (categories_in_query_string url.empty_URL "golang")
    as (Hab & Hnone & _).
  split.
  - apply (Hab (searxng.mkSearchOptions ["a"; "b"] [] "" 0)). reflexivity.
  - apply (Hnone (searxng.mkSearchOptions [] ["x"] "en" 2)). reflexivity.
Defined.

(** ** Requests to the local service *)

Section localhost.
Import strings.

Lemma all_bytes_impl (p q : ascii → bool) (s : string) :
  (∀ c, p c = true → q c = true) →
  all_bytes p s = true → all_bytes q s = true.
Proof.
  intros Hpq. induction s as [|a s IH]; [done|]. cbn.
  intros [Ha Hs]%andb_true_iff. by rewrite (Hpq a Ha), IH.
Qed.

Lemma all_bytes_Join p sep (pieces : list string) :
  all_bytes p sep = true → Forall (fun t => all_bytes p t = true) pieces →
  all_bytes p (Join pieces sep) = true.
Proof.
  intros Hsep. induction pieces as [|t pieces IH]; [done|].
  intros [Ht Hrest]%Forall_cons. destruct pieces as [|t' pieces]; [done|].
  cbn [Join]. rewrite !all_bytes_append, Ht, Hsep. by apply IH.
Qed.

Lemma QueryEscape_query_bytes (s : string) :
  all_bytes spec.query_byte (url.QueryEscape s) = true.
Proof.
  unfold url.QueryEscape. induction s as [|a s IH]; [done|].
  rewrite escape_cons, all_bytes_append, IH, andb_true_r.
  destruct a as [[] [] [] [] [] [] [] []]; reflexivity.
Qed.

(** [Encode] writes only unreserved bytes and [%], [+], [&], [=]. *)
Lemma Encode_query_bytes (v : url.Values) :
  all_bytes spec.query_byte (url.Encode v) = true.
Proof.
  rewrite Encode_Join. apply all_bytes_Join; [done|].
  apply Forall_map, Forall_forall. intros p _. unfold spec.param_text.
  by rewrite !all_bytes_append, !QueryEscape_query_bytes.
Qed.

Lemma query_bytes_free (c : ascii) (s : string) :
  spec.query_byte c = false →
  all_bytes spec.query_byte s = true → spec.free_of c s.
Proof.
  intros Hc. apply all_bytes_impl. intros a Ha.
  apply negb_true_iff. unfold byte_eqb.
  destruct (Ascii.eqb_spec a c) as [->|]; [|done]. congruence.
Qed.

Lemma query_bytes_not_CTL (s : string) :
  all_bytes spec.query_byte s = true →
  all_bytes (fun b => negb ((byte_of b <? byte_of " ")%N
                            || (byte_of b =? 127)%N)) s = true.
Proof.
  apply all_bytes_impl. intros a.
  destruct a as [[] [] [] [] [] [] [] []]; try discriminate; reflexivity.
Qed.

Lemma Cut_free (c : ascii) (s : string) :
  spec.free_of c s → Cut s c = (s, EmptyString, false).
Proof.
  intros Hfree. unfold Cut.
  assert (cut_byte c s = None) as ->; [|done].
  induction s as [|a s IH]; [done|]. cbn.
  apply free_of_cons in Hfree as [-> Hfree]. by rewrite IH.
Qed.

Lemma rev_app_append (a b acc : string) :
  String.rev_app (a +:+ b) acc = String.rev_app b (String.rev_app a acc).
Proof.
  revert acc. induction a as [|c a IH]; intros acc;
    rewrite ?append_cons, ?append_nil_l; [done|]. cbn. apply IH.
Qed.

Lemma rev_app_head (c : ascii) (s acc : string) :
  spec.free_of c s → s ≠ EmptyString →
  String.prefix (String c EmptyString) (String.rev_app s acc) = false.
Proof.
  revert acc. induction s as [|a s IH]; [done|]. intros acc Hfree _.
  apply free_of_cons in Hfree as [Ha Hfree]. cbn [String.rev_app].
  destruct s as [|b s].
  - cbn. destruct (ascii_dec c a) as [->|]; [|done].
    by rewrite byte_eqb_refl in Ha.
  - by apply IH.
Qed.

Lemma HasSuffix_byte_free (c : ascii) (p s : string) :
  spec.free_of c s → s ≠ EmptyString →
  HasSuffix (p +:+ s) (String c EmptyString) = false.
Proof.
  intros Hfree Hne. unfold HasSuffix, String.rev.
  rewrite rev_app_append. by apply rev_app_head.
Qed.

End localhost.

Section localhost_request.
Import strings.

Lemma Parse_localhost_search (Q : string) :
  all_bytes spec.query_byte Q = true → Q ≠ EmptyString →
  url.Parse ("http://localhost:8080/search?" +:+ Q)
  = inl (url.mkURL "http" "" None "localhost:8080" "/search" "" false false
           Q "" "").
Proof.
  intros HQ Hne. unfold url.Parse.
  rewrite Cut_free.
  2:{ apply free_of_append. split; [reflexivity|].
      by apply query_bytes_free. }
  cbn [is_empty]. unfold url.parse.
  assert (url.stringContainsCTLByte ("http://localhost:8080/search?" +:+ Q)
          = false) as ->.
  { unfold url.stringContainsCTLByte.
    rewrite all_bytes_append, (query_bytes_not_CTL Q HQ). reflexivity. }
  assert (url.getScheme ("http://localhost:8080/search?" +:+ Q)
          = inl ("http", "//localhost:8080/search?" +:+ Q)) as ->
    by reflexivity.
  change (String.eqb ("http://localhost:8080/search?" +:+ Q) "*") with false.
  cbn match.
  rewrite HasSuffix_byte_free; [|by apply query_bytes_free|done].
  cbn [andb].
  assert (Cut ("//localhost:8080/search?" +:+ Q) "?"
          = ("//localhost:8080/search", Q, true)) as ->.
  { unfold Cut.
    change ("//localhost:8080/search?" +:+ Q)
      with ("//localhost:8080/search" +:+ String "?" Q).
    by rewrite cut_byte_append. }
  vm_compute. reflexivity.
Qed.

Lemma String_localhost_search (Q : string) :
  Q ≠ EmptyString →
  url.String_
    (url.mkURL "http" "" None "localhost:8080" "search" "" false false Q ""
       "")
  = "http://localhost:8080/search?" +:+ Q.
Proof. destruct Q as [|a Q]; [done|]. intros _. vm_compute. reflexivity. Qed.

Lemma String_localhost_request (Q : string) :
  Q ≠ EmptyString →
  url.String_
    (url.mkURL "http" "" None "localhost:8080" "/search" "" false false Q ""
       "")
  = "http://localhost:8080/search?" +:+ Q.
Proof. destruct Q as [|a Q]; [done|]. intros _. vm_compute. reflexivity. Qed.

(** With the base URL of [main], [Search] can always build its
    request, whatever the query and the options. *)
Lemma request_localhost (query : string)
    (opts : option searxng.SearchOptions) :
  spec.request (searxng.NewClient "http://localhost:8080") query opts
  = inl (http.mkRequest "GET"
           (url.mkURL "http" "" None "localhost:8080" "/search" "" false
              false (url.Encode (searxng.search_params query opts)) "" "")
           "localhost:8080").
Proof.
  unfold spec.request. cbn [searxng.NewClient searxng.baseURL].
  change (url.Parse "http://localhost:8080")
    with (@inl url.URL url.Error
            (url.mkURL "http" "" None "localhost:8080" "" "" false false ""
               "" "")).
  cbn match. unfold searxng.search_URL.
  change (url.JoinPath _ ["search"])
    with (url.mkURL "http" "" None "localhost:8080" "search" "" false false
            "" "" "").
  unfold url.with_RawQuery.
  cbn [url.Scheme url.Opaque url.User url.Host url.Path url.RawPath
       url.OmitHost url.ForceQuery url.Fragment url.RawFragment].
  rewrite String_localhost_search by apply Encode_search_params_nonempty.
  unfold http.NewRequest, http.MethodGet. cbn [is_empty].
  change (http.validMethod "GET") with true. cbn [negb].
  rewrite Parse_localhost_search;
    [|apply Encode_query_bytes|apply Encode_search_params_nonempty].
  reflexivity.
Qed.

End localhost_request.

(** ** The request of [main] *)

(** C5: for the base URL [http://localhost:8080], the query [golang]
    and no options, the URL of the request is exactly
    [http://localhost:8080/search?format=json&q=golang]: the segment
    [search] joined to the base, and the encoded parameters as the
    query string; it is the one request that [Search] sends, with the
    method GET, and the one that [main] sends when the environment
    does not set the base URL.  For every query and all options the
    request to this base is built, and its URL is
    [http://localhost:8080/search?] followed by the encoded
    parameters. *)
Theorem Search_localhost_golang_URL (net : http.RoundTripper) :
  let c := searxng.NewClient "http://localhost:8080" in
  let target := "http://localhost:8080/search?format=json&q=golang" in
  ∃ base req,
    url.Parse (searxng.baseURL c) = inl base
    ∧ (∀ base' query opts,
         searxng.search_URL base' query opts
         = url.with_RawQuery (url.JoinPath base' ["search"])
             (url.Encode (searxng.search_params query opts)))
    ∧ url.Encode (searxng.search_params "golang" None)
      = "format=json&q=golang"
    ∧ url.String_ (searxng.search_URL base "golang" None) = target
    ∧ spec.request c "golang" None = inl req
    ∧ http.Method req = "GET"
    ∧ url.String_ (http.URL req) = target
    ∧ head (snd (http.run (searxng.Search net c "golang" None)))
      = Some (http.EvDo req)
    ∧ (∀ e : env.environ,
         main.main (delete "SEARXNG_URL" e) net
         = searxng.Search net c "golang" None)
    ∧ ∀ query opts,
        ∃ req',
          spec.request c query opts = inl req'
          ∧ http.Method req' = "GET"
          ∧ url.String_ (http.URL req')
            = "http://localhost:8080/search?"
              +:+ url.Encode (searxng.search_params query opts)
          ∧ head (snd (http.run (searxng.Search net c query opts)))
            = Some (http.EvDo req').
Proof.
  cbn zeta.
  exists (url.mkURL "http" "" None "localhost:8080" "" "" false false "" ""
            ""),
         (http.mkRequest "GET"
            (url.mkURL "http" "" None "localhost:8080" "/search" "" false
               false "format=json&q=golang" "" "")
            "localhost:8080").
  split_and!.
  - vm_compute; reflexivity.
  - reflexivity.
  - vm_compute; reflexivity.
  - vm_compute; reflexivity.
  - vm_compute; reflexivity.
  - reflexivity.
  - vm_compute; reflexivity.
  - rewrite Search_run.
    assert (spec.request (searxng.NewClient "http://localhost:8080")
              "golang" None
            = @inl http.Request error
                (http.mkRequest "GET"
                   (url.mkURL "http" "" None "localhost:8080" "/search" ""
                      false false "format=json&q=golang" "" "")
                   "localhost:8080")) as -> by (vm_compute; reflexivity).
    by destruct (net _).
  - intros e. unfold main.main, env.GetVar, env.LookupEnv.
    by rewrite lookup_delete_eq.
  - intros query opts. eexists. split; [apply request_localhost|].
    split_and!.
    + reflexivity.
    + apply String_localhost_request, Encode_search_params_nonempty.
    + rewrite Search_run, request_localhost. by destruct (net _).
Qed.

(** ** Decoding the body *)

Section decoders.
Import json searxng.

Lemma decode_string_alike : spec.stores_alike decode_string.
Proof. intros dst v saved saved'. destruct v; reflexivity. Qed.

Lemma field_alike {T A} (get : T → A) (set : T → A → T) (dec : decoder A) :
  spec.stores_alike dec → spec.stores_alike (field get set dec).
Proof.
  intros Hdec dst v saved saved'. unfold field.
  specialize (Hdec (get dst) v saved saved').
  destruct (dec (get dst) v saved), (dec (get dst) v saved'). cbn in *.
  by subst.
Qed.

Lemma decode_member_alike {T} (fields : list (string * decoder T)) m :
  Forall (fun f => spec.stores_alike (snd f)) fields →
  ∀ x saved saved',
    fst (decode_member fields (x, saved) m)
    = fst (decode_member fields (x, saved') m).
Proof.
  intros Hfields x saved saved'. unfold decode_member, find_field.
  destruct (List.find _ fields) as [f|] eqn:Hf.
  - apply find_some in Hf as [Hin _].
    rewrite Forall_forall in Hfields. apply (Hfields f).
    by apply list_elem_of_In.
  - clear Hf.
    destruct (List.find _ fields) as [f|] eqn:Hf'; [|done].
    apply find_some in Hf' as [Hin _].
    rewrite Forall_forall in Hfields. apply (Hfields f).
    by apply list_elem_of_In.
Qed.

Lemma decode_struct_alike {T} (fields : list (string * decoder T)) type :
  Forall (fun f => spec.stores_alike (snd f)) fields →
  spec.stores_alike (decode_struct fields type).
Proof.
  intros Hfields dst v saved saved'. destruct v; try done. cbn.
  revert dst saved saved'.
  induction members as [|m members IH]; [done|]. intros dst saved saved'.
  cbn [fold_left].
  pose proof (decode_member_alike fields m Hfields dst saved saved') as Hm.
  destruct (decode_member fields (dst, saved) m) as [x1 s1].
  destruct (decode_member fields (dst, saved') m) as [x2 s2].
  cbn in Hm. subst x2. apply IH.
Qed.

Lemma decode_ptr_alike {A} (dec : decoder A) zero :
  spec.stores_alike dec → spec.stores_alike (decode_ptr dec zero).
Proof.
  intros Hdec dst v saved saved'. unfold decode_ptr.
  specialize (Hdec (default zero dst) v saved saved').
  destruct (dec _ v saved), (dec _ v saved'). cbn in Hdec. subst.
  by destruct v.
Qed.

Lemma decode_SearchResult_alike : spec.stores_alike decode_SearchResult.
Proof.
  apply decode_struct_alike. unfold SearchResult_fields.
  repeat (constructor; [apply field_alike, decode_string_alike|]).
  constructor.
Qed.

(** From a fresh backing array the elements are the values of the
    text decoded one by one, in the order of the text. *)
Lemma decode_elems_fresh {A} (dec : decoder A) zero vs saved :
  spec.stores_alike dec →
  fst (decode_elems dec zero [] vs saved)
  = map (fun v => fst (dec zero v None)) vs.
Proof.
  intros Hdec. revert saved. induction vs as [|v vs IH]; [done|].
  intros saved. cbn [decode_elems hd tl map].
  rewrite (surjective_pairing (dec zero v saved)).
  specialize (IH (snd (dec zero v saved))).
  rewrite (surjective_pairing (decode_elems _ _ _ _ _)). cbn [fst].
  rewrite IH. f_equal. apply Hdec.
Qed.

Lemma decode_slice_fresh {A} (dec : decoder A) zero type vs saved :
  spec.stores_alike dec →
  elems_of (fst (decode_slice dec zero type nil_slice (Array vs) saved))
  = map (fun v => fst (dec zero v None)) vs.
Proof.
  intros Hdec. unfold decode_slice. destruct vs as [|v vs]; [done|].
  cbn [backing].
  rewrite (surjective_pairing (decode_elems _ _ _ _ _)). cbn [fst elems_of].
  by apply decode_elems_fresh.
Qed.

Lemma filter_singleton {A} (P : A → bool) (l : list A) (x : A) :
  List.filter P l = [x] →
  ∃ l1 l2, l = l1 ++ x :: l2 ∧ P x = true
           ∧ Forall (fun y => P y = false) l1
           ∧ Forall (fun y => P y = false) l2.
Proof.
  induction l as [|y l IH]; [done|]. cbn [List.filter].
  destruct (P y) eqn:Hy.
  - intros [= -> Hnil]. exists [], l. split_and!; try done.
    clear IH. induction l as [|z l IH]; [done|]. cbn in Hnil.
    destruct (P z) eqn:Hz; [done|]. constructor; [done|]. by apply IH.
  - intros (l1 & l2 & -> & Hx & H1 & H2)%IH.
    exists (y :: l1), l2. split_and!; try done. by constructor.
Qed.

(** *** The members of the response object *)

Lemma names_results_member acc m :
  spec.names_results m = true →
  decode_member SearchResponse_fields acc m
  = field Results (fun r x => mkSearchResponse x (Suggestions r))
      decode_Results (fst acc) (snd m) (snd acc).
Proof.
  unfold spec.names_results, spec.names, decode_member, find_field,
    SearchResponse_fields.
  cbn [List.find fst snd]. intros Hname.
  destruct (String.eqb_spec "results" (fst m)) as [_|_]; [done|].
  destruct (String.eqb_spec "suggestions" (fst m)) as [Heq|_].
  - rewrite <- Heq in Hname. discriminate.
  - by rewrite Hname.
Qed.

Lemma names_suggestions_member acc m :
  spec.names_suggestions m = true →
  decode_member SearchResponse_fields acc m
  = field Suggestions (fun r x => mkSearchResponse (Results r) x)
      decode_Suggestions (fst acc) (snd m) (snd acc).
Proof.
  unfold spec.names_suggestions, spec.names, decode_member, find_field,
    SearchResponse_fields.
  cbn [List.find fst snd]. intros Hname.
  destruct (String.eqb_spec "results" (fst m)) as [Heq|_].
  - rewrite <- Heq in Hname. discriminate.
  - destruct (String.eqb_spec "suggestions" (fst m)) as [_|_]; [done|].
    destruct (String.eqb_spec (foldName "results") (foldName (fst m)))
      as [Heq|_]; [|by rewrite Hname].
    rewrite <- Heq in Hname. discriminate.
Qed.

Lemma names_no_field acc m :
  spec.names_results m = false → spec.names_suggestions m = false →
  decode_member SearchResponse_fields acc m = acc.
Proof.
  unfold spec.names_results, spec.names_suggestions, spec.names,
    decode_member, find_field, SearchResponse_fields.
  cbn [List.find fst snd]. intros Hres Hsug.
  destruct (String.eqb_spec "results" (fst m)) as [Heq|_].
  { rewrite <- Heq in Hres. discriminate. }
  destruct (String.eqb_spec "suggestions" (fst m)) as [Heq|_].
  { rewrite <- Heq in Hsug. discriminate. }
  by rewrite Hres, Hsug.
Qed.

Lemma other_member_keeps_Results acc m :
  spec.names_results m = false →
  Results (fst (decode_member SearchResponse_fields acc m))
  = Results (fst acc).
Proof.
  intros Hres. destruct (spec.names_suggestions m) eqn:Hsug.
  - rewrite names_suggestions_member by done. unfold field.
    by destruct (decode_Suggestions _ _ _).
  - by rewrite names_no_field.
Qed.

Lemma other_member_keeps_Suggestions acc m :
  spec.names_suggestions m = false →
  Suggestions (fst (decode_member SearchResponse_fields acc m))
  = Suggestions (fst acc).
Proof.
  intros Hsug. destruct (spec.names_results m) eqn:Hres.
  - rewrite names_results_member by done. unfold field.
    by destruct (decode_Results _ _ _).
  - by rewrite names_no_field.
Qed.

Lemma other_members_keep_Results members acc :
  Forall (fun m => spec.names_results m = false) members →
  Results (fst (fold_left (decode_member SearchResponse_fields) members acc))
  = Results (fst acc).
Proof.
  revert acc. induction members as [|m members IH]; [done|].
  intros acc [Hm Hrest]%Forall_cons. cbn [fold_left].
  rewrite IH by done. by apply other_member_keeps_Results.
Qed.

Lemma other_members_keep_Suggestions members acc :
  Forall (fun m => spec.names_suggestions m = false) members →
  Suggestions
    (fst (fold_left (decode_member SearchResponse_fields) members acc))
  = Suggestions (fst acc).
Proof.
  revert acc. induction members as [|m members IH]; [done|].
  intros acc [Hm Hrest]%Forall_cons. cbn [fold_left].
  rewrite IH by done. by apply other_member_keeps_Suggestions.
Qed.

Lemma no_field_members members acc :
  Forall (fun m => spec.names_results m = false
                   ∧ spec.names_suggestions m = false) members →
  fold_left (decode_member SearchResponse_fields) members acc = acc.
Proof.
  revert acc. induction members as [|m members IH]; [done|].
  intros acc [[Hres Hsug] Hrest]%Forall_cons. cbn [fold_left].
  rewrite names_no_field by done. by apply IH.
Qed.

(** The one [results] member of an object decides [Results]: its
    elements, decoded one by one, in the order of the array. *)
Lemma Results_in_order members key vs saved :
  List.filter spec.names_results members = [(key, Array vs)] →
  elems_of
    (Results
       (fst (fold_left (decode_member SearchResponse_fields) members
               (zero_SearchResponse, saved))))
  = map spec.result_of vs.
Proof.
  intros (ms1 & ms2 & -> & Hname & H1 & H2)%filter_singleton.
  rewrite fold_left_app. cbn [fold_left].
  rewrite other_members_keep_Results by done.
  rewrite names_results_member by done. unfold field.
  pose proof (other_members_keep_Results ms1 (zero_SearchResponse, saved) H1)
    as Hnil.
  cbn [fst Results zero_SearchResponse] in Hnil. rewrite Hnil. cbn [snd].
  rewrite (surjective_pairing (decode_Results _ _ _)). cbn [fst Results].
  unfold decode_Results. apply decode_slice_fresh.
  apply decode_ptr_alike, decode_SearchResult_alike.
Qed.

Lemma Suggestions_in_order members key vs saved :
  List.filter spec.names_suggestions members = [(key, Array vs)] →
  elems_of
    (Suggestions
       (fst (fold_left (decode_member SearchResponse_fields) members
               (zero_SearchResponse, saved))))
  = map spec.suggestion_of vs.
Proof.
  intros (ms1 & ms2 & -> & Hname & H1 & H2)%filter_singleton.
  rewrite fold_left_app. cbn [fold_left].
  rewrite other_members_keep_Suggestions by done.
  rewrite names_suggestions_member by done. unfold field.
  pose proof (other_members_keep_Suggestions ms1
                (zero_SearchResponse, saved) H1) as Hnil.
  cbn [fst Suggestions zero_SearchResponse] in Hnil. rewrite Hnil.
  cbn [snd].
  rewrite (surjective_pairing (decode_Suggestions _ _ _)).
  cbn [fst Suggestions].
  unfold decode_Suggestions. apply decode_slice_fresh.
  apply decode_string_alike.
Qed.

Lemma decode_elems_length {A} (dec : decoder A) zero old vs saved :
  length (fst (decode_elems dec zero old vs saved)) = length vs.
Proof.
  revert old saved. induction vs as [|v vs IH]; [done|]. intros old saved.
  cbn [decode_elems]. destruct (dec (hd zero old) v saved) as [x saved1].
  specialize (IH (tl old) saved1).
  destruct (decode_elems dec zero (tl old) vs saved1). cbn in *. by rewrite IH.
Qed.

Lemma decode_slice_length {A} (dec : decoder A) zero type dst vs saved :
  length (elems_of (fst (decode_slice dec zero type dst (Array vs) saved)))
  = length vs.
Proof.
  unfold decode_slice. destruct vs as [|v vs]; [done|].
  pose proof (decode_elems_length dec zero (backing dst) (v :: vs) saved).
  by destruct (decode_elems dec zero (backing dst) (v :: vs) saved).
Qed.

(** Whatever came before it, the last [results] member of an object
    decides how many elements [Results] has: as many as its array. *)
Lemma Results_as_many ms1 key vs ms2 acc :
  spec.names_results (key, Array vs) = true →
  Forall (fun m => spec.names_results m = false) ms2 →
  length
    (elems_of
       (Results
          (fst (fold_left (decode_member SearchResponse_fields)
                  (ms1 ++ (key, Array vs) :: ms2) acc))))
  = length vs.
Proof.
  intros Hname Hrest. rewrite fold_left_app. cbn [fold_left].
  rewrite other_members_keep_Results by done.
  rewrite names_results_member by done. unfold field. cbn [snd].
  rewrite (surjective_pairing (decode_Results _ _ _)). cbn [fst Results].
  apply decode_slice_length.
Qed.

Lemma Suggestions_as_many ms1 key vs ms2 acc :
  spec.names_suggestions (key, Array vs) = true →
  Forall (fun m => spec.names_suggestions m = false) ms2 →
  length
    (elems_of
       (Suggestions
          (fst (fold_left (decode_member SearchResponse_fields)
                  (ms1 ++ (key, Array vs) :: ms2) acc))))
  = length vs.
Proof.
  intros Hname Hrest. rewrite fold_left_app. cbn [fold_left].
  rewrite other_members_keep_Suggestions by done.
  rewrite names_suggestions_member by done. unfold field. cbn [snd].
  rewrite (surjective_pairing (decode_Suggestions _ _ _)).
  cbn [fst Suggestions].
  apply decode_slice_length.
Qed.

End decoders.

Section body_outcome.
Import json searxng.

Lemma body_outcome_ok (b : http.Body) (r : SearchResponse) :
  spec.body_outcome b = (Some r, None) →
  http.read_error b = None
  ∧ ∃ v, parse (http.data b) = Some v
         ∧ decode_SearchResponse zero_SearchResponse v None = (r, None).
Proof.
  unfold spec.body_outcome, Unmarshal.
  destruct (http.read_error b); [done|].
  destruct (parse (http.data b)) as [v|]; [|done].
  destruct (decode_SearchResponse _ v None) as [r' [e|]] eqn:Hdec; [done|].
  intros [= ->]. eauto.
Qed.

Lemma body_outcome_parsed (b : http.Body) (v : value) :
  http.read_error b = None → parse (http.data b) = Some v →
  spec.body_outcome b
  = match decode_SearchResponse zero_SearchResponse v None with
    | (_, Some err) => (None, Some (ErrJSON err))
    | (r, None) => (Some r, None)
    end.
Proof.
  intros Hread Hparse. unfold spec.body_outcome, Unmarshal.
  by rewrite Hread, Hparse.
Qed.

Lemma decode_ok_Null_or_Object (v : value) (r : SearchResponse) :
  decode_SearchResponse zero_SearchResponse v None = (r, None) →
  v = Null ∨ ∃ members, v = Object members.
Proof. destruct v; try done; eauto. Qed.

Lemma Search_ok net c query opts r :
  fst (http.run (Search net c query opts)) = (Some r, None) →
  ∃ req resp,
    spec.request c query opts = inl req ∧ net req = inl resp
    ∧ spec.body_outcome (http.Body_ resp) = (Some r, None).
Proof.
  rewrite Search_run. destruct (spec.request c query opts) as [req|e];
    [|done].
  destruct (net req) as [resp|msg] eqn:Hnet; [|done]. eauto.
Qed.

Lemma sample_body_outcome :
  spec.body_outcome (spec.ok_body spec.sample_body)
  = (Some (mkSearchResponse (mkSlice [Some spec.sample_result] [])
             (mkSlice ["golang tutorial"] [])), None).
Proof. vm_compute. reflexivity. Qed.

End body_outcome.

(** ** Reading the text of a response *)

Section value_induction.
Import json.

Lemma value_nested_ind (P : value → Prop) :
  P Null → (∀ b, P (Bool b)) → (∀ l, P (Number l)) → (∀ s, P (Str s)) →
  (∀ elems, Forall P elems → P (Array elems)) →
  (∀ members, Forall (fun m => P (snd m)) members → P (Object members)) →
  ∀ v, P v.
Proof.
  intros HNull HBool HNumber HStr HArray HObject.
  fix IH 1. intros [| b | l | s | elems | members].
  - apply HNull.
  - apply HBool.
  - apply HNumber.
  - apply HStr.
  - apply HArray. induction elems as [|v elems IHelems]; constructor.
    + apply IH.
    + apply IHelems.
  - apply HObject. induction members as [|m members IHmembers]; constructor.
    + apply IH.
    + apply IHmembers.
Qed.

End value_induction.

Section scanning.
Import json strings jsontext.

Lemma scan_cons s c data :
  scan s (String c data)
  = match scan_byte s c with Some s' => scan s' data | None => None end.
Proof. reflexivity. Qed.

(** Unquoting what [quote_content] wrote gives the string back. *)
Lemma units_quote_content s :
  all_bytes printable s = true →
  units (quote_content s) = map Lit (list_ascii_of_string s).
Proof.
  induction s as [|c s IH]; [done|]. cbn [all_bytes quote_content].
  intros [Hc Hs]%andb_true_iff. specialize (IH Hs).
  destruct (byte_eqb c DQUOTE || byte_eqb c BACKSLASH) eqn:Hesc.
  - cbn [units list_ascii_of_string map]. rewrite IH.
    apply orb_true_iff in Hesc as [->%Ascii.eqb_eq| ->%Ascii.eqb_eq];
      reflexivity.
  - apply orb_false_iff in Hesc as [_ Hb].
    cbn [units list_ascii_of_string map]. by rewrite Hb, IH.
Qed.

Lemma assemble_Lit s :
  all_bytes printable s = true →
  assemble O (map Lit (list_ascii_of_string s)) = s.
Proof.
  induction s as [|c s IH]; [done|]. cbn [all_bytes].
  intros [Hc Hs]%andb_true_iff.
  cbn [list_ascii_of_string map assemble].
  assert ((byte_of c <? 128)%N = true) as ->.
  { unfold printable in Hc. apply andb_true_iff in Hc as [_ Hc].
    apply N.leb_le in Hc. apply N.ltb_lt. lia. }
  by rewrite IH.
Qed.

Lemma unquote_quote_content s :
  all_bytes printable s = true → unquote (quote_content s) = s.
Proof.
  intros Hs. unfold unquote. rewrite units_quote_content by done.
  by apply assemble_Lit.
Qed.

Lemma scan_quote_content s acc stack rest :
  all_bytes printable s = true →
  scan (mkScanner (stateInString acc) stack) (quote_content s +:+ rest)
  = scan (mkScanner
            (stateInString
               (rev (list_ascii_of_string (quote_content s)) ++ acc)) stack)
      rest.
Proof.
  revert acc. induction s as [|c s IH]; [done|]. intros acc.
  cbn [all_bytes quote_content]. intros [Hc Hs]%andb_true_iff.
  destruct (byte_eqb c DQUOTE || byte_eqb c BACKSLASH) eqn:Hesc.
  - rewrite !append_cons, !scan_cons. cbn [list_ascii_of_string rev].
    rewrite <- !app_assoc. cbn [app]. rewrite <- IH by done.
    apply orb_true_iff in Hesc as [->%Ascii.eqb_eq| ->%Ascii.eqb_eq];
      reflexivity.
  - rewrite !append_cons, !scan_cons. cbn [list_ascii_of_string rev].
    rewrite <- !app_assoc. cbn [app]. rewrite <- IH by done.
    apply orb_false_iff in Hesc as [Hq Hb].
    cbn [scan_byte step parseState]. rewrite Hq, Hb.
    assert ((byte_of c <? 32)%N = false) as ->; [|done].
    unfold printable in Hc. apply andb_true_iff in Hc as [Hc _].
    apply N.leb_le in Hc. apply N.ltb_ge. lia.
Qed.

Lemma scan_quote s s0 stack rest :
  all_bytes printable s = true → string_start s0 →
  scan (mkScanner s0 stack) (quote s +:+ rest)
  = scan (endValue stack (Str s)) rest.
Proof.
  intros Hs Hstart. unfold quote. rewrite append_cons, scan_cons.
  assert (scan_byte (mkScanner s0 stack) DQUOTE
          = Some (mkScanner (stateInString []) stack)) as ->.
  { by destruct Hstart as [->|[->|[->| ->]]]. }
  rewrite append_assoc, scan_quote_content by done.
  rewrite append_cons, append_nil_l, scan_cons.
  cbn [scan_byte step parseState]. unfold byte_eqb at 1.
  rewrite Ascii.eqb_refl. rewrite app_nil_r. unfold text.
  rewrite rev_involutive, string_of_list_ascii_of_string.
  by rewrite unquote_quote_content.
Qed.

End scanning.

Section scan_render.
Import json strings jsontext.

Lemma render_Array elems :
  render (Array elems) = "[" +:+ render_elems elems +:+ "]".
Proof. reflexivity. Qed.

Lemma render_Object members :
  render (Object members) = "{" +:+ render_members members +:+ "}".
Proof. reflexivity. Qed.

Lemma render_elems_cons v v' elems :
  render_elems (v :: v' :: elems)
  = render v +:+ "," +:+ render_elems (v' :: elems).
Proof. reflexivity. Qed.

Lemma render_members_cons m m' members :
  render_members (m :: m' :: members)
  = quote (fst m) +:+ ":" +:+ render (snd m) +:+ ","
    +:+ render_members (m' :: members).
Proof. reflexivity. Qed.

Lemma pushParseState_ok stack f next :
  (length stack < maxNestingDepth)%nat →
  pushParseState stack f next = Some (mkScanner next (f :: stack)).
Proof.
  intros Hdepth. unfold pushParseState.
  assert ((length (f :: stack) <=? maxNestingDepth)%nat = true) as ->; [|done].
  apply Nat.leb_le. cbn [length]. lia.
Qed.

Ltac norm_app := rewrite ?append_assoc, ?append_cons, ?append_nil_l.

Lemma scans_elems (stack : list frame) (rest : string) :
  ∀ elems v acc s0,
    Forall scans (v :: elems) →
    forallb plain (v :: elems) = true →
    Forall (fun v => (S (length stack) + depth v ≤ maxNestingDepth)%nat)
      (v :: elems) →
    value_start s0 →
    scan (mkScanner s0 (parseArrayValue acc :: stack))
      (render_elems (v :: elems) +:+ String "]" rest)
    = scan (endValue stack (Array (rev acc ++ v :: elems))) rest.
Proof.
  induction elems as [|v' elems IH];
    intros v acc s0 [Hv Hscans]%Forall_cons [Hpv Hplain]%andb_true_iff
      [Hdv Hdepth]%Forall_cons Hstart.
  - cbn [render_elems]. rewrite (Hv Hpv) by done. reflexivity.
  - rewrite render_elems_cons. norm_app. rewrite (Hv Hpv) by done.
    rewrite scan_cons.
    cbn [endValue scan_byte step parseState after_value].
    change (isSpace ",") with false. change (byte_eqb "," ",") with true.
    cbn match. rewrite IH; try done; [|by left].
    cbn [rev]. by rewrite <- app_assoc.
Qed.

Lemma scans_members (stack : list frame) (rest : string) :
  ∀ members m acc s0,
    Forall (fun m => scans (snd m)) (m :: members) →
    forallb (fun m => all_bytes printable (fst m) && plain (snd m))
      (m :: members) = true →
    Forall (fun m => (S (length stack) + depth (snd m)
                      ≤ maxNestingDepth)%nat) (m :: members) →
    string_start s0 →
    scan (mkScanner s0 (parseObjectKey acc :: stack))
      (render_members (m :: members) +:+ String "}" rest)
    = scan (endValue stack (Object (rev acc ++ m :: members))) rest.
Proof.
  induction members as [|m' members IH];
    intros [k v] acc s0 [Hv Hscans]%Forall_cons [Hpm Hplain]%andb_true_iff
      [Hdv Hdepth]%Forall_cons Hstart;
    cbn [fst snd] in *; apply andb_true_iff in Hpm as [Hk Hpv].
  - cbn [render_members fst snd]. rewrite !append_assoc.
    rewrite scan_quote by done. norm_app. rewrite scan_cons.
    cbn [endValue scan_byte step parseState after_value].
    change (isSpace ":") with false. change (byte_eqb ":" ":") with true.
    cbn match. rewrite (Hv Hpv); [|by left|done]. reflexivity.
  - rewrite render_members_cons. cbn [fst snd]. rewrite !append_assoc.
    rewrite scan_quote by done. norm_app. rewrite scan_cons.
    cbn [endValue scan_byte step parseState after_value].
    change (isSpace ":") with false. change (byte_eqb ":" ":") with true.
    cbn match. rewrite (Hv Hpv); [|by left|done]. rewrite scan_cons.
    cbn [endValue scan_byte step parseState after_value].
    change (isSpace ",") with false. change (byte_eqb "," ",") with true.
    cbn match. rewrite IH; try done; [|by left].
    cbn [rev]. by rewrite <- app_assoc.
Qed.

Lemma depth_elems (stack : list frame) v elems :
  (length stack + depth (Array elems) ≤ maxNestingDepth)%nat →
  v ∈ elems → (S (length stack) + depth v ≤ maxNestingDepth)%nat.
Proof.
  cbn [depth]. intros Hdepth Hin.
  assert (depth v ≤ foldr (fun v d => Nat.max (depth v) d) O elems)%nat;
    [|lia].
  clear Hdepth. induction Hin; cbn [foldr]; lia.
Qed.

Lemma depth_members (stack : list frame) m members :
  (length stack + depth (Object members) ≤ maxNestingDepth)%nat →
  m ∈ members → (S (length stack) + depth (snd m) ≤ maxNestingDepth)%nat.
Proof.
  cbn [depth]. intros Hdepth Hin.
  assert (depth (snd m)
          ≤ foldr (fun m d => Nat.max (depth (snd m)) d) O members)%nat;
    [|lia].
  clear Hdepth. induction Hin; cbn [foldr]; lia.
Qed.

Lemma scans_all v : scans v.
Proof.
  induction v as [| b | l | s | elems IH | members IH]
    using value_nested_ind; intros Hplain stack rest s0 Hstart Hdepth.
  - by destruct Hstart as [-> | ->].
  - by destruct Hstart as [-> | ->], b.
  - done.
  - apply scan_quote; [done|]. by right; right.
  - rewrite render_Array. norm_app. rewrite scan_cons.
    assert (scan_byte (mkScanner s0 stack) "["
            = Some (mkScanner stateBeginValueOrEmpty
                      (parseArrayValue [] :: stack))) as ->.
    { assert (scan_byte (mkScanner s0 stack) "["
              = pushParseState stack (parseArrayValue [])
                  stateBeginValueOrEmpty) as ->
        by by destruct Hstart as [-> | ->].
      apply pushParseState_ok. cbn [depth] in Hdepth. lia. }
    destruct elems as [|v elems]; [reflexivity|].
    rewrite scans_elems; try done; [|by right].
    apply Forall_forall. intros v' Hin. by eapply depth_elems.
  - rewrite render_Object. norm_app. rewrite scan_cons.
    assert (scan_byte (mkScanner s0 stack) "{"
            = Some (mkScanner stateBeginStringOrEmpty
                      (parseObjectKey [] :: stack))) as ->.
    { assert (scan_byte (mkScanner s0 stack) "{"
              = pushParseState stack (parseObjectKey [])
                  stateBeginStringOrEmpty) as ->
        by by destruct Hstart as [-> | ->].
      apply pushParseState_ok. cbn [depth] in Hdepth. lia. }
    destruct members as [|m members]; [reflexivity|].
    rewrite scans_members; try done; [|by right; left].
    apply Forall_forall. intros m' Hin. by eapply depth_members.
Qed.

(** Reading the text of a value gives the value back. *)
Lemma parse_render v :
  plain v = true → (depth v ≤ maxNestingDepth)%nat →
  parse (render v) = Some v.
Proof.
  intros Hplain Hdepth. unfold parse.
  rewrite <- (append_nil_r (render v)).
  rewrite (scans_all v Hplain [] EmptyString stateBeginValue);
    [done|by left|done].
Qed.

End scan_render.
Section decode_rendered.
Import json strings jsontext searxng.

Lemma decode_result_value r saved :
  decode_ptr decode_SearchResult zero_SearchResult None (result_value r) saved
  = (r, saved).
Proof. destruct r as [[t u i ts th co a ifr]|]; reflexivity. Qed.

Lemma decode_Str s saved : decode_string EmptyString (Str s) saved = (s, saved).
Proof. reflexivity. Qed.

Lemma decode_elems_values {A B} (dec : decoder A) zero (f : B → value)
    (g : B → A) xs saved :
  (∀ x saved, dec zero (f x) saved = (g x, saved)) →
  decode_elems dec zero [] (map f xs) saved = (map g xs, saved).
Proof.
  intros Hdec. induction xs as [|x xs IH]; [done|].
  cbn [map decode_elems hd tl]. by rewrite Hdec, IH.
Qed.

Lemma decode_slice_values {A B} (dec : decoder A) zero type
    (f : B → value) (g : B → A) xs saved :
  (∀ x saved, dec zero (f x) saved = (g x, saved)) →
  decode_slice dec zero type nil_slice (Array (map f xs)) saved
  = (mkSlice (map g xs) [], saved).
Proof.
  intros Hdec. destruct xs as [|x xs]; [done|].
  unfold decode_slice. cbn [map backing].
  change (f x :: map f xs) with (map f (x :: xs)).
  rewrite (decode_elems_values dec zero f g) by done.
  by rewrite skipn_nil.
Qed.

Lemma decode_response_value results suggestions :
  decode_SearchResponse zero_SearchResponse
    (response_value results suggestions) None
  = (mkSearchResponse (mkSlice results []) (mkSlice suggestions []), None).
Proof.
  unfold decode_SearchResponse, decode_struct, response_value.
  cbn [fold_left].
  rewrite (names_results_member (zero_SearchResponse, None)) by reflexivity.
  unfold field at 1. cbn [fst snd Results zero_SearchResponse].
  unfold decode_Results.
  rewrite (decode_slice_values _ _ _ result_value id)
    by apply decode_result_value.
  rewrite names_suggestions_member by reflexivity.
  unfold field. cbn [fst snd Suggestions Results].
  unfold decode_Suggestions.
  rewrite (decode_slice_values _ _ _ Str id) by apply decode_Str.
  by rewrite !map_id.
Qed.

Lemma plain_response_value results suggestions :
  forallb plain_result results = true →
  forallb (all_bytes printable) suggestions = true →
  plain (response_value results suggestions) = true.
Proof.
  intros Hresults Hsuggestions. cbn [plain response_value forallb fst snd].
  change (all_bytes printable "results") with true.
  change (all_bytes printable "suggestions") with true.
  cbn [andb]. rewrite andb_true_r. apply andb_true_iff. split.
  - rewrite forallb_forall in Hresults. apply forallb_forall.
    intros v [r [<- Hin]]%in_map_iff. specialize (Hresults r Hin).
    destruct r as [r|]; [|done].
    cbn [plain_result forallb] in Hresults.
    cbn [result_value plain forallb fst snd all_bytes].
    repeat (apply andb_true_iff in Hresults as [-> Hresults]). done.
  - rewrite forallb_forall in Hsuggestions. apply forallb_forall.
    intros v [s [<- Hin]]%in_map_iff. by apply Hsuggestions.
Qed.

Lemma depth_response_value results suggestions :
  (depth (response_value results suggestions) ≤ 3)%nat.
Proof.
  cbn [depth response_value foldr snd].
  assert (foldr (fun v d => Nat.max (depth v) d) O
            (map result_value results) ≤ 1)%nat.
  { induction results as [|[r|] results IH]; cbn [map foldr]; [lia| |];
      cbn [result_value depth foldr snd]; lia. }
  assert (foldr (fun v d => Nat.max (depth v) d) O (map Str suggestions)
          ≤ 0)%nat.
  { induction suggestions as [|s suggestions IH]; cbn [map foldr depth]; lia. }
  lia.
Qed.

(** The text of a response is decoded to that response: every result
    and every suggestion, in the order of the text. *)
Lemma body_outcome_response_text results suggestions :
  forallb plain_result results = true →
  forallb (all_bytes printable) suggestions = true →
  spec.body_outcome (spec.ok_body (response_text results suggestions))
  = (Some (mkSearchResponse (mkSlice results []) (mkSlice suggestions [])),
     None).
Proof.
  intros Hresults Hsuggestions.
  rewrite (body_outcome_parsed _ (response_value results suggestions)).
  - by rewrite decode_response_value.
  - done.
  - apply parse_render; [by apply plain_response_value|].
    pose proof (depth_response_value results suggestions).
    assert (3 ≤ maxNestingDepth)%nat; [|lia].
    apply Nat.leb_le. by vm_compute.
Qed.

End decode_rendered.

(** ** Keys given more than once *)

Section repeated_keys.
Import json strings searxng behaviour.

Lemma decode_elems_zero {A} (dec : decoder A) (zero : A) vs :
  ∀ old saved,
    Forall (eq zero) old →
    decode_elems dec zero old vs saved = decode_elems dec zero [] vs saved.
Proof.
  induction vs as [|v vs IH]; intros old saved Hold; [done|].
  cbn [decode_elems hd tl].
  assert (hd zero old = zero ∧ Forall (eq zero) (tl old)) as [-> Htl].
  { destruct Hold; [by split|]. by split. }
  destruct (dec zero v saved) as [x saved1]. by rewrite (IH (tl old)).
Qed.

Lemma decode_slice_zero {A} (dec : decoder A) (zero : A) type dst vs saved :
  spec.stores_alike dec → Forall (eq zero) (backing dst) →
  elems_of (fst (decode_slice dec zero type dst (Array vs) saved))
  = map (fun v => fst (dec zero v None)) vs.
Proof.
  intros Halike Hzero. unfold decode_slice.
  destruct vs as [|v vs]; [done|].
  rewrite decode_elems_zero by done.
  pose proof (decode_elems_fresh dec zero (v :: vs) saved Halike) as Hfresh.
  by destruct (decode_elems dec zero [] (v :: vs) saved).
Qed.

Lemma decode_nulls_zero {A} (dec : decoder A) (zero : A) vs :
  (∀ saved, fst (dec zero Null saved) = zero) →
  forallb (fun v => match v with Null => true | _ => false end) vs = true →
  ∀ old saved,
    Forall (eq zero) old →
    Forall (eq zero) (fst (decode_elems dec zero old vs saved)).
Proof.
  intros Hnull. induction vs as [|v vs IH]; intros Hvs old saved Hold.
  - constructor.
  - cbn [forallb] in Hvs. apply andb_true_iff in Hvs as [Hv Hvs].
    destruct v; try done. cbn [decode_elems].
    assert (hd zero old = zero ∧ Forall (eq zero) (tl old)) as [-> Htl].
    { destruct Hold; [by split|]. by split. }
    specialize (Hnull saved).
    destruct (dec zero Null saved) as [x saved1]. cbn [fst] in Hnull.
    specialize (IH Hvs (tl old) saved1 Htl).
    destruct (decode_elems dec zero (tl old) vs saved1) as [xs saved2].
    cbn [fst] in *. by constructor.
Qed.

Lemma decode_slice_leaves_nothing {A} (dec : decoder A) (zero : A) type dst v
    saved :
  (∀ saved, fst (dec zero Null saved) = zero) →
  leaves_nothing v = true → Forall (eq zero) (backing dst) →
  Forall (eq zero) (backing (fst (decode_slice dec zero type dst v saved))).
Proof.
  intros Hnull Hv Hzero. unfold decode_slice.
  destruct v as [| | | |vs|]; try done.
  destruct vs as [|w vs]; [done|]. cbn [leaves_nothing] in Hv.
  pose proof (decode_nulls_zero dec zero (w :: vs) Hnull Hv (backing dst)
                saved Hzero) as Helems.
  destruct (decode_elems dec zero (backing dst) (w :: vs) saved)
    as [xs saved1].
  cbn [fst backing] in *. apply Forall_app. split; [done|].
  by apply Forall_drop.
Qed.

Lemma Results_backing_zero before :
  ∀ acc,
    Forall (eq None) (backing (Results (fst acc))) →
    Forall (fun m => spec.names_results m = true
                     → leaves_nothing (snd m) = true) before →
    Forall (eq None)
      (backing
         (Results
            (fst (fold_left (decode_member SearchResponse_fields) before
                    acc)))).
Proof.
  induction before as [|m before IH]; intros acc Hacc Hbefore; [done|].
  apply Forall_cons in Hbefore as [Hm Hbefore].
  cbn [fold_left]. apply IH; [|done].
  destruct (spec.names_results m) eqn:Hname.
  - rewrite names_results_member by done. unfold field.
    pose proof (decode_slice_leaves_nothing
                  (decode_ptr decode_SearchResult zero_SearchResult) None
                  "[]*searxng.SearchResult" (Results (fst acc)) (snd m)
                  (snd acc) (fun _ => eq_refl) (Hm eq_refl) Hacc) as Hzero.
    fold decode_Results in Hzero.
    by destruct (decode_Results (Results (fst acc)) (snd m) (snd acc)).
  - by rewrite other_member_keeps_Results.
Qed.

Lemma Suggestions_backing_zero before :
  ∀ acc,
    Forall (eq EmptyString) (backing (Suggestions (fst acc))) →
    Forall (fun m => spec.names_suggestions m = true
                     → leaves_nothing (snd m) = true) before →
    Forall (eq EmptyString)
      (backing
         (Suggestions
            (fst (fold_left (decode_member SearchResponse_fields) before
                    acc)))).
Proof.
  induction before as [|m before IH]; intros acc Hacc Hbefore; [done|].
  apply Forall_cons in Hbefore as [Hm Hbefore].
  cbn [fold_left]. apply IH; [|done].
  destruct (spec.names_suggestions m) eqn:Hname.
  - rewrite names_suggestions_member by done. unfold field.
    pose proof (decode_slice_leaves_nothing decode_string EmptyString
                  "[]string" (Suggestions (fst acc)) (snd m) (snd acc)
                  (fun _ => eq_refl) (Hm eq_refl) Hacc) as Hzero.
    fold decode_Suggestions in Hzero.
    by destruct (decode_Suggestions (Suggestions (fst acc)) (snd m)
                   (snd acc)).
  - by rewrite other_member_keeps_Suggestions.
Qed.

Lemma Results_of_last_array before key vs after saved :
  spec.names_results (key, Array vs) = true →
  Forall (fun m => spec.names_results m = false) after →
  Forall (fun m => spec.names_results m = true
                   → leaves_nothing (snd m) = true) before →
  elems_of
    (Results
       (fst (fold_left (decode_member SearchResponse_fields)
               (before ++ (key, Array vs) :: after)
               (zero_SearchResponse, saved))))
  = map spec.result_of vs.
Proof.
  intros Hname Hafter Hbefore.
  rewrite fold_left_app. cbn [fold_left].
  rewrite other_members_keep_Results by done.
  rewrite names_results_member by done. unfold field. cbn [snd].
  pose proof (Results_backing_zero before (zero_SearchResponse, saved)
                ltac:(constructor) Hbefore) as Hzero.
  set (acc := fold_left _ before _) in *.
  pose proof (decode_slice_zero
                (decode_ptr decode_SearchResult zero_SearchResult) None
                "[]*searxng.SearchResult" (Results (fst acc)) vs (snd acc)
                (decode_ptr_alike _ _ decode_SearchResult_alike) Hzero)
    as Helems.
  fold decode_Results in Helems.
  by destruct (decode_Results (Results (fst acc)) (Array vs) (snd acc)).
Qed.

Lemma Suggestions_of_last_array before key vs after saved :
  spec.names_suggestions (key, Array vs) = true →
  Forall (fun m => spec.names_suggestions m = false) after →
  Forall (fun m => spec.names_suggestions m = true
                   → leaves_nothing (snd m) = true) before →
  elems_of
    (Suggestions
       (fst (fold_left (decode_member SearchResponse_fields)
               (before ++ (key, Array vs) :: after)
               (zero_SearchResponse, saved))))
  = map spec.suggestion_of vs.
Proof.
  intros Hname Hafter Hbefore.
  rewrite fold_left_app. cbn [fold_left].
  rewrite other_members_keep_Suggestions by done.
  rewrite names_suggestions_member by done. unfold field. cbn [snd].
  pose proof (Suggestions_backing_zero before (zero_SearchResponse, saved)
                ltac:(constructor) Hbefore) as Hzero.
  set (acc := fold_left _ before _) in *.
  pose proof (decode_slice_zero decode_string EmptyString "[]string"
                (Suggestions (fst acc)) vs (snd acc) decode_string_alike
                Hzero) as Helems.
  fold decode_Suggestions in Helems.
  by destruct (decode_Suggestions (Suggestions (fst acc)) (Array vs)
                 (snd acc)).
Qed.

End repeated_keys.

(** C7, as amended: when [Search] returns no error the response
    pointer is not nil.  The response then comes from a body that was
    read to its end and is a JSON text.  When the text is an object in
    which the last member for [results] is an array, and every member
    for [results] before it is [null] or an array that holds [null]
    only, as when there is one member for [results], then [Results]
    has the elements of that array decoded one by one, as many and in
    the same order, and likewise [Suggestions] for [suggestions]:
    nothing is dropped, merged or moved.  Whatever the earlier members
    are, [Results] has as many elements as the last array for
    [results].  The text of any response whose strings are printable
    ASCII is decoded to that very response.  The sample body gives one
    result, titled [Go], and the one suggestion [golang tutorial]. *)
Theorem Search_results_in_order (net : http.RoundTripper)
    (c : searxng.Client) (query : string)
    (opts : option searxng.SearchOptions) :
  let result := fst (http.run (searxng.Search net c query opts)) in
  (snd result = None → ∃ r, fst result = Some r)
  ∧ (∀ r, result = (Some r, None) →
       ∃ req resp v,
         spec.request c query opts = inl req ∧ net req = inl resp
         ∧ http.read_error (http.Body_ resp) = None
         ∧ json.parse (http.data (http.Body_ resp)) = Some v
         ∧ (v = json.Null ∨ ∃ members, v = json.Object members)
         ∧ ∀ members, v = json.Object members →
             (∀ key vs,
                List.filter spec.names_results members
                = [(key, json.Array vs)] →
                json.elems_of (searxng.Results r) = map spec.result_of vs
                ∧ length (json.elems_of (searxng.Results r)) = length vs)
             ∧ (∀ key vs,
                  List.filter spec.names_suggestions members
                  = [(key, json.Array vs)] →
                  json.elems_of (searxng.Suggestions r)
                  = map spec.suggestion_of vs
                  ∧ length (json.elems_of (searxng.Suggestions r))
                    = length vs)
             ∧ (∀ before key vs after,
                  members = before ++ (key, json.Array vs) :: after →
                  spec.names_results (key, json.Array vs) = true →
                  Forall (fun m => spec.names_results m = false) after →
                  length (json.elems_of (searxng.Results r)) = length vs)
             ∧ (∀ before key vs after,
                  members = before ++ (key, json.Array vs) :: after →
                  spec.names_suggestions (key, json.Array vs) = true →
                  Forall (fun m => spec.names_suggestions m = false) after →
                  length (json.elems_of (searxng.Suggestions r))
                  = length vs)
             ∧ (∀ before key vs after,
                  members = before ++ (key, json.Array vs) :: after →
                  spec.names_results (key, json.Array vs) = true →
                  Forall (fun m => spec.names_results m = false) after →
                  Forall (fun m => spec.names_results m = true
                                   → behaviour.leaves_nothing (snd m) = true)
                    before →
                  json.elems_of (searxng.Results r) = map spec.result_of vs)
             ∧ (∀ before key vs after,
                  members = before ++ (key, json.Array vs) :: after →
                  spec.names_suggestions (key, json.Array vs) = true →
                  Forall (fun m => spec.names_suggestions m = false) after →
                  Forall (fun m => spec.names_suggestions m = true
                                   → behaviour.leaves_nothing (snd m) = true)
                    before →
                  json.elems_of (searxng.Suggestions r)
                  = map spec.suggestion_of vs))
  ∧ (∀ req resp,
       spec.request c query opts = inl req → net req = inl resp →
       http.Body_ resp = spec.ok_body spec.sample_body →
       result
       = (Some (searxng.mkSearchResponse
                  (json.mkSlice [Some spec.sample_result] [])
                  (json.mkSlice ["golang tutorial"] [])), None))
  ∧ (∀ req resp results suggestions,
       spec.request c query opts = inl req → net req = inl resp →
       http.Body_ resp
       = spec.ok_body (jsontext.response_text results suggestions) →
       forallb jsontext.plain_result results = true →
       forallb (strings.all_bytes jsontext.printable) suggestions = true →
       result
       = (Some (searxng.mkSearchResponse (json.mkSlice results [])
                  (json.mkSlice suggestions [])), None))
  ∧ searxng.Title spec.sample_result = "Go"
  ∧ searxng.URL spec.sample_result = "https://go.dev".
Proof.
  cbn zeta. split_and!; try reflexivity.
  - destruct (Search_nil_or_ok net c query opts) as [[err ->]|[r ->]];
      [done|eauto].
  - intros r (req & resp & Hreq & Hnet & Hbody)%Search_ok.
    destruct (body_outcome_ok _ _ Hbody) as (Hread & v & Hparse & Hdec).
    exists req, resp, v. split_and!; try done.
    + by eapply decode_ok_Null_or_Object.
    + intros members ->. cbn in Hdec.
      assert (r = fst (fold_left
                         (json.decode_member searxng.SearchResponse_fields)
                         members (searxng.zero_SearchResponse, None))) as ->
        by by rewrite Hdec.
      split_and!.
      * intros key vs Hfilter.
        rewrite (Results_in_order _ _ _ _ Hfilter).
        by rewrite length_map.
      * intros key vs Hfilter.
        rewrite (Suggestions_in_order _ _ _ _ Hfilter).
        by rewrite length_map.
      * intros before key vs after -> Hname Hafter.
        by apply Results_as_many.
      * intros before key vs after -> Hname Hafter.
        by apply Suggestions_as_many.
      * intros before key vs after -> Hname Hafter Hbefore.
        by apply Results_of_last_array.
      * intros before key vs after -> Hname Hafter Hbefore.
        by apply Suggestions_of_last_array.
  - intros req resp Hreq Hnet Hbody.
    rewrite Search_run, Hreq, Hnet, Hbody. cbn [fst].
    apply sample_body_outcome.
  - intros req resp results suggestions Hreq Hnet Hbody Hresults Hsuggestions.
    rewrite Search_run, Hreq, Hnet, Hbody. cbn [fst].
    by apply body_outcome_response_text.
Qed.

Lemma Search_results_in_order_witness :
  let result :=
    fst (http.run
           (searxng.Search
              (spec.always (spec.sample_response 200 spec.sample_body))
              (searxng.NewClient "http://localhost:8080") "golang" None)) in
  (∃ r, fst result = Some r)
  ∧ result
    = (Some (searxng.mkSearchResponse
               (json.mkSlice [Some spec.sample_result] [])
               (json.mkSlice ["golang tutorial"] [])), None)
  ∧ json.elems_of (json.mkSlice [Some spec.sample_result] [])
    = map spec.result_of
        [json.Object [("title", json.Str "Go");
                      ("url", json.Str "https://go.dev")]]
  ∧ fst (http.run
           (searxng.Search
              (spec.always
                 (spec.sample_response 200
                    (jsontext.response_text [Some spec.sample_result; None]
                       ["b"; "a"; "b"])))
              (searxng.NewClient "http://localhost:8080") "golang" None))
    = (Some (searxng.mkSearchResponse
               (json.mkSlice [Some spec.sample_result; None] [])
               (json.mkSlice ["b"; "a"; "b"] [])), None).
Proof.
  pose proof (Search_results_in_order
                (spec.always (spec.sample_response 200 spec.sample_body))
                (searxng.NewClient "http://localhost:8080") "golang" None)
    as (Hok & Horder & Hsample & _).
  pose proof (Search_results_in_order
                (spec.always
                   (spec.sample_response 200
                      (jsontext.response_text [Some spec.sample_result; None]
                         ["b"; "a"; "b"])))
                (searxng.NewClient "http://localhost:8080") "golang" None)
    as (_ & _ & _ & Htext & _).
  split_and!; [| | |eapply Htext; vm_compute; reflexivity].
  - apply Hok. reflexivity.
  - eapply Hsample; reflexivity.
  - destruct (Horder _ eq_refl)
      as (req & resp & v & Hreq & Hnet & Hread & Hparse & _ & Hmembers).
    vm_compute in Hnet. injection Hnet as <-.
    vm_compute in Hparse. injection Hparse as <-.
    destruct (Hmembers _ eq_refl) as (Hresults & _).
    apply (Hresults "results"). vm_compute. reflexivity.
Defined.

(** C7, as it was stated, fails: in the body
    [{'results':[{'title':'A','url':'u'},{'title':'B'}],'results':[{'url':'v'}]}]
    (with double quotes) the key [results] comes twice.  [Search]
    succeeds on it, and [Results] holds one result, with the title [A]
    of the first array beside the URL [v] of the second: its elements
    are in neither array. *)
Lemma Search_repeated_results_counterexample :
  let body :=
    spec.dq "{'results':[{'title':'A','url':'u'},{'title':'B'}],'results':[{'url':'v'}]}" in
  let first :=
    [json.Object [("title", json.Str "A"); ("url", json.Str "u")];
     json.Object [("title", json.Str "B")]] in
  let last := [json.Object [("url", json.Str "v")]] in
  let result :=
    fst (http.run
           (searxng.Search (spec.always (spec.sample_response 200 body))
              (searxng.NewClient "http://localhost:8080") "golang" None)) in
  json.parse body
  = Some (json.Object [("results", json.Array first);
                       ("results", json.Array last)])
  ∧ result
    = (Some (searxng.mkSearchResponse
               (json.mkSlice
                  [Some (searxng.mkSearchResult "A" "v" "" "" "" "" "" "")]
                  [Some (searxng.mkSearchResult "B" "" "" "" "" "" "" "")])
               json.nil_slice), None)
  ∧ map spec.result_of first
    = [Some (searxng.mkSearchResult "A" "u" "" "" "" "" "" "");
       Some (searxng.mkSearchResult "B" "" "" "" "" "" "" "")]
  ∧ map spec.result_of last
    = [Some (searxng.mkSearchResult "" "v" "" "" "" "" "" "")]
  ∧ ∀ r, result = (Some r, None) →
         json.elems_of (searxng.Results r) ≠ map spec.result_of first
         ∧ json.elems_of (searxng.Results r) ≠ map spec.result_of last.
Proof.
  cbn zeta. split_and!; try (vm_compute; reflexivity).
  intros r Hr. vm_compute in Hr. injection Hr as <-.
  split; vm_compute; discriminate.
Qed.

(** ** Bodies of the expected shape *)

Section shape_facts.
Import json strings searxng shape.

Lemma decode_string_decides : decides decode_string fits_string.
Proof.
  intros dst v saved. destruct v, saved; cbn; split; try done;
    by intros [? ?].
Qed.

Lemma decode_elems_decides {A} (dec : decoder A) fits zero :
  decides dec fits →
  ∀ vs old saved,
    snd (decode_elems dec zero old vs saved) = None
    ↔ saved = None ∧ forallb fits vs = true.
Proof.
  intros Hdec. induction vs as [|v vs IH]; intros old saved.
  - cbn. naive_solver.
  - cbn [decode_elems forallb].
    destruct (dec (hd zero old) v saved) as [x saved1] eqn:Hx.
    specialize (IH (tl old) saved1).
    destruct (decode_elems dec zero (tl old) vs saved1) as [xs saved2].
    cbn [snd] in *. rewrite IH.
    specialize (Hdec (hd zero old) v saved). rewrite Hx in Hdec.
    cbn [snd] in Hdec. rewrite Hdec, andb_true_iff. naive_solver.
Qed.

Lemma decode_slice_decides {A} (dec : decoder A) fits zero type :
  decides dec fits →
  decides (decode_slice dec zero type) (fits_slice fits).
Proof.
  intros Hdec dst v saved. unfold decode_slice.
  destruct v as [| b | l | s | [|v vs] | ms]; cbn [fits_slice];
    try (destruct saved; cbn; naive_solver).
  pose proof (decode_elems_decides dec fits zero Hdec (v :: vs)
                (backing dst) saved) as Helems.
  destruct (decode_elems dec zero (backing dst) (v :: vs) saved).
  done.
Qed.

Lemma decode_ptr_decides {A} (dec : decoder A) fits zero :
  decides dec fits → fits Null = true →
  decides (decode_ptr dec zero) fits.
Proof.
  intros Hdec Hnull dst v saved. unfold decode_ptr.
  specialize (Hdec (default zero dst) v saved).
  destruct (dec (default zero dst) v saved).
  destruct v; try done. cbn. rewrite Hnull. naive_solver.
Qed.

Lemma field_decides {T A} (get : T → A) (set : T → A → T) dec fits :
  decides dec fits → decides (field get set dec) fits.
Proof.
  intros Hdec dst v saved. unfold field.
  specialize (Hdec (get dst) v saved). by destruct (dec _ v saved).
Qed.

(** *** The field that a key names *)

Lemma find_field_None {F} (fields : list (string * F)) key :
  find_field fields key = None ↔ names_any fields key = false.
Proof.
  unfold find_field, names_any.
  destruct (List.find (fun f => String.eqb (fst f) key) fields)
    as [f|] eqn:Hexact.
  - apply find_some in Hexact as [Hin <-%String.eqb_eq].
    split; [done|]. intros Hnone.
    assert (existsb (fun g => spec.names (fst g) (fst f)) fields = true)
      as Hsome; [|congruence].
    apply existsb_exists. exists f. split; [done|].
    unfold spec.names. apply String.eqb_refl.
  - clear Hexact.
    destruct (List.find _ fields) as [f|] eqn:Hfold.
    + apply find_some in Hfold as [Hin Heq].
      split; [done|]. intros Hnone.
      assert (existsb (fun f => spec.names (fst f) key) fields = true)
        as Hsome; [|congruence].
      apply existsb_exists. by exists f.
    + split; [|done]. intros _.
      destruct (existsb _ fields) eqn:Hany; [|done].
      apply existsb_exists in Hany as (f & Hin & Hname).
      pose proof (find_none _ _ Hfold f Hin) as Hf. cbn beta in Hf.
      unfold spec.names in Hname. congruence.
Qed.

Lemma find_field_Some {F} (fields : list (string * F)) key f :
  find_field fields key = Some f → ∃ name, (name, f) ∈ fields.
Proof.
  unfold find_field.
  destruct (List.find (fun f => String.eqb (fst f) key) fields)
    as [[n g]|] eqn:Hexact.
  - intros [= <-]. apply find_some in Hexact as [Hin _].
    exists n. by apply list_elem_of_In.
  - clear Hexact.
    destruct (List.find _ fields) as [[n g]|] eqn:Hfold; [|done].
    intros [= <-]. apply find_some in Hfold as [Hin _].
    exists n. by apply list_elem_of_In.
Qed.

(** A struct whose fields are all decided by [fits]. *)
Lemma decode_member_decides {T} (fields : list (string * decoder T)) fits :
  Forall (fun f => decides (snd f) fits) fields →
  ∀ acc m,
    snd (decode_member fields acc m) = None
    ↔ snd acc = None
      ∧ (negb (names_any fields (fst m)) || fits (snd m)) = true.
Proof.
  intros Hfields acc m. unfold decode_member.
  destruct (find_field fields (fst m)) as [f|] eqn:Hfind.
  - assert (names_any fields (fst m) = true) as ->.
    { destruct (names_any fields (fst m)) eqn:Hany; [done|].
      apply find_field_None in Hany. congruence. }
    apply find_field_Some in Hfind as [name Hin].
    rewrite Forall_forall in Hfields. apply (Hfields _ Hin).
  - apply find_field_None in Hfind as ->. cbn. naive_solver.
Qed.

Lemma fold_members_decides {T} (step : T * option Error → string * value
                                       → T * option Error) fits :
  (∀ acc m, snd (step acc m) = None ↔ snd acc = None ∧ fits m = true) →
  ∀ members acc,
    snd (fold_left step members acc) = None
    ↔ snd acc = None ∧ forallb fits members = true.
Proof.
  intros Hstep. induction members as [|m members IH]; intros acc.
  - cbn. naive_solver.
  - cbn [fold_left forallb]. rewrite IH, Hstep, andb_true_iff. naive_solver.
Qed.

Lemma decode_strings_decides {T} (fields : list (string * decoder T)) type :
  Forall (fun f => decides (snd f) fits_string) fields →
  decides (decode_struct fields type) (fits_strings fields).
Proof.
  intros Hfields dst v saved. unfold decode_struct.
  destruct v; cbn [fits_strings]; try (destruct saved; cbn; naive_solver).
  rewrite (fold_members_decides _
             (fun m => negb (names_any fields (fst m)) || fits_string (snd m))).
  - done.
  - by apply decode_member_decides.
Qed.

Lemma decode_SearchResult_decides :
  decides decode_SearchResult (fits_strings SearchResult_fields).
Proof.
  apply decode_strings_decides. unfold SearchResult_fields.
  repeat (constructor; [apply field_decides, decode_string_decides|]).
  constructor.
Qed.

Lemma decode_Results_decides :
  decides decode_Results (fits_slice (fits_strings SearchResult_fields)).
Proof.
  apply decode_slice_decides, decode_ptr_decides; [|done].
  apply decode_SearchResult_decides.
Qed.

Lemma decode_Suggestions_decides :
  decides decode_Suggestions (fits_slice fits_string).
Proof. apply decode_slice_decides, decode_string_decides. Qed.

Lemma response_member_decides acc m :
  snd (decode_member SearchResponse_fields acc m) = None
  ↔ snd acc = None ∧ fits_member m = true.
Proof.
  unfold fits_member.
  destruct (spec.names_results m) eqn:Hres.
  - assert (spec.names_suggestions m = false) as ->.
    { unfold spec.names_results, spec.names_suggestions, spec.names in *.
      apply String.eqb_eq in Hres. rewrite <- Hres. reflexivity. }
    rewrite names_results_member by done. cbn [negb orb andb].
    rewrite andb_true_r.
    apply (field_decides _ _ _ _ decode_Results_decides).
  - destruct (spec.names_suggestions m) eqn:Hsug.
    + rewrite names_suggestions_member by done. cbn [negb orb andb].
      apply (field_decides _ _ _ _ decode_Suggestions_decides).
    + rewrite names_no_field by done. cbn. naive_solver.
Qed.

(** Decoding fails exactly on the values that do not have the
    expected shape. *)
Lemma decode_SearchResponse_decides :
  decides decode_SearchResponse fits_response.
Proof.
  intros dst v saved. unfold decode_SearchResponse, decode_struct.
  destruct v; cbn [fits_response]; try (destruct saved; cbn; naive_solver).
  rewrite (fold_members_decides _ fits_member); [done|].
  apply response_member_decides.
Qed.

End shape_facts.

(** ** Bodies without the expected fields *)

(** C10, as amended: a body that is the JSON literal [null], or a JSON
    object none of whose keys names [results] or [suggestions], the
    empty object for one, is no error: [Search] returns a response
    that is not nil, with nil [Results] and nil [Suggestions].  In an
    object without a key for [results], [Results] is nil whenever
    [Search] succeeds.  A well-formed body is an error exactly when it
    has not the expected shape: the value is neither [null] nor an
    object, or a member that names a field holds a value of the wrong
    kind; never because a field is absent. *)
Theorem Search_absent_fields (net : http.RoundTripper) (c : searxng.Client)
    (query : string) (opts : option searxng.SearchOptions)
    (req : http.Request) (resp : http.Response) :
  spec.request c query opts = inl req →
  net req = inl resp →
  http.read_error (http.Body_ resp) = None →
  let result := fst (http.run (searxng.Search net c query opts)) in
  let data := http.data (http.Body_ resp) in
  (json.parse data = Some json.Null →
   result = (Some searxng.zero_SearchResponse, None))
  ∧ (∀ members,
       json.parse data = Some (json.Object members) →
       Forall (fun m => spec.names_results m = false
                        ∧ spec.names_suggestions m = false) members →
       result = (Some searxng.zero_SearchResponse, None))
  ∧ (∀ members r,
       json.parse data = Some (json.Object members) →
       Forall (fun m => spec.names_results m = false) members →
       result = (Some r, None) →
       searxng.Results r = json.nil_slice)
  ∧ (∀ v, json.parse data = Some v →
          (snd result = None ↔ shape.fits_response v = true))
  ∧ json.parse "null" = Some json.Null
  ∧ json.parse "{}" = Some (json.Object [])
  ∧ searxng.zero_SearchResponse
    = searxng.mkSearchResponse json.nil_slice json.nil_slice.
Proof.
  intros Hreq Hnet Hread. cbn zeta. rewrite Search_run, Hreq, Hnet.
  cbn [fst]. split_and!; try reflexivity.
  - intros Hparse. by rewrite (body_outcome_parsed _ _ Hread Hparse).
  - intros members Hparse Hnone.
    rewrite (body_outcome_parsed _ _ Hread Hparse). cbn.
    by rewrite no_field_members.
  - intros members r Hparse Hnone.
    rewrite (body_outcome_parsed _ _ Hread Hparse). cbn.
    pose proof (other_members_keep_Results members
                  (searxng.zero_SearchResponse, None) Hnone) as Hkeep.
    destruct (fold_left _ members _) as [r' [e|]]; [done|].
    intros [= <-]. apply Hkeep.
  - intros v Hparse. rewrite (body_outcome_parsed _ _ Hread Hparse).
    pose proof (decode_SearchResponse_decides searxng.zero_SearchResponse v
                  None) as Hfits.
    destruct (searxng.decode_SearchResponse _ v None) as [r [e|]];
      cbn [snd] in *; naive_solver.
Qed.

Lemma Search_absent_fields_witness :
  fst (http.run
         (searxng.Search (spec.always (spec.sample_response 200 "{}"))
            (searxng.NewClient "http://localhost:8080") "golang" None))
  = (Some searxng.zero_SearchResponse, None)
  ∧ fst (http.run
           (searxng.Search (spec.always (spec.sample_response 200 "null"))
              (searxng.NewClient "http://localhost:8080") "golang" None))
    = (Some searxng.zero_SearchResponse, None).
Proof.
  split.
  - edestruct (Search_absent_fields
                 (spec.always (spec.sample_response 200 "{}"))
                 (searxng.NewClient "http://localhost:8080") "golang" None)
      as (_ & Hobject & _); [reflexivity..|].
    apply (Hobject []); [reflexivity|constructor].
  - edestruct (Search_absent_fields
                 (spec.always (spec.sample_response 200 "null"))
                 (searxng.NewClient "http://localhost:8080") "golang" None)
      as (Hnull & _); [reflexivity..|].
    apply Hnull. reflexivity.
Defined.

(** C10, as it was stated, fails: the body [{'suggestions':['a']}]
    (with double quotes) is a JSON object without the key [results];
    [Search] succeeds on it, and [Suggestions] is not nil.  The body
    [{'suggestions':5}] is another; on it [Search] fails. *)
Lemma Search_absent_results_counterexample :
  let search body :=
    fst (http.run
           (searxng.Search (spec.always (spec.sample_response 200 body))
              (searxng.NewClient "http://localhost:8080") "golang" None)) in
  json.parse (spec.dq "{'suggestions':['a']}")
  = Some (json.Object [("suggestions", json.Array [json.Str "a"])])
  ∧ search (spec.dq "{'suggestions':['a']}")
    = (Some (searxng.mkSearchResponse json.nil_slice (json.mkSlice ["a"] [])),
       None)
  ∧ search (spec.dq "{'suggestions':['a']}")
    ≠ (Some (searxng.mkSearchResponse json.nil_slice json.nil_slice), None)
  ∧ json.parse (spec.dq "{'suggestions':5}")
    = Some (json.Object [("suggestions", json.Number "5")])
  ∧ search (spec.dq "{'suggestions':5}")
    = (None, Some (ErrJSON (json.UnmarshalTypeError "number" "[]string"))).
Proof.
  cbn zeta. split_and!; try (vm_compute; reflexivity).
  vm_compute. discriminate.
Qed.

(** * Further properties *)

(** ** The query string, read back *)

Section query_round_trip.
Import strings searxng behaviour.

Lemma unescape_percent (h1 h2 : ascii) (t : string) :
  url.unescape (String "%" (String h1 (String h2 t))) url.encodeQueryComponent
  = if url.ishex h1 && url.ishex h2 then
      match url.unescape t url.encodeQueryComponent with
      | inl r =>
          inl (String
                 (ascii_of_N (N.lor (N.shiftl (url.unhex h1) 4) (url.unhex h2)))
                 r)
      | inr e => inr e
      end
    else inr (url.EscapeError
                (String "%" (String h1 (String h2 EmptyString)))).
Proof.
  cbn [url.unescape]. change (byte_eqb "%" "%") with true. cbn match.
  destruct (url.ishex h1 && url.ishex h2); reflexivity.
Qed.

Lemma unescape_plus (t : string) :
  url.unescape (String "+" t) url.encodeQueryComponent
  = match url.unescape t url.encodeQueryComponent with
    | inl r => inl (String " " r)
    | inr e => inr e
    end.
Proof. reflexivity. Qed.

Lemma unescape_plain (c : ascii) (t : string) :
  byte_eqb c "%" = false → byte_eqb c "+" = false →
  url.unescape (String c t) url.encodeQueryComponent
  = match url.unescape t url.encodeQueryComponent with
    | inl r => inl (String c r)
    | inr e => inr e
    end.
Proof. intros H1 H2. cbn [url.unescape]. rewrite H1, H2. reflexivity. Qed.

Lemma hex_round_trip (c : ascii) :
  url.ishex (url.upperhex (N.shiftr (byte_of c) 4))
  && url.ishex (url.upperhex (N.land (byte_of c) 15)) = true
  ∧ ascii_of_N
      (N.lor (N.shiftl (url.unhex (url.upperhex (N.shiftr (byte_of c) 4))) 4)
         (url.unhex (url.upperhex (N.land (byte_of c) 15)))) = c.
Proof.
  destruct c as [[] [] [] [] [] [] [] []]; vm_compute; split; reflexivity.
Qed.

Lemma unescaped_not_special (c : ascii) :
  url.shouldEscape c url.encodeQueryComponent = false →
  byte_eqb c "%" = false ∧ byte_eqb c "+" = false.
Proof.
  destruct c as [[] [] [] [] [] [] [] []]; vm_compute; intros H; split;
    first [reflexivity | discriminate H].
Qed.

Lemma unescape_escaped_byte (c : ascii) (t : string) :
  url.unescape (url.QueryEscape (String c EmptyString) +:+ t)
    url.encodeQueryComponent
  = match url.unescape t url.encodeQueryComponent with
    | inl r => inl (String c r)
    | inr e => inr e
    end.
Proof.
  unfold url.QueryEscape. cbn [url.escape].
  change (url.encoding_eqb url.encodeQueryComponent url.encodeQueryComponent)
    with true.
  rewrite andb_true_r.
  destruct (byte_eqb c " ") eqn:Hspace.
  - unfold byte_eqb in Hspace. apply Ascii.eqb_eq in Hspace as ->.
    rewrite append_cons, append_nil_l. apply unescape_plus.
  - destruct (url.shouldEscape c url.encodeQueryComponent) eqn:Hesc.
    + rewrite !append_cons, append_nil_l, unescape_percent.
      destruct (hex_round_trip c) as [-> ->]. reflexivity.
    + rewrite append_cons, append_nil_l.
      destruct (unescaped_not_special c Hesc) as [H1 H2].
      by apply unescape_plain.
Qed.

Lemma QueryUnescape_QueryEscape (s : string) :
  QueryUnescape (url.QueryEscape s) = inl s.
Proof.
  unfold QueryUnescape, url.QueryEscape. induction s as [|c s IH].
  - reflexivity.
  - rewrite escape_cons. fold (url.QueryEscape (String c EmptyString)).
    rewrite unescape_escaped_byte, IH. reflexivity.
Qed.

Lemma read_pairs_Encode (v : url.Values) :
  map read_pair (spec.query_pairs (url.Encode v))
  = map meant (spec.params_of v).
Proof.
  rewrite query_pairs_Encode, map_map. apply map_ext. intros [k x].
  unfold read_pair, meant. cbn [fst snd].
  by rewrite !QueryUnescape_QueryEscape.
Qed.

End query_round_trip.

(** X1: whatever the query and the options hold, a service that
    splits the query string of the search URL at [&] and [=] and
    unescapes the pieces reads back exactly the parameters that
    [Search] set, each once and with the value it was given, the
    query among them: escaping loses nothing and adds nothing. *)
Theorem query_string_round_trip (base : url.URL) (query : string)
    (opts : option searxng.SearchOptions) :
  let q := url.RawQuery (searxng.search_URL base query opts) in
  map behaviour.read_pair (spec.query_pairs q)
  = map behaviour.meant (spec.expected_params query opts)
  ∧ behaviour.meant ("q", query)
    ∈ map behaviour.read_pair (spec.query_pairs q)
  ∧ ∀ s, behaviour.QueryUnescape (url.QueryEscape s) = inl s.
Proof.
  cbn zeta. rewrite RawQuery_search_URL, read_pairs_Encode,
    params_of_search_params.
  split_and!; [done| |apply QueryUnescape_QueryEscape].
  apply list_elem_of_fmap. exists ("q", query). split; [done|].
  destruct (expected_params_format_q query opts)
    as (before & between & ->).
  set_solver.
Qed.

(** X2: the query string of the search URL is made of ASCII letters,
    digits and the bytes [-_.~%+&=] only, whatever bytes the query and
    the options hold: no [#], [?], [/] or space, no control byte and
    no byte outside ASCII can end the query string early or break the
    request line. *)
Theorem query_string_bytes (base : url.URL) (query : string)
    (opts : option searxng.SearchOptions) :
  let q := url.RawQuery (searxng.search_URL base query opts) in
  strings.all_bytes spec.query_byte q = true
  ∧ (∀ c, spec.query_byte c = false → spec.free_of c q)
  ∧ spec.free_of "#" q ∧ spec.free_of "?" q ∧ spec.free_of "/" q
  ∧ spec.free_of " " q
  ∧ url.stringContainsCTLByte q = false
  ∧ strings.all_bytes (fun c => (strings.byte_of c <? 128)%N) q = true.
Proof.
  cbn zeta. rewrite RawQuery_search_URL.
  pose proof (Encode_query_bytes (searxng.search_params query opts)) as Hq.
  split_and!; try (by apply query_bytes_free).
  - done.
  - intros c Hc. by apply query_bytes_free.
  - unfold url.stringContainsCTLByte.
    by rewrite (query_bytes_not_CTL _ Hq).
  - revert Hq. apply all_bytes_impl.
    intros [[] [] [] [] [] [] [] []]; vm_compute; congruence.
Qed.

(** ** The base URL *)

Section base_URL.
Import strings searxng behaviour.

Lemma JoinPath_RawQuery (u : url.URL) (x : string) (elem : list string) :
  url.JoinPath (url.with_RawQuery u x) elem
  = url.with_RawQuery (url.JoinPath u elem) x.
Proof.
  unfold url.JoinPath.
  change (url.EscapedPath (url.with_RawQuery u x)) with (url.EscapedPath u).
  set (p := if HasSuffix _ _ && _ then _ else _). clearbody p.
  unfold url.setPath. by destruct (url.unescape p url.encodePath).
Qed.

Lemma JoinPath_keeps (u : url.URL) (elem : list string) :
  url.Scheme (url.JoinPath u elem) = url.Scheme u
  ∧ url.Opaque (url.JoinPath u elem) = url.Opaque u
  ∧ url.User (url.JoinPath u elem) = url.User u
  ∧ url.Host (url.JoinPath u elem) = url.Host u
  ∧ url.Fragment (url.JoinPath u elem) = url.Fragment u.
Proof.
  unfold url.JoinPath.
  set (p := if HasSuffix _ _ && _ then _ else _). clearbody p.
  unfold url.setPath. by destruct (url.unescape p url.encodePath).
Qed.

End base_URL.

(** X3: a query string that the base URL carries is dropped: the
    search URL is the same as for the base URL without it, since
    [RawQuery] is overwritten with the encoded parameters.  The
    scheme, the host, the user and the fragment of the base URL are
    kept.  So [http://localhost:8080/?token=abc] as base gives the
    request of [http://localhost:8080/]. *)
Theorem base_query_dropped (u : url.URL) (x query : string)
    (opts : option searxng.SearchOptions) :
  searxng.search_URL (url.with_RawQuery u x) query opts
  = searxng.search_URL u query opts
  ∧ url.Scheme (searxng.search_URL u query opts) = url.Scheme u
  ∧ url.User (searxng.search_URL u query opts) = url.User u
  ∧ url.Host (searxng.search_URL u query opts) = url.Host u
  ∧ url.Fragment (searxng.search_URL u query opts) = url.Fragment u
  ∧ spec.request (searxng.NewClient "http://localhost:8080/?token=abc")
      query opts
    = spec.request (searxng.NewClient "http://localhost:8080/") query opts.
Proof.
  assert (searxng.search_URL (url.with_RawQuery u x) query opts
          = searxng.search_URL u query opts) as Hdrop.
  { unfold searxng.search_URL. rewrite JoinPath_RawQuery. reflexivity. }
  destruct (JoinPath_keeps u ["search"]) as (? & ? & ? & ? & ?).
  split_and!; done.
Qed.

Section trailing_slash.
Import strings searxng behaviour.

Lemma is_empty_append (a b : string) :
  is_empty (a +:+ b) = is_empty a && is_empty b.
Proof. by destruct a. Qed.

Lemma JoinPath_no_path sch opq usr host omit force rq frag rfrag :
  url.JoinPath
    (url.mkURL sch opq usr host "" "" omit force rq frag rfrag) ["search"]
  = url.mkURL sch opq usr host "search" "" omit force rq frag rfrag.
Proof. vm_compute. reflexivity. Qed.

Lemma JoinPath_root_path sch opq usr host omit force rq frag rfrag :
  url.JoinPath
    (url.mkURL sch opq usr host "/" "" omit force rq frag rfrag) ["search"]
  = url.mkURL sch opq usr host "/search" "" omit force rq frag rfrag.
Proof. vm_compute. reflexivity. Qed.

Lemma String_slash_search sch opq usr host omit force rq frag rfrag :
  host ≠ EmptyString →
  url.String_
    (url.mkURL sch opq usr host "search" "" omit force rq frag rfrag)
  = url.String_
      (url.mkURL sch opq usr host "/search" "" omit force rq frag rfrag).
Proof.
  intros Hhost. destruct host as [|h host]; [done|].
  unfold url.String_.
  cbn [url.Scheme url.Opaque url.User url.Host url.Path url.RawPath
       url.OmitHost url.ForceQuery url.RawQuery url.Fragment url.RawFragment
       url.has_user].
  change (url.EscapedPath (url.mkURL sch opq usr (String h host) "search" ""
            omit force rq frag rfrag)) with "search".
  change (url.EscapedPath (url.mkURL sch opq usr (String h host) "/search" ""
            omit force rq frag rfrag)) with "/search".
  change (url.EscapedFragment (url.mkURL sch opq usr (String h host) "search"
            "" omit force rq frag rfrag))
    with (url.EscapedFragment (url.mkURL sch opq usr (String h host) "/search"
            "" omit force rq frag rfrag)).
  cbn [is_empty negb andb orb HasPrefix String.prefix url.User].
  change (match ascii_dec "/" "s" with left _ => true | right _ => false end)
    with false.
  rewrite ?orb_true_r, ?andb_false_r. cbn [negb andb orb].
  destruct opq as [|o opq]; cbn [is_empty negb]; [|reflexivity].
  change (match ascii_dec "/" "/" with left _ => true | right _ => false end)
    with true.
  cbn [negb andb]. rewrite !(append_assoc _ "/" "search").
  reflexivity.
Qed.

End trailing_slash.

(** X4: a base URL with a host and no path, and the same base URL with
    the path [/], give the same search URL text and so the same
    request: a slash at the end of [http://host] makes no
    difference. *)
Theorem base_trailing_slash (u : url.URL) (query : string)
    (opts : option searxng.SearchOptions) :
  url.Path u = EmptyString → url.RawPath u = EmptyString →
  url.Host u ≠ EmptyString →
  url.String_ (searxng.search_URL u query opts)
  = url.String_ (searxng.search_URL (behaviour.with_Path u "/") query opts)
  ∧ ∀ c c',
      url.Parse (searxng.baseURL c) = inl u →
      url.Parse (searxng.baseURL c') = inl (behaviour.with_Path u "/") →
      spec.request c query opts = spec.request c' query opts.
Proof.
  intros Hpath Hraw Hhost.
  assert (url.String_ (searxng.search_URL u query opts)
          = url.String_
              (searxng.search_URL (behaviour.with_Path u "/") query opts))
    as Hsame.
  { destruct u as [sch opq usr host path raw omit force rq frag rfrag].
    cbn in Hpath, Hraw, Hhost. subst path raw.
    unfold searxng.search_URL, behaviour.with_Path.
    cbn [url.Scheme url.Opaque url.User url.Host url.Path url.RawPath
         url.OmitHost url.ForceQuery url.RawQuery url.Fragment
         url.RawFragment].
    rewrite JoinPath_no_path, JoinPath_root_path.
    by apply String_slash_search. }
  split; [done|]. intros c c' Hc Hc'.
  unfold spec.request. by rewrite Hc, Hc', Hsame.
Qed.

Lemma base_trailing_slash_witness :
  url.String_
    (searxng.search_URL
       (url.mkURL "http" "" None "localhost:8080" "" "" false false "" "" "")
       "golang" None)
  = url.String_
      (searxng.search_URL
         (url.mkURL "http" "" None "localhost:8080" "/" "" false false "" ""
            "") "golang" None)
  ∧ spec.request (searxng.NewClient "http://localhost:8080") "golang" None
    = spec.request (searxng.NewClient "http://localhost:8080/") "golang" None.
Proof.
  destruct (base_trailing_slash
              (url.mkURL "http" "" None "localhost:8080" "" "" false false
                 "" "" "") "golang" None) as [Hsame Hreq];
    [reflexivity| reflexivity | discriminate |].
  split; [exact Hsame|]. apply Hreq; vm_compute; reflexivity.
Defined.

(** ** The calls to the network *)

Section network_calls.
Import strings searxng behaviour.

Lemma request_error (c : Client) (query : string)
    (opts : option SearchOptions) (err : error) :
  spec.request c query opts = inr err →
  (∃ cause, err = ErrInvalidBaseURL cause
            ∧ url.Parse (baseURL c) = inr cause)
  ∨ (∃ e base, err = ErrURL e ∧ url.Parse (baseURL c) = inl base
               ∧ url.Parse (url.String_ (search_URL base query opts))
                 = inr e).
Proof.
  unfold spec.request.
  destruct (url.Parse (baseURL c)) as [base|cause] eqn:Hbase.
  - unfold http.NewRequest, http.MethodGet.
    change (negb (http.validMethod (if is_empty "GET" then "GET" else "GET")))
      with false. cbv iota.
    destruct (url.Parse (url.String_ (search_URL base query opts)))
      as [u|e] eqn:Hu; [done|].
    intros [= <-]. right. by exists e, base.
  - intros [= <-]. left. by exists cause.
Qed.

End network_calls.

(** X5: the error that [Search] returns tells how far the call went.
    An invalid-base-URL error or a URL error means that nothing was
    sent; a transport error is the one of the single request sent, and
    then nothing was read or closed; a read error and a JSON error come
    after a response arrived, whose body was read once and closed all
    the same.  The method is never the cause of an error, and the
    response is nil in every case. *)
Theorem Search_error_stage (net : http.RoundTripper) (c : searxng.Client)
    (query : string) (opts : option searxng.SearchOptions) (err : error) :
  snd (fst (http.run (searxng.Search net c query opts))) = Some err →
  fst (fst (http.run (searxng.Search net c query opts))) = None
  ∧ match err with
    | ErrInvalidBaseURL cause =>
        url.Parse (searxng.baseURL c) = inr cause
        ∧ snd (http.run (searxng.Search net c query opts)) = []
    | ErrURL e =>
        (∃ base, url.Parse (searxng.baseURL c) = inl base
                 ∧ url.Parse
                     (url.String_ (searxng.search_URL base query opts))
                   = inr e)
        ∧ snd (http.run (searxng.Search net c query opts)) = []
    | ErrInvalidMethod _ => False
    | ErrTransport msg =>
        ∃ req, spec.request c query opts = inl req ∧ net req = inr msg
               ∧ snd (http.run (searxng.Search net c query opts))
                 = [http.EvDo req]
    | ErrRead msg =>
        ∃ req resp,
          spec.request c query opts = inl req ∧ net req = inl resp
          ∧ http.read_error (http.Body_ resp) = Some msg
          ∧ snd (http.run (searxng.Search net c query opts))
            = [http.EvDo req; http.EvReadAll; http.EvClose]
    | ErrJSON e =>
        ∃ req resp,
          spec.request c query opts = inl req ∧ net req = inl resp
          ∧ http.read_error (http.Body_ resp) = None
          ∧ snd (json.Unmarshal searxng.decode_SearchResponse
                   (http.data (http.Body_ resp)) searxng.zero_SearchResponse)
            = Some e
          ∧ snd (http.run (searxng.Search net c query opts))
            = [http.EvDo req; http.EvReadAll; http.EvClose]
    end.
Proof.
  rewrite Search_run.
  destruct (spec.request c query opts) as [req|err'] eqn:Hreq.
  - destruct (net req) as [resp|msg] eqn:Hnet; cbn [fst snd].
    + unfold spec.body_outcome.
      destruct (http.read_error (http.Body_ resp)) as [msg|] eqn:Hread;
        cbn [fst snd].
      * intros [= <-]. split; [done|]. by exists req, resp.
      * destruct (json.Unmarshal _ _ _) as [r [e|]] eqn:Hjson;
          cbn [fst snd]; [|done].
        intros [= <-]. split; [done|]. exists req, resp.
        by rewrite Hjson.
    + intros [= <-]. split; [done|]. by exists req.
  - cbn [fst snd]. intros [= <-]. split; [done|].
    destruct (request_error _ _ _ _ Hreq)
      as [(cause & -> & Hparse)|(e & base & -> & Hbase & Hparse)].
    + done.
    + split; [|done]. by exists base.
Qed.

Lemma Search_error_stage_witness :
  fst (fst (http.run
              (searxng.Search (behaviour.refuses "connection refused")
                 (searxng.NewClient "http://localhost:8080") "golang" None)))
  = None
  ∧ ∃ req,
      spec.request (searxng.NewClient "http://localhost:8080") "golang" None
      = inl req
      ∧ behaviour.refuses "connection refused" req
        = inr "connection refused"
      ∧ snd (http.run
               (searxng.Search (behaviour.refuses "connection refused")
                  (searxng.NewClient "http://localhost:8080") "golang" None))
        = [http.EvDo req].
Proof.
  apply (Search_error_stage (behaviour.refuses "connection refused")
           (searxng.NewClient "http://localhost:8080") "golang" None
           (ErrTransport "connection refused")).
  vm_compute. reflexivity.
Defined.

(** X6: a call of [Search] sends at most one request, the one built
    from the base URL, the query and the options, and never retries.
    The body of the response is read and closed exactly when a
    response arrived, once each, the close coming last; without a
    response nothing is read or closed. *)
Theorem Search_one_request_body_closed (net : http.RoundTripper)
    (c : searxng.Client) (query : string)
    (opts : option searxng.SearchOptions) :
  let log := snd (http.run (searxng.Search net c query opts)) in
  (length (List.filter behaviour.is_Do log) ≤ 1)%nat
  ∧ (∀ req, http.EvDo req ∈ log → spec.request c query opts = inl req)
  ∧ (http.EvClose ∈ log
     ↔ ∃ req resp, spec.request c query opts = inl req ∧ net req = inl resp)
  ∧ (http.EvReadAll ∈ log ↔ http.EvClose ∈ log)
  ∧ (http.EvClose ∈ log → last log = Some http.EvClose)
  ∧ length (List.filter behaviour.is_ReadAll log)
    = length (List.filter behaviour.is_Close log)
  ∧ (length (List.filter behaviour.is_Close log) ≤ 1)%nat.
Proof.
  cbn zeta. rewrite Search_run.
  destruct (spec.request c query opts) as [req|err] eqn:Hreq;
    [destruct (net req) as [resp|msg] eqn:Hnet|]; cbn [fst snd];
    (split_and!;
     [ cbn; lia
     | intros req' Hin; set_solver
     | split;
       [ first [ by intros _; exists req, resp | set_solver ]
       | first [ set_solver
               | intros (req' & resp' & Hreq' & Hresp); congruence ] ]
     | set_solver
     | first [ done | set_solver ]
     | reflexivity
     | cbn; lia ]).
Qed.

(** ** The program and its environment *)

(** X7: when [SEARXNG_URL] is set to a text that is no URL, the
    program sends nothing: it ends with the invalid-base-URL error
    that wraps the parse error, and the fallback is not tried. *)
Theorem main_malformed_URL (e : env.environ) (net : http.RoundTripper)
    (value : string) (err : url.Error) :
  e !! "SEARXNG_URL" = Some value →
  url.Parse value = inr err →
  http.run (main.main e net) = ((None, Some (ErrInvalidBaseURL err)), []).
Proof.
  intros Hset Hparse. unfold main.main.
  rewrite GetVar_lookup, Hset. cbn [default].
  rewrite Search_run. unfold spec.request.
  change (searxng.baseURL (searxng.NewClient (id value))) with value.
  by rewrite Hparse.
Qed.

Lemma main_malformed_URL_witness :
  http.run
    (main.main (<["SEARXNG_URL" := "://bad"]> ∅)
       (spec.always (spec.sample_response 200 "{}")))
  = ((None, Some (ErrInvalidBaseURL spec.bad_URL_error)), []).
Proof.
  apply (main_malformed_URL _ _ "://bad").
  - vm_compute. reflexivity.
  - vm_compute. reflexivity.
Defined.

(** X8: a [SEARXNG_URL] that is set wins over the fallback, also when
    it is set to the empty text: the program then searches with the
    empty base URL, and the request it builds is for the relative URL
    [search?format=json&q=golang], without scheme and without host. *)
Theorem main_uses_the_variable (e : env.environ) (net : http.RoundTripper)
    (value : string) :
  e !! "SEARXNG_URL" = Some value →
  main.main e net
  = searxng.Search net (searxng.NewClient value) "golang" None
  ∧ (value = EmptyString →
     ∃ req,
       spec.request
         (searxng.NewClient
            (env.GetVar e "SEARXNG_URL" "http://localhost:8080"))
         "golang" None = inl req
       ∧ url.String_ (http.URL req) = "search?format=json&q=golang"
       ∧ url.Scheme (http.URL req) = EmptyString
       ∧ http.Host req = EmptyString
       ∧ head (snd (http.run (main.main e net))) = Some (http.EvDo req)).
Proof.
  intros Hset. unfold main.main. rewrite GetVar_lookup, Hset. cbn [default].
  split; [done|]. intros ->.
  exists (http.mkRequest "GET"
            (url.mkURL "" "" None "" "search" "" false false
               "format=json&q=golang" "" "") "").
  split_and!; [vm_compute; reflexivity..|].
  rewrite Search_run.
  change (spec.request (searxng.NewClient (id "")) "golang" None)
    with (inl (B := error)
            (http.mkRequest "GET"
               (url.mkURL "" "" None "" "search" "" false false
                  "format=json&q=golang" "" "") "")).
  cbv iota beta.
  by destruct (net (http.mkRequest "GET"
                      (url.mkURL "" "" None "" "search" "" false false
                         "format=json&q=golang" "" "") "")).
Qed.

Lemma main_uses_the_variable_witness :
  main.main (<["SEARXNG_URL" := ""]> ∅)
    (spec.always (spec.sample_response 200 "{}"))
  = searxng.Search (spec.always (spec.sample_response 200 "{}"))
      (searxng.NewClient "") "golang" None.
Proof.
  apply (main_uses_the_variable (<["SEARXNG_URL" := ""]> ∅)
           (spec.always (spec.sample_response 200 "{}")) "").
  vm_compute. reflexivity.
Defined.

(** X9: what [GetVar] gives for a variable does not depend on the
    other variables of the environment: setting or unsetting another
    one changes nothing. *)
Theorem GetVar_other_variable (e : env.environ)
    (key other value fallback : string) :
  other ≠ key →
  env.GetVar (<[other := value]> e) key fallback = env.GetVar e key fallback
  ∧ env.GetVar (delete other e) key fallback = env.GetVar e key fallback.
Proof.
  intros Hother. rewrite !GetVar_lookup.
  by rewrite lookup_insert_ne, lookup_delete_ne.
Qed.

Lemma GetVar_other_variable_witness :
  env.GetVar (<["HOME" := "/root"]> ∅) "SEARXNG_URL" "http://localhost:8080"
  = env.GetVar ∅ "SEARXNG_URL" "http://localhost:8080"
  ∧ env.GetVar (delete "HOME" ∅) "SEARXNG_URL" "http://localhost:8080"
    = env.GetVar ∅ "SEARXNG_URL" "http://localhost:8080".
Proof.
  apply (GetVar_other_variable ∅ "SEARXNG_URL" "HOME" "/root"
           "http://localhost:8080").
  discriminate.
Defined.

(** ** Options at the edges *)

Section option_edges.
Import strings searxng behaviour.

Lemma Join_split_name (a b sep : string) (rest : list string) :
  Join ((a +:+ sep +:+ b) :: rest) sep = Join (a :: b :: rest) sep.
Proof.
  destruct rest as [|r rest]; cbn [Join]; [done|].
  by rewrite !append_assoc.
Qed.

Lemma uint_digits (d : Decimal.uint) :
  all_bytes is_digit (NilEmpty.string_of_uint d) = true.
Proof. induction d; cbn [NilEmpty.string_of_uint all_bytes]; by try rewrite IHd. Qed.

Lemma Sprintf_d_digits (n : Z) :
  0 < n → all_bytes is_digit (fmt.Sprintf_d n) = true.
Proof.
  intros Hn. destruct n as [|p|p]; try lia.
  unfold fmt.Sprintf_d. cbn [Z.to_int NilZero.string_of_int].
  unfold NilZero.string_of_uint.
  destruct (Pos.to_uint p) eqn:Hp; try (rewrite <- Hp; apply uint_digits).
  reflexivity.
Qed.

Lemma digits_unreserved (s : string) :
  all_bytes is_digit s = true →
  all_bytes (fun a => is_alnum a || one_of "-_.~" a) s = true.
Proof.
  apply all_bytes_impl. intros c Hc. unfold is_alnum. by rewrite Hc, orb_true_r.
Qed.

Lemma query_pair_sent (base : url.URL) (query : string)
    (opts : option SearchOptions) (p : string * string) :
  p ∈ spec.expected_params query opts →
  (fst p, url.QueryEscape (snd p))
  ∈ spec.query_pairs (url.RawQuery (search_URL base query opts)).
Proof.
  intros Hp. rewrite query_pairs_search_URL.
  apply list_elem_of_fmap. by exists p.
Qed.

End option_edges.

(** X10: the names of the categories and of the engines are joined
    with commas as they are: a name that holds a comma gives the same
    parameters, and so the same request, as the two names on either
    side of the comma given one after the other. *)
Theorem names_with_commas (query a b : string) (rest others : list string)
    (language : string) (pageNo : Z) :
  searxng.search_params query
    (Some (searxng.mkSearchOptions ((a +:+ "," +:+ b) :: rest) others
             language pageNo))
  = searxng.search_params query
      (Some (searxng.mkSearchOptions (a :: b :: rest) others language pageNo))
  ∧ searxng.search_params query
      (Some (searxng.mkSearchOptions others ((a +:+ "," +:+ b) :: rest)
               language pageNo))
    = searxng.search_params query
        (Some (searxng.mkSearchOptions others (a :: b :: rest) language
                 pageNo)).
Proof.
  unfold searxng.search_params.
  cbn [searxng.Categories searxng.Engines searxng.Language searxng.PageNo
       length Nat.ltb Nat.leb].
  by rewrite !Join_split_name.
Qed.

(** X11: the [categories] and [engines] parameters are sent whenever
    their list is not empty, whatever the names in it are: a list that
    holds one empty name sends the parameter with an empty value. *)
Theorem empty_names_are_sent (base : url.URL) (query : string)
    (o : searxng.SearchOptions) :
  let q := url.RawQuery (searxng.search_URL base query (Some o)) in
  (searxng.Categories o ≠ [] →
   ("categories", url.QueryEscape (strings.Join (searxng.Categories o) ","))
   ∈ spec.query_pairs q)
  ∧ (searxng.Engines o ≠ [] →
     ("engines", url.QueryEscape (strings.Join (searxng.Engines o) ","))
     ∈ spec.query_pairs q)
  ∧ (searxng.Categories o = [EmptyString] →
     ("categories", EmptyString) ∈ spec.query_pairs q)
  ∧ (searxng.Engines o = [EmptyString] →
     ("engines", EmptyString) ∈ spec.query_pairs q).
Proof.
  cbn zeta.
  assert (searxng.Categories o ≠ [] →
          ("categories",
           url.QueryEscape (strings.Join (searxng.Categories o) ","))
          ∈ spec.query_pairs
              (url.RawQuery (searxng.search_URL base query (Some o))))
    as Hcategories.
  { intros Hne.
    apply (query_pair_sent base query (Some o)
             ("categories", strings.Join (searxng.Categories o) ",")).
    unfold spec.expected_params. rewrite bool_decide_false by done.
    cbn [negb spec.optional]. set_solver. }
  assert (searxng.Engines o ≠ [] →
          ("engines", url.QueryEscape (strings.Join (searxng.Engines o) ","))
          ∈ spec.query_pairs
              (url.RawQuery (searxng.search_URL base query (Some o))))
    as Hengines.
  { intros Hne.
    apply (query_pair_sent base query (Some o)
             ("engines", strings.Join (searxng.Engines o) ",")).
    unfold spec.expected_params.
    rewrite (bool_decide_false (searxng.Engines o = [])) by done.
    cbn [negb spec.optional]. set_solver. }
  split_and!; [done|done| |].
  - intros Hone. specialize (Hcategories ltac:(by rewrite Hone)).
    by rewrite Hone in Hcategories.
  - intros Hone. specialize (Hengines ltac:(by rewrite Hone)).
    by rewrite Hone in Hengines.
Qed.

(** X12: a page number above zero is sent as its plain decimal
    digits: the text has digits only, escaping leaves it as it is, and
    the query string carries it under [pageno]. *)
Theorem pageno_plain_decimal (base : url.URL) (query : string)
    (o : searxng.SearchOptions) :
  0 < searxng.PageNo o →
  strings.all_bytes strings.is_digit (fmt.Sprintf_d (searxng.PageNo o)) = true
  ∧ url.QueryEscape (fmt.Sprintf_d (searxng.PageNo o))
    = fmt.Sprintf_d (searxng.PageNo o)
  ∧ ("pageno", fmt.Sprintf_d (searxng.PageNo o))
    ∈ spec.query_pairs
        (url.RawQuery (searxng.search_URL base query (Some o))).
Proof.
  intros Hpage.
  pose proof (Sprintf_d_digits _ Hpage) as Hdigits.
  pose proof (QueryEscape_unreserved _ (digits_unreserved _ Hdigits)) as Hesc.
  split_and!; [done|done|].
  rewrite <- Hesc at 1.
  apply (query_pair_sent base query (Some o)
           ("pageno", fmt.Sprintf_d (searxng.PageNo o))).
  unfold spec.expected_params.
  rewrite (bool_decide_true (0 < searxng.PageNo o)) by done.
  cbn [spec.optional]. set_solver.
Qed.

Lemma pageno_plain_decimal_witness :
  strings.all_bytes strings.is_digit (fmt.Sprintf_d 12) = true
  ∧ url.QueryEscape (fmt.Sprintf_d 12) = fmt.Sprintf_d 12
  ∧ ("pageno", fmt.Sprintf_d 12)
    ∈ spec.query_pairs
        (url.RawQuery
           (searxng.search_URL url.empty_URL "golang"
              (Some (searxng.mkSearchOptions [] [] "" 12)))).
Proof.
  apply (pageno_plain_decimal url.empty_URL "golang"
           (searxng.mkSearchOptions [] [] "" 12)).
  reflexivity.
Defined.

(** ** Members and fields *)

Section struct_members.
Import json strings searxng behaviour shape jsontext.





(** When no two fields have the same name up to case folding, the
    exact match that [find_field] tries first finds nothing that the
    folded match would not. *)
Lemma folded_name_unique {F} (fields : list (string * F)) f g :
  NoDup (map (fun f => foldName (fst f)) fields) →
  In f fields → In g fields → foldName (fst f) = foldName (fst g) → f = g.
Proof.
  induction fields as [|h fields IH]; [done|].
  cbn [map]. intros Hnodup. apply NoDup_cons in Hnodup as [Hnotin Hnodup].
  intros [<-|Hf] [<-|Hg] Heq; try done.
  - exfalso. apply Hnotin. rewrite Heq.
    apply list_elem_of_In, (in_map (fun f => foldName (fst f))), Hg.
  - exfalso. apply Hnotin. rewrite <- Heq.
    apply list_elem_of_In, (in_map (fun f => foldName (fst f))), Hf.
  - by apply IH.
Qed.

Lemma find_field_folded {F} (fields : list (string * F)) key :
  NoDup (map (fun f => foldName (fst f)) fields) →
  find_field fields key
  = option_map snd (List.find (fun f => spec.names (fst f) key) fields).
Proof.
  intros Hnodup. unfold find_field.
  destruct (List.find (fun f => String.eqb (fst f) key) fields)
    as [f|] eqn:Hexact; [|by destruct (List.find _ fields)].
  apply find_some in Hexact as [Hin Hkey%String.eqb_eq].
  destruct (List.find (fun f => spec.names (fst f) key) fields)
    as [g|] eqn:Hfold.
  - apply find_some in Hfold as [Hing Hg%String.eqb_eq].
    cbn [option_map]. f_equal. f_equal.
    apply (folded_name_unique fields); try done. congruence.
  - pose proof (find_none _ _ Hfold f Hin) as Hf. cbn beta in Hf.
    unfold spec.names in Hf. rewrite Hkey, String.eqb_refl in Hf. done.
Qed.

Lemma find_field_same {F} (fields : list (string * F)) key key' :
  NoDup (map (fun f => foldName (fst f)) fields) →
  foldName key = foldName key' →
  find_field fields key = find_field fields key'.
Proof.
  intros Hnodup Hsame. rewrite !find_field_folded by done.
  unfold spec.names. by rewrite Hsame.
Qed.

Lemma fold_same_members {T} (fields : list (string * decoder T)) ms ms' :
  NoDup (map (fun f => foldName (fst f)) fields) →
  Forall2 same_member ms ms' →
  ∀ acc, fold_left (decode_member fields) ms acc
         = fold_left (decode_member fields) ms' acc.
Proof.
  intros Hnodup. induction 1 as [|m m' ms ms' [Hkey Hvalue] _ IH];
    intros acc; [done|].
  cbn [fold_left]. rewrite IH. f_equal. unfold decode_member.
  by rewrite (find_field_same fields _ _ Hnodup Hkey), Hvalue.
Qed.

Lemma SearchResult_fields_distinct :
  NoDup (map (fun f => foldName (fst f)) SearchResult_fields).
Proof.
  change (NoDup ["TITLE"; "URL"; "IMG_SRC"; "THUMBNAIL_SRC"; "THUMBNAIL";
                 "CONTENT"; "AUTHOR"; "IFRAME_SRC"]).
  apply (bool_decide_unpack _). vm_compute. exact I.
Qed.

Lemma SearchResponse_fields_distinct :
  NoDup (map (fun f => foldName (fst f)) SearchResponse_fields).
Proof.
  change (NoDup ["RESULTS"; "SUGGESTIONS"]).
  apply (bool_decide_unpack _). vm_compute. exact I.
Qed.

(** What one member does to a result. *)
Lemma decode_member_stores (dst : SearchResult) saved m :
  fst (decode_member SearchResult_fields (dst, saved) m)
  = mkSearchResult (store "title" (Title dst) m) (store "url" (URL dst) m)
      (store "img_src" (ImgSrc dst) m)
      (store "thumbnail_src" (ThumbnailSrc dst) m)
      (store "thumbnail" (Thumbnail dst) m)
      (store "content" (Content dst) m) (store "author" (Author dst) m)
      (store "iframe_src" (IframeSrc dst) m).
Proof.
  unfold decode_member.
  rewrite (find_field_folded _ _ SearchResult_fields_distinct).
  destruct m as [key v], dst as [t u i ts th co au ifr].
  unfold store, spec.names. cbn [fst snd SearchResult_fields List.find].
  set (k := foldName key). clearbody k.
  repeat lazymatch goal with
    | |- context [String.eqb (foldName ?name) k] =>
        destruct (String.eqb_spec (foldName name) k) as [Hk|_];
        [subst k; vm_compute; by destruct v|]
    end.
  reflexivity.
Qed.

Lemma fold_members_store (ms : list (string * value)) :
  ∀ (dst : SearchResult) saved,
    fst (fold_left (decode_member SearchResult_fields) ms (dst, saved))
    = mkSearchResult (field_value "title" ms (Title dst))
        (field_value "url" ms (URL dst))
        (field_value "img_src" ms (ImgSrc dst))
        (field_value "thumbnail_src" ms (ThumbnailSrc dst))
        (field_value "thumbnail" ms (Thumbnail dst))
        (field_value "content" ms (Content dst))
        (field_value "author" ms (Author dst))
        (field_value "iframe_src" ms (IframeSrc dst)).
Proof.
  induction ms as [|m ms IH]; intros dst saved.
  - by destruct dst.
  - cbn [fold_left]. unfold field_value. cbn [fold_left].
    fold (field_value "title" ms) (field_value "url" ms)
      (field_value "img_src" ms) (field_value "thumbnail_src" ms)
      (field_value "thumbnail" ms) (field_value "content" ms)
      (field_value "author" ms) (field_value "iframe_src" ms).
    pose proof (decode_member_stores dst saved m) as Hm.
    destruct (decode_member SearchResult_fields (dst, saved) m)
      as [dst' saved'].
    cbn [fst] in Hm. rewrite IH, Hm. reflexivity.
Qed.

Lemma result_of_nil (v : value) : spec.result_of v = None ↔ v = Null.
Proof.
  unfold spec.result_of, decode_ptr.
  destruct v; try done;
    by destruct (decode_SearchResult _ _ None).
Qed.

End struct_members.


(** X14: the key of a member names a field whatever the case of its
    letters: two objects whose members have, one by one, the same
    value under keys that are the same up to case folding are decoded
    alike, as a response and as a result.  [RESULTS] and [Img_Src] are
    such keys. *)
Theorem keys_match_in_any_case :
  (∀ dst ms ms' saved,
     Forall2 behaviour.same_member ms ms' →
     searxng.decode_SearchResponse dst (json.Object ms) saved
     = searxng.decode_SearchResponse dst (json.Object ms') saved)
  ∧ (∀ dst ms ms' saved,
       Forall2 behaviour.same_member ms ms' →
       searxng.decode_SearchResult dst (json.Object ms) saved
       = searxng.decode_SearchResult dst (json.Object ms') saved)
  ∧ (∀ key key', json.foldName key = json.foldName key' →
       json.find_field searxng.SearchResponse_fields key
       = json.find_field searxng.SearchResponse_fields key')
  ∧ spec.names "results" "RESULTS" = true
  ∧ spec.names "suggestions" "Suggestions" = true
  ∧ spec.names "img_src" "Img_Src" = true.
Proof.
  split_and!; try reflexivity.
  - intros dst ms ms' saved Hsame.
    apply (fold_same_members _ _ _ SearchResponse_fields_distinct Hsame).
  - intros dst ms ms' saved Hsame.
    apply (fold_same_members _ _ _ SearchResult_fields_distinct Hsame).
  - intros key key'. apply find_field_same, SearchResponse_fields_distinct.
Qed.

(** X15: every field of a result holds the last string that the
    object gives under a key naming the field: a later member
    overwrites an earlier one, and a member that is [null] or no
    string stores nothing.  A field that no member sets keeps what it
    held, which is the empty string in a result decoded on its own. *)
Theorem result_fields_hold_last_string (ms : list (string * json.value))
    (dst : searxng.SearchResult) (saved : option json.Error) :
  fst (searxng.decode_SearchResult dst (json.Object ms) saved)
  = searxng.mkSearchResult
      (behaviour.field_value "title" ms (searxng.Title dst))
      (behaviour.field_value "url" ms (searxng.URL dst))
      (behaviour.field_value "img_src" ms (searxng.ImgSrc dst))
      (behaviour.field_value "thumbnail_src" ms (searxng.ThumbnailSrc dst))
      (behaviour.field_value "thumbnail" ms (searxng.Thumbnail dst))
      (behaviour.field_value "content" ms (searxng.Content dst))
      (behaviour.field_value "author" ms (searxng.Author dst))
      (behaviour.field_value "iframe_src" ms (searxng.IframeSrc dst))
  ∧ spec.result_of (json.Object ms)
    = Some (searxng.mkSearchResult
              (behaviour.field_value "title" ms EmptyString)
              (behaviour.field_value "url" ms EmptyString)
              (behaviour.field_value "img_src" ms EmptyString)
              (behaviour.field_value "thumbnail_src" ms EmptyString)
              (behaviour.field_value "thumbnail" ms EmptyString)
              (behaviour.field_value "content" ms EmptyString)
              (behaviour.field_value "author" ms EmptyString)
              (behaviour.field_value "iframe_src" ms EmptyString))
  ∧ (∀ name old key s rest,
       spec.names name key = true →
       Forall (fun m => spec.names name (fst m) = false) rest →
       behaviour.field_value name (ms ++ (key, json.Str s) :: rest) old = s)
  ∧ ∀ name old,
      Forall (fun m => spec.names name (fst m) = false) ms →
      behaviour.field_value name ms old = old.
Proof.
  assert (∀ name rest old,
            Forall (fun m => spec.names name (fst m) = false) rest →
            behaviour.field_value name rest old = old) as Hkeep.
  { intros name rest old Hrest. unfold behaviour.field_value.
    induction Hrest as [|m rest Hm _ IH]; [done|].
    cbn [fold_left]. unfold behaviour.store at 2. by rewrite Hm. }
  split_and!.
  - apply fold_members_store.
  - unfold spec.result_of, json.decode_ptr.
    pose proof (fold_members_store ms searxng.zero_SearchResult None) as Hms.
    unfold searxng.decode_SearchResult, json.decode_struct. cbn [default].
    destruct (fold_left _ ms _) as [r e]. cbn [fst] in *. by rewrite Hms.
  - intros name old key s rest Hkey Hrest.
    unfold behaviour.field_value. rewrite fold_left_app. cbn [fold_left].
    unfold behaviour.store at 2. cbn [fst snd]. rewrite Hkey.
    by apply Hkeep.
  - intros name old. apply Hkeep.
Qed.

(** ** Nil slices and nil pointers *)

Section nil_results.
Import json strings searxng behaviour shape.

Lemma Results_of_the_member ms key v r :
  decode_SearchResponse zero_SearchResponse (Object ms) None = (r, None) →
  List.filter spec.names_results ms = [(key, v)] →
  (v = Null ∨ ∃ vs, v = Array vs)
  ∧ ∃ saved, Results r = fst (decode_Results nil_slice v saved).
Proof.
  intros Hdec Hone.
  pose proof (decode_SearchResponse_decides zero_SearchResponse (Object ms)
                None) as Hfits.
  rewrite Hdec in Hfits. cbn [snd fits_response] in Hfits.
  destruct Hfits as [Hfits _]. destruct (Hfits eq_refl) as [_ Hall].
  destruct (filter_singleton _ _ _ Hone) as (l1 & l2 & -> & Hkey & Hl1 & Hl2).
  split.
  - rewrite forallb_app in Hall. apply andb_true_iff in Hall as [_ Hall].
    cbn [forallb] in Hall. apply andb_true_iff in Hall as [Hv _].
    unfold fits_member in Hv. rewrite Hkey in Hv. cbn [negb orb snd] in Hv.
    apply andb_true_iff in Hv as [Hv _].
    destruct v; try done; [by left|right; by eexists].
  - unfold decode_SearchResponse, decode_struct in Hdec.
    rewrite fold_left_app in Hdec. cbn [fold_left] in Hdec.
    pose proof (other_members_keep_Results l1 (zero_SearchResponse, None) Hl1)
      as Hbefore.
    destruct (fold_left _ l1 _) as [r1 saved1]. cbn [fst Results] in Hbefore.
    exists saved1.
    pose proof (other_members_keep_Results l2
                  (decode_member SearchResponse_fields (r1, saved1) (key, v))
                  Hl2) as Hafter.
    rewrite Hdec in Hafter. cbn [fst] in Hafter. rewrite Hafter.
    rewrite names_results_member by done. unfold field. cbn [fst snd].
    rewrite Hbefore.
    change (Results zero_SearchResponse) with (@nil_slice (option SearchResult)).
    by destruct (decode_Results nil_slice v saved1).
Qed.

End nil_results.

(** X16: when [Search] succeeds on an object with one member for
    [results], [Results] is nil exactly when the member is [null]; an
    empty array gives a slice that is empty and not nil.  An element
    of [Results] is a nil pointer exactly where the array holds
    [null], so the results have to be checked for nil before they are
    used. *)
Theorem Results_nil_and_null (b : http.Body)
    (ms : list (string * json.value)) (key : string) (v : json.value)
    (r : searxng.SearchResponse) :
  spec.body_outcome b = (Some r, None) →
  json.parse (http.data b) = Some (json.Object ms) →
  List.filter spec.names_results ms = [(key, v)] →
  (json.is_nil (searxng.Results r) = true ↔ v = json.Null)
  ∧ (v = json.Array [] → searxng.Results r = json.mkSlice [] [])
  ∧ (∀ vs i, v = json.Array vs →
       json.elems_of (searxng.Results r) !! i = Some None
       ↔ vs !! i = Some json.Null)
  ∧ ∀ w, spec.result_of w = None ↔ w = json.Null.
Proof.
  intros Hok Hparse Hone.
  destruct (body_outcome_ok _ _ Hok) as (_ & v' & Hparse' & Hdec).
  rewrite Hparse in Hparse'. injection Hparse' as <-.
  destruct (Results_of_the_member _ _ _ _ Hdec Hone)
    as [Hshape [saved Hresults]].
  split_and!.
  - rewrite Hresults.
    destruct Hshape as [->|[vs ->]]; [done|].
    unfold searxng.decode_Results, json.decode_slice.
    destruct vs as [|w vs]; [done|].
    by destruct (json.decode_elems _ _ _ _ _).
  - intros ->. by rewrite Hresults.
  - intros vs i ->.
    unfold searxng.decode_SearchResponse, json.decode_struct in Hdec.
    pose proof (Results_in_order ms key vs None Hone) as Horder.
    rewrite Hdec in Horder. cbn [fst] in Horder.
    rewrite Horder, list_lookup_fmap.
    destruct (vs !! i) as [w|]; cbn [fmap option_fmap option_map]; [|done].
    pose proof (result_of_nil w). naive_solver.
  - apply result_of_nil.
Qed.

Lemma Results_nil_and_null_witness :
  json.elems_of (json.mkSlice [None; Some searxng.zero_SearchResult] [])
    !! 0%nat = Some None
  ↔ [json.Null; json.Object []] !! 0%nat = Some json.Null.
Proof.
  pose proof (Results_nil_and_null
                (spec.ok_body (spec.dq "{'results':[null,{}]}"))
                [("results", json.Array [json.Null; json.Object []])]
                "results" (json.Array [json.Null; json.Object []])
                (searxng.mkSearchResponse
                   (json.mkSlice [None; Some searxng.zero_SearchResult] [])
                   json.nil_slice)) as H.
  destruct H as (_ & _ & Helems & _);
    [vm_compute; reflexivity..|].
  apply (Helems [json.Null; json.Object []] 0%nat). reflexivity.
Defined.

(** ** Bodies with blanks and with more than one value *)

Section blank_bodies.
Import json strings searxng behaviour jsontext.

Lemma scan_blank_begin (ws rest : string) (stack : list frame) :
  whitespace ws = true →
  scan (mkScanner stateBeginValue stack) (ws +:+ rest)
  = scan (mkScanner stateBeginValue stack) rest.
Proof.
  unfold whitespace. induction ws as [|c ws IH]; [done|].
  cbn [all_bytes]. intros [Hc Hws]%andb_true_iff.
  rewrite append_cons, scan_cons. cbn [scan_byte step parseState].
  unfold begin_value. rewrite Hc. by apply IH.
Qed.

Lemma parse_blank (ws : string) : whitespace ws = true → parse ws = None.
Proof.
  intros Hws. unfold parse.
  rewrite <- (append_nil_r ws), scan_blank_begin by done. reflexivity.
Qed.

End blank_bodies.

(** X17: a body that is empty, or holds only blanks (space, tab,
    carriage return, line feed), is no JSON value: [Search] reads it,
    closes it and returns a syntax error with a nil response. *)
Theorem blank_body_is_syntax_error (net : http.RoundTripper)
    (c : searxng.Client) (query : string)
    (opts : option searxng.SearchOptions) (req : http.Request)
    (resp : http.Response) :
  spec.request c query opts = inl req →
  net req = inl resp →
  http.read_error (http.Body_ resp) = None →
  behaviour.whitespace (http.data (http.Body_ resp)) = true →
  http.run (searxng.Search net c query opts)
  = ((None, Some (ErrJSON json.SyntaxError)),
     [http.EvDo req; http.EvReadAll; http.EvClose]).
Proof.
  intros Hreq Hnet Hread Hblank. rewrite Search_run, Hreq, Hnet.
  unfold spec.body_outcome, json.Unmarshal.
  by rewrite Hread, parse_blank.
Qed.

Lemma blank_body_is_syntax_error_witness :
  http.run
    (searxng.Search (spec.always (spec.sample_response 200 ""))
       (searxng.NewClient "http://localhost:8080") "golang" None)
  = ((None, Some (ErrJSON json.SyntaxError)),
     [http.EvDo
        (http.mkRequest "GET"
           (url.mkURL "http" "" None "localhost:8080" "/search" "" false
              false "format=json&q=golang" "" "")
           "localhost:8080");
      http.EvReadAll; http.EvClose]).
Proof.
  apply (blank_body_is_syntax_error
           (spec.always (spec.sample_response 200 ""))
           (searxng.NewClient "http://localhost:8080") "golang" None
           (http.mkRequest "GET"
              (url.mkURL "http" "" None "localhost:8080" "/search" "" false
                 false "format=json&q=golang" "" "")
              "localhost:8080")
           (spec.sample_response 200 ""));
    vm_compute; reflexivity.
Defined.

Section padded_bodies.
Import json strings searxng behaviour.

Lemma scan_app (a b : string) :
  ∀ s, scan s (a +:+ b)
       = match scan s a with Some s' => scan s' b | None => None end.
Proof.
  induction a as [|c a IH]; intros s; [done|].
  rewrite append_cons, !scan_cons. destruct (scan_byte s c); [apply IH|done].
Qed.

Lemma scan_byte_no_blank_literal (s s' : scanner) (c : ascii) :
  no_blank_literal s → scan_byte s c = Some s' → no_blank_literal s'.
Proof.
  destruct s as [st stack].
  unfold no_blank_literal, scan_byte, begin_value, begin_string, after_value,
    pushParseState, endValue.
  cbn [step parseState].
  intros Hs Hstep.
  repeat case_match; simplify_eq; cbn in *; simplify_eq; try done.
  by apply andb_true_iff in Hs as [_ ?].
Qed.

Lemma scan_no_blank_literal (data : string) :
  ∀ s s', no_blank_literal s → scan s data = Some s' → no_blank_literal s'.
Proof.
  induction data as [|c data IH]; intros s s' Hs.
  - by intros [= <-].
  - rewrite scan_cons. destruct (scan_byte s c) as [s1|] eqn:Hstep; [|done].
    apply IH. by eapply scan_byte_no_blank_literal.
Qed.

Lemma isSpace_cases (c : ascii) :
  isSpace c = true →
  c = " "%char ∨ c = "009"%char ∨ c = "013"%char ∨ c = "010"%char.
Proof.
  destruct c as [[] [] [] [] [] [] [] []]; vm_compute; intros H;
    first [discriminate H | tauto].
Qed.


Lemma blank_literal (rest : string) (c : ascii) :
  all_bytes (fun c => negb (isSpace c)) rest = true → isSpace c = true →
  match rest with
  | String c' _ => byte_eqb c c' = false
  | EmptyString => True
  end.
Proof.
  destruct rest as [|c' rest]; [done|]. cbn [all_bytes].
  intros [Hc' _]%andb_true_iff Hc. unfold byte_eqb.
  destruct (Ascii.eqb_spec c c') as [->|]; [|done].
  by rewrite Hc in Hc'.
Qed.

(** A blank after a complete text does what the end of the input
    does. *)
Lemma blank_ends (s : scanner) (c : ascii) (v : value) :
  no_blank_literal s → eof s = Some v → isSpace c = true →
  ∃ stack, scan_byte s c = Some (mkScanner (stateEndTop v) stack).
Proof.
  intros Hs Heof Hc. destruct s as [st stack].
  pose proof (isSpace_cases c Hc) as Hcases.
  unfold eof in Heof. unfold no_blank_literal in Hs. cbn [step] in Hs.
  destruct st as [| | | |w|w|content|content|digits content|n literal|rest w].
  - done.
  - done.
  - done.
  - done.
  - cbn [scan_byte step parseState after_value] in *.
    destruct stack as [|top below]; cbn in Heof; [|done].
    unfold after_value. rewrite Hc. injection Heof as <-. by eexists.
  - cbn [scan_byte step parseState] in *. cbn in Heof. rewrite Hc.
    injection Heof as <-. by eexists.
  - cbn in Heof. done.
  - done.
  - done.
  - cbn [scan_byte step parseState] in *.
    assert (number_step n c = number_step n " ") as ->.
    { destruct Hcases as [-> | [-> | [-> | ->]]]; by destruct n. }
    destruct (number_step n " ") as [[n1|u]|]; [done| |done].
    unfold after_value in *. destruct stack as [|top below]; [|done].
    cbn in Heof. rewrite Hc. injection Heof as <-. by eexists.
  - cbn [scan_byte step parseState] in *.
    pose proof (blank_literal rest " " Hs eq_refl) as Hrest.
    destruct rest as [|c' rest]; [done|]. by rewrite Hrest in Heof.
Qed.

(** Another byte after a complete text is refused, unless the text
    is a number, which the byte may go on with. *)
Lemma other_byte_refused (s : scanner) (c : ascii) (v : value) :
  no_blank_literal s → eof s = Some v → (∀ literal, v ≠ Number literal) →
  isSpace c = false → scan_byte s c = None.
Proof.
  intros Hs Heof Hv Hc. destruct s as [st stack].
  unfold eof in Heof. unfold no_blank_literal in Hs. cbn [step] in Hs.
  destruct st as [| | | |w|w|content|content|digits content|n literal|rest w];
    try done; try (cbn in Heof; done).
  - cbn [scan_byte step parseState after_value] in *.
    destruct stack as [|top below]; cbn in Heof; [|done].
    unfold after_value. by rewrite Hc.
  - cbn [scan_byte step parseState] in *. by rewrite Hc.
  - cbn [scan_byte step parseState] in Heof.
    destruct (number_step n " ") as [[n1|u]|]; [done| |done].
    unfold after_value in Heof. destruct stack as [|top below]; [|done].
    cbn in Heof. injection Heof as <-. by destruct (Hv (text literal)).
  - cbn [scan_byte step parseState] in *.
    pose proof (blank_literal rest " " Hs eq_refl) as Hrest.
    destruct rest as [|c' rest]; [done|]. by rewrite Hrest in Heof.
Qed.

Lemma scan_blank_end (ws rest : string) (v : value) (stack : list frame) :
  whitespace ws = true →
  scan (mkScanner (stateEndTop v) stack) (ws +:+ rest)
  = scan (mkScanner (stateEndTop v) stack) rest.
Proof.
  unfold whitespace. induction ws as [|c ws IH]; [done|].
  cbn [all_bytes]. intros [Hc Hws]%andb_true_iff.
  rewrite append_cons, scan_cons. cbn [scan_byte step parseState].
  rewrite Hc. by apply IH.
Qed.

Lemma scanned_text (data : string) (v : value) :
  parse data = Some v →
  ∃ s, scan (mkScanner stateBeginValue []) data = Some s
       ∧ eof s = Some v ∧ no_blank_literal s.
Proof.
  unfold parse. destruct (scan _ data) as [s|] eqn:Hscan; [|done].
  intros Heof. exists s. split_and!; try done.
  by apply (scan_no_blank_literal data (mkScanner stateBeginValue [])).
Qed.

Lemma parse_padded_text (data lead trail : string) (v : value) :
  parse data = Some v → whitespace lead = true → whitespace trail = true →
  parse (lead +:+ data +:+ trail) = Some v.
Proof.
  intros (s & Hscan & Heof & Hs)%scanned_text Hlead Htrail. unfold parse.
  rewrite scan_blank_begin, scan_app, Hscan by done.
  destruct trail as [|c trail]; [done|].
  apply andb_true_iff in Htrail as [Hc Htrail].
  destruct (blank_ends s c v Hs Heof Hc) as [stack Hstep].
  rewrite scan_cons, Hstep.
  rewrite <- (append_nil_r trail), scan_blank_end by done. reflexivity.
Qed.

Lemma parse_text_then_byte (data lead trail : string) (v : value)
    (c : ascii) (rest : string) :
  parse data = Some v → whitespace lead = true → whitespace trail = true →
  isSpace c = false →
  trail ≠ EmptyString ∨ (∀ literal, v ≠ Number literal) →
  parse (lead +:+ data +:+ trail +:+ String c rest) = None.
Proof.
  intros (s & Hscan & Heof & Hs)%scanned_text Hlead Htrail Hc Hsep.
  unfold parse. rewrite scan_blank_begin, scan_app, Hscan by done.
  destruct trail as [|b trail].
  - destruct Hsep as [?|Hv]; [done|].
    by rewrite append_nil_l, scan_cons, (other_byte_refused s c v).
  - apply andb_true_iff in Htrail as [Hb Htrail].
    destruct (blank_ends s b v Hs Heof Hb) as [stack Hstep].
    rewrite append_cons, scan_cons, Hstep, scan_blank_end, scan_cons by done.
    cbn [scan_byte step]. by rewrite Hc.
Qed.

End padded_bodies.

(** X18: for a body that holds a JSON text, blanks put before and
    after the text change nothing: the outcome is the one of the text
    alone.  Another byte that follows, the start of a second value for
    one, makes the whole body a syntax error, and nothing of the first
    value is returned, as long as a blank stands between the text and
    the byte or the value of the text is no number; right after a
    number a byte can go on with the number. *)
Theorem body_padding_and_trailing_data (data lead trail : string)
    (v : json.value) :
  json.parse data = Some v →
  behaviour.whitespace lead = true →
  behaviour.whitespace trail = true →
  json.parse (lead +:+ data +:+ trail) = Some v
  ∧ spec.body_outcome (spec.ok_body (lead +:+ data +:+ trail))
    = spec.body_outcome (spec.ok_body data)
  ∧ ∀ c rest,
      json.isSpace c = false →
      trail ≠ EmptyString ∨ (∀ literal, v ≠ json.Number literal) →
      spec.body_outcome
        (spec.ok_body (lead +:+ data +:+ trail +:+ String c rest))
      = (None, Some (ErrJSON json.SyntaxError)).
Proof.
  intros Hparse Hlead Htrail.
  pose proof (parse_padded_text data lead trail v Hparse Hlead Htrail)
    as Hpad.
  split_and!; [done| |].
  - rewrite (body_outcome_parsed (spec.ok_body (lead +:+ data +:+ trail)) v
               eq_refl Hpad).
    by rewrite (body_outcome_parsed (spec.ok_body data) v eq_refl Hparse).
  - intros c rest Hc Hsep. unfold spec.body_outcome, json.Unmarshal.
    cbn [spec.ok_body http.read_error http.data].
    by rewrite (parse_text_then_byte data lead trail v).
Qed.

Lemma body_padding_and_trailing_data_witness :
  json.parse (" " +:+ spec.dq "{'results':[],'count':12}" +:+ String "010" "")
  = Some (json.Object [("results", json.Array []);
                       ("count", json.Number "12")])
  ∧ spec.body_outcome
      (spec.ok_body
         (" " +:+ spec.dq "{'results':[],'count':12}" +:+ String "010" ""))
    = spec.body_outcome (spec.ok_body (spec.dq "{'results':[],'count':12}")).
Proof.
  destruct (body_padding_and_trailing_data
              (spec.dq "{'results':[],'count':12}") " " (String "010" "")
              (json.Object [("results", json.Array []);
                            ("count", json.Number "12")]))
    as (Hparse & Hsame & _); [vm_compute; reflexivity..|].
  by split.
Defined.

(** ** Base URLs that go wrong *)

Section odd_base_URLs.
Import strings searxng behaviour.

Lemma Parse_control_byte (s : string) :
  url.stringContainsCTLByte (fst (fst (Cut s "#"))) = true →
  url.Parse s
  = inr (url.mkError "parse" (fst (fst (Cut s "#")))
           url.InvalidControlCharacter).
Proof.
  intros Hctl. unfold url.Parse.
  destruct (Cut s "#") as [[u frag] found]. cbn [fst] in *.
  unfold url.parse. by rewrite Hctl.
Qed.

Lemma JoinPath_path (u : url.URL) (elem : list string) :
  ∃ p raw,
    url.JoinPath u elem
    = url.mkURL (url.Scheme u) (url.Opaque u) (url.User u) (url.Host u) p raw
        (url.OmitHost u) (url.ForceQuery u) (url.RawQuery u) (url.Fragment u)
        (url.RawFragment u).
Proof.
  unfold url.JoinPath.
  set (p := if HasSuffix _ _ && _ then _ else _). clearbody p.
  unfold url.setPath. destruct (url.unescape p url.encodePath) as [path|e].
  - by eexists _, _.
  - exists (url.Path u), (url.RawPath u). by destruct u.
Qed.

Lemma String_opaque (u : url.URL) (p raw : string) :
  url.Opaque u ≠ EmptyString →
  url.String_
    (url.mkURL (url.Scheme u) (url.Opaque u) (url.User u) (url.Host u) p raw
       (url.OmitHost u) (url.ForceQuery u) (url.RawQuery u) (url.Fragment u)
       (url.RawFragment u))
  = url.String_ u.
Proof.
  intros Hopaque. destruct u as [sch opq usr host path raw' omit force rq
                                   frag rfrag].
  cbn [url.Opaque] in Hopaque. destruct opq as [|o opq]; [done|].
  reflexivity.
Qed.

End odd_base_URLs.

(** X19: a base URL with a control byte before its fragment, a line
    feed left at its end for one, is refused: [Search] returns the
    invalid-base-URL error that wraps the parse error, a nil response,
    and sends nothing. *)
Theorem base_URL_control_byte (net : http.RoundTripper)
    (c : searxng.Client) (query : string)
    (opts : option searxng.SearchOptions) :
  url.stringContainsCTLByte
    (fst (fst (strings.Cut (searxng.baseURL c) "#"))) = true →
  http.run (searxng.Search net c query opts)
  = ((None,
      Some (ErrInvalidBaseURL
              (url.mkError "parse"
                 (fst (fst (strings.Cut (searxng.baseURL c) "#")))
                 url.InvalidControlCharacter))), []).
Proof.
  intros Hctl. rewrite Search_run. unfold spec.request.
  by rewrite Parse_control_byte.
Qed.

Lemma base_URL_control_byte_witness :
  http.run
    (searxng.Search (spec.always (spec.sample_response 200 "{}"))
       (searxng.NewClient ("http://localhost:8080" +:+ String "010" ""))
       "golang" None)
  = ((None,
      Some (ErrInvalidBaseURL
              (url.mkError "parse"
                 ("http://localhost:8080" +:+ String "010" "")
                 url.InvalidControlCharacter))), []).
Proof.
  apply (base_URL_control_byte
           (spec.always (spec.sample_response 200 "{}"))
           (searxng.NewClient ("http://localhost:8080" +:+ String "010" ""))
           "golang" None).
  vm_compute. reflexivity.
Defined.

(** X20: a base URL that parses with an opaque part, as
    [localhost:8080] does for want of [http://] (scheme [localhost],
    opaque [8080]), loses the [search] segment: the text of the search
    URL is the text of the base URL with the query string, without any
    path.  No error is returned before the request is sent. *)
Theorem opaque_base_URL_loses_search (u : url.URL) (query : string)
    (opts : option searxng.SearchOptions) :
  url.Opaque u ≠ EmptyString →
  url.String_ (searxng.search_URL u query opts)
  = url.String_
      (url.with_RawQuery u (url.Encode (searxng.search_params query opts)))
  ∧ (url.Parse "localhost:8080"
     = inl (url.mkURL "localhost" "8080" None "" "" "" false false "" "" "")
     ∧ ∀ net,
         head (snd (http.run
                      (searxng.Search net (searxng.NewClient "localhost:8080")
                         "golang" None)))
         = Some (http.EvDo
                   (http.mkRequest "GET"
                      (url.mkURL "localhost" "8080" None "" "" "" false false
                         "format=json&q=golang" "" "") ""))).
Proof.
  intros Hopaque. split.
  - unfold searxng.search_URL.
    destruct (JoinPath_path u ["search"]) as (p & raw & ->).
    set (Q := url.Encode _). clearbody Q.
    apply (String_opaque (url.with_RawQuery u Q) p raw).
    by destruct u.
  - split; [vm_compute; reflexivity|]. intros net. rewrite Search_run.
    change (spec.request (searxng.NewClient "localhost:8080") "golang" None)
      with (inl (B := error)
              (http.mkRequest "GET"
                 (url.mkURL "localhost" "8080" None "" "" "" false false
                    "format=json&q=golang" "" "") "")).
    cbv iota beta.
    by destruct (net (http.mkRequest "GET"
                        (url.mkURL "localhost" "8080" None "" "" "" false
                           false "format=json&q=golang" "" "") "")).
Qed.

Lemma opaque_base_URL_loses_search_witness :
  url.String_
    (searxng.search_URL
       (url.mkURL "localhost" "8080" None "" "" "" false false "" "" "")
       "golang" None)
  = url.String_
      (url.with_RawQuery
         (url.mkURL "localhost" "8080" None "" "" "" false false "" "" "")
         (url.Encode (searxng.search_params "golang" None))).
Proof.
  apply (opaque_base_URL_loses_search
           (url.mkURL "localhost" "8080" None "" "" "" false false "" "" "")
           "golang" None).
  discriminate.
Defined.

(** X21: options that hold nothing, empty lists, an empty language
    and a page number of zero or below, are the same as no options:
    the parameters and the request are those of a search with nil
    options. *)
Theorem empty_options_as_nil (c : searxng.Client) (query : string)
    (o : searxng.SearchOptions) :
  searxng.Categories o = [] → searxng.Engines o = [] →
  searxng.Language o = EmptyString → searxng.PageNo o ≤ 0 →
  searxng.search_params query (Some o) = searxng.search_params query None
  ∧ spec.request c query (Some o) = spec.request c query None
  ∧ ∀ net, searxng.Search net c query (Some o)
           = searxng.Search net c query None.
Proof.
  intros Hcategories Hengines Hlanguage Hpage.
  assert (searxng.search_params query (Some o)
          = searxng.search_params query None) as Hparams.
  { unfold searxng.search_params.
    rewrite Hcategories, Hengines, Hlanguage.
    cbn [length Nat.ltb Nat.leb String.eqb negb].
    by destruct (Z.ltb_spec 0 (searxng.PageNo o)); [lia|]. }
  assert (∀ base, searxng.search_URL base query (Some o)
                  = searxng.search_URL base query None) as HURL.
  { intros base. unfold searxng.search_URL. by rewrite Hparams. }
  split_and!; [done| |].
  - unfold spec.request.
    destruct (url.Parse (searxng.baseURL c)); [|done]. by rewrite HURL.
  - intros net. unfold searxng.Search.
    destruct (url.Parse (searxng.baseURL c)); [|done]. by rewrite HURL.
Qed.

Lemma empty_options_as_nil_witness :
  searxng.search_params "golang" (Some (searxng.mkSearchOptions [] [] "" (-1)))
  = searxng.search_params "golang" None.
Proof.
  apply (empty_options_as_nil (searxng.NewClient "http://localhost:8080")
           "golang" (searxng.mkSearchOptions [] [] "" (-1)));
    first [reflexivity | cbn; lia].
Defined.

(** ** Bodies that are no response *)

Section other_bodies.
Import json strings searxng behaviour.

Lemma begin_value_refuses (c : ascii) :
  starts_value c = false → begin_value [] c = None.
Proof.
  destruct c as [[] [] [] [] [] [] [] []]; vm_compute; intros H;
    first [reflexivity | discriminate H].
Qed.

Lemma parse_no_value (lead : string) (c : ascii) (rest : string) :
  whitespace lead = true → starts_value c = false →
  parse (lead +:+ String c rest) = None.
Proof.
  intros Hlead Hc. unfold parse. rewrite scan_blank_begin, scan_cons by done.
  cbn [scan_byte step parseState]. by rewrite begin_value_refuses.
Qed.

End other_bodies.

(** X22: a body whose first byte after the blanks cannot start a JSON
    value, as the [<] of an HTML page or the first letter of a plain
    text message, is a syntax error: [Search] reads it, closes it and
    returns the error with a nil response. *)
Theorem body_that_starts_no_value (net : http.RoundTripper)
    (c : searxng.Client) (query : string)
    (opts : option searxng.SearchOptions) (req : http.Request)
    (resp : http.Response) (lead : string) (first : ascii) (rest : string) :
  spec.request c query opts = inl req →
  net req = inl resp →
  http.read_error (http.Body_ resp) = None →
  http.data (http.Body_ resp) = lead +:+ String first rest →
  behaviour.whitespace lead = true →
  behaviour.starts_value first = false →
  http.run (searxng.Search net c query opts)
  = ((None, Some (ErrJSON json.SyntaxError)),
     [http.EvDo req; http.EvReadAll; http.EvClose]).
Proof.
  intros Hreq Hnet Hread Hdata Hlead Hfirst. rewrite Search_run, Hreq, Hnet.
  unfold spec.body_outcome, json.Unmarshal.
  by rewrite Hread, Hdata, parse_no_value.
Qed.

Lemma body_that_starts_no_value_witness :
  http.run
    (searxng.Search
       (spec.always (spec.sample_response 429 "<html>Too Many Requests</html>"))
       (searxng.NewClient "http://localhost:8080") "golang" None)
  = ((None, Some (ErrJSON json.SyntaxError)),
     [http.EvDo
        (http.mkRequest "GET"
           (url.mkURL "http" "" None "localhost:8080" "/search" "" false
              false "format=json&q=golang" "" "")
           "localhost:8080");
      http.EvReadAll; http.EvClose]).
Proof.
  apply (body_that_starts_no_value
           (spec.always
              (spec.sample_response 429 "<html>Too Many Requests</html>"))
           (searxng.NewClient "http://localhost:8080") "golang" None
           (http.mkRequest "GET"
              (url.mkURL "http" "" None "localhost:8080" "/search" "" false
                 false "format=json&q=golang" "" "")
              "localhost:8080")
           (spec.sample_response 429 "<html>Too Many Requests</html>")
           "" "<" "html>Too Many Requests</html>");
    vm_compute; reflexivity.
Defined.

(** X23: a body that is well-formed JSON but neither [null] nor an
    object, an array or a string for one, is a type error that names
    the kind of the value and the type [searxng.SearchResponse];
    the response is nil. *)
Theorem body_that_is_no_object (net : http.RoundTripper)
    (c : searxng.Client) (query : string)
    (opts : option searxng.SearchOptions) (req : http.Request)
    (resp : http.Response) (v : json.value) :
  spec.request c query opts = inl req →
  net req = inl resp →
  http.read_error (http.Body_ resp) = None →
  json.parse (http.data (http.Body_ resp)) = Some v →
  v ≠ json.Null → (∀ members, v ≠ json.Object members) →
  fst (http.run (searxng.Search net c query opts))
  = (None,
     Some (ErrJSON
             (json.UnmarshalTypeError (json.kind_name v)
                "searxng.SearchResponse"))).
Proof.
  intros Hreq Hnet Hread Hparse Hnull Hobject.
  rewrite Search_run, Hreq, Hnet. cbn [fst].
  rewrite (body_outcome_parsed _ v Hread Hparse).
  destruct v; try done. by destruct (Hobject members).
Qed.

Lemma body_that_is_no_object_witness :
  fst (http.run
         (searxng.Search (spec.always (spec.sample_response 200 "[]"))
            (searxng.NewClient "http://localhost:8080") "golang" None))
  = (None,
     Some (ErrJSON (json.UnmarshalTypeError "array" "searxng.SearchResponse"))).
Proof.
  apply (body_that_is_no_object
           (spec.always (spec.sample_response 200 "[]"))
           (searxng.NewClient "http://localhost:8080") "golang" None
           (http.mkRequest "GET"
              (url.mkURL "http" "" None "localhost:8080" "/search" "" false
                 false "format=json&q=golang" "" "")
              "localhost:8080")
           (spec.sample_response 200 "[]") (json.Array []));
    first [vm_compute; reflexivity | discriminate].
Defined.
